(** * Sculpt-mode visibility (hide/show) operators over the PBVH

    A shallow embedding of the PBVH node hiding operators (namespace
    [blender::ed::sculpt_paint::hide]): the three representations of a
    sculpted surface (polygon mesh, multires grids, dynamic topology), the
    per-node update loops, the undo pushes and the node dirty marks.

    Conventions of the embedding.
    - A [Span<bool>] is a [list bool]; [span[i]] is [span_get span i].  The
      source asserts that the index is in range; out of range the embedding
      reads [false] and a write does nothing.  Theorems that depend on the
      indices being in range say so.
    - A [Span<PBVHNode *>] is a [list PBVHNode]; a node is identified by its
      position in the span, and an operation returns the updated nodes in the
      same order.
    - [threading::parallel_for] over the nodes is run in span order: the
      tasks write to disjoint nodes.
    - [undo::push_node] appends one entry to the undo log. *)

From stdpp Require Import base list sets.
From Stdlib Require Import ZArith QArith.

Open Scope nat_scope.

(** ** Spans *)

Definition span_get (s : list bool) (i : nat) : bool := default false (s !! i).

(** [array_utils::gather(src, indices, dst)]: [dst[i] = src[indices[i]]]. *)
Definition gather (src : list bool) (indices : list nat) : list bool :=
  map (span_get src) indices.

(** [array_utils::scatter(src, indices, dst)]: [dst[indices[i]] = src[i]]. *)
Fixpoint scatter (src : list bool) (indices : list nat) (dst : list bool) : list bool :=
  match src, indices with
  | b :: src', i :: indices' => scatter src' indices' (<[i := b]> dst)
  | _, _ => dst
  end.

(** [array_utils::indexed_data_equal(all_values, indices, values)]. *)
Fixpoint indexed_data_equal (all_values : list bool) (indices : list nat)
    (values : list bool) : bool :=
  match indices, values with
  | i :: indices', b :: values' =>
      if Bool.eqb (span_get all_values i) b
      then indexed_data_equal all_values indices' values'
      else false
  | _, _ => true
  end.

(** [Vector::resize]: truncate, or pad with value-initialised elements. *)
Definition resize (n : nat) (v : list nat) : list nat :=
  take n v ++ replicate (n - length v) 0.

(** [std::copy_if(first, last, d_first, pred)]: the output cursor advances
    only past the elements that were copied; the final cursor is returned. *)
Fixpoint copy_if (pred : nat -> bool) (src : list nat) (dst : list nat) (out : nat)
    : list nat * nat :=
  match src with
  | [] => (dst, out)
  | x :: rest =>
      if pred x then copy_if pred rest (<[out := x]> dst) (S out)
      else copy_if pred rest dst out
  end.

(** ** PBVH nodes, actions and undo steps *)

(** The fields of a [PBVHNode] that the operators read or write.  The index
    lists are what [bke::pbvh::node_unique_verts], [node_verts],
    [node_face_indices_calc_mesh], [node_grid_indices] and the
    [BKE_pbvh_bmesh_node_*] accessors return. *)
Record PBVHNode := mkNode {
  node_unique_verts : list nat;
  node_verts : list nat;
  node_face_indices : list nat;
  node_grid_indices : list nat;
  bm_unique_verts : list nat;
  bm_other_verts : list nat;
  bm_faces : list nat;
  fully_hidden : bool;
  update_visibility : bool;
  rebuild_draw : bool
}.

(** Modelled from the spec: [BKE_pbvh_node_fully_hidden_set],
    [BKE_pbvh_node_mark_update_visibility] and [BKE_pbvh_node_mark_rebuild_draw]
    are not among the sources; they set the node's fully-hidden cache and its
    two dirty tags. *)
Definition fully_hidden_set (node : PBVHNode) (b : bool) : PBVHNode :=
  mkNode (node_unique_verts node) (node_verts node) (node_face_indices node)
    (node_grid_indices node) (bm_unique_verts node) (bm_other_verts node)
    (bm_faces node) b (update_visibility node) (rebuild_draw node).

Definition mark_update_visibility (node : PBVHNode) : PBVHNode :=
  mkNode (node_unique_verts node) (node_verts node) (node_face_indices node)
    (node_grid_indices node) (bm_unique_verts node) (bm_other_verts node)
    (bm_faces node) (fully_hidden node) true (rebuild_draw node).

Definition mark_rebuild_draw (node : PBVHNode) : PBVHNode :=
  mkNode (node_unique_verts node) (node_verts node) (node_face_indices node)
    (node_grid_indices node) (bm_unique_verts node) (bm_other_verts node)
    (bm_faces node) (fully_hidden node) (update_visibility node) true.

(** A node is dirty when one of its two redraw tags is set. *)
Definition node_dirty (node : PBVHNode) : bool :=
  update_visibility node || rebuild_draw node.

Inductive VisAction := Hide | Show.

Definition action_to_hide (action : VisAction) : bool :=
  match action with Hide => true | Show => false end.

Inductive UndoType := HideVert | HideFace.

(** One [undo::push_node(object, node, type)] call: the node's position in
    the node span and the kind of change. *)
Definition UndoStep : Type := nat * UndoType.

(** ** Public API: [node_visible_verts] *)

(** Returns the span handed back to the caller and the scratch vector
    [indices] as the call leaves it. *)
Definition node_visible_verts (node : PBVHNode) (hide_vert : list bool)
    (indices : list nat) : list nat * list nat :=
  if fully_hidden node then ([], indices)
  else
    let verts := node_unique_verts node in
    match hide_vert with
    | [] => (verts, indices)
    | _ =>
        let indices1 := resize (length verts) indices in
        let '(indices2, out) :=
          copy_if (fun vert => negb (span_get hide_vert vert)) verts indices1 0 in
        let indices3 := resize out indices2 in
        (indices3, indices3)
    end.

(** ** Polygon mesh *)

Record IndexRange := mkRange { range_start : nat; range_size : nat }.

(** [Span::slice(range)]. *)
Definition slice {A : Type} (s : list A) (r : IndexRange) : list A :=
  take (range_size r) (drop (range_start r) s).

(** The mesh topology and its visibility attributes.  [faces] is
    [Mesh::faces()], one corner range per face.  An attribute that is not
    stored is [None]: for [".hide_vert"] that means every vertex is
    visible.  The sculpt mask is stored as rationals: only its comparison
    with one half is used. *)
Record Mesh := mkMesh {
  verts_num : nat;
  edges : list (nat * nat);
  faces : list IndexRange;
  corner_verts : list nat;
  hide_vert : option (list bool);
  hide_edge : option (list bool);
  hide_poly : option (list bool);
  sculpt_mask : option (list Q)
}.

Definition set_hide_vert (m : Mesh) (a : option (list bool)) : Mesh :=
  mkMesh (verts_num m) (edges m) (faces m) (corner_verts m) a (hide_edge m)
    (hide_poly m) (sculpt_mask m).

Definition set_hide_edge (m : Mesh) (a : option (list bool)) : Mesh :=
  mkMesh (verts_num m) (edges m) (faces m) (corner_verts m) (hide_vert m) a
    (hide_poly m) (sculpt_mask m).

Definition set_hide_poly (m : Mesh) (a : option (list bool)) : Mesh :=
  mkMesh (verts_num m) (edges m) (faces m) (corner_verts m) (hide_vert m)
    (hide_edge m) a (sculpt_mask m).

(** [attributes.lookup_or_add_for_write_span<bool>(name, domain)]: the stored
    array, or a new all-false array of the domain's size. *)
Definition lookup_or_add (attr : option (list bool)) (size : nat) : list bool :=
  default (replicate size false) attr.

Definition hide_vert_span (m : Mesh) : list bool := lookup_or_add (hide_vert m) (verts_num m).
Definition hide_poly_span (m : Mesh) : list bool := lookup_or_add (hide_poly m) (length (faces m)).
Definition hide_edge_span (m : Mesh) : list bool := lookup_or_add (hide_edge m) (length (edges m)).

(** The mesh, the node span and the undo log an operator works on. *)
Record MeshObject := mkMeshObject {
  mo_mesh : Mesh;
  mo_nodes : list PBVHNode;
  mo_undo : list UndoStep
}.

Definition face_range (fs : list IndexRange) (f : nat) : IndexRange :=
  default (mkRange 0 0) (fs !! f).

Definition corner_vert (cv : list nat) (corner : nat) : nat := default 0 (cv !! corner).

(** The [std::any_of] of [calc_face_hide]: some corner vertex of face [f] is
    hidden. *)
Definition face_any_hidden (fs : list IndexRange) (cv : list nat) (hv : list bool)
    (f : nat) : bool :=
  existsb (span_get hv) (slice cv (face_range fs f)).

Fixpoint calc_face_hide_from (i : nat) (node_faces : list nat) (fs : list IndexRange)
    (cv : list nat) (hv : list bool) (hide_face : list bool) : list bool :=
  match node_faces with
  | [] => hide_face
  | f :: rest =>
      calc_face_hide_from (S i) rest fs cv hv (<[i := face_any_hidden fs cv hv f]> hide_face)
  end.

Definition calc_face_hide (node_faces : list nat) (fs : list IndexRange) (cv : list nat)
    (hv : list bool) (hide_face : list bool) : list bool :=
  calc_face_hide_from 0 node_faces fs cv hv hide_face.

(** Modelled from the spec: [bke::pbvh::node_update_visibility_mesh] is not
    among the sources; it recomputes the node's fully-hidden cache from the
    node's own vertex set. *)
Definition node_update_visibility_mesh (hv : list bool) (node : PBVHNode) : PBVHNode :=
  fully_hidden_set node (forallb (span_get hv) (node_verts node)).

Fixpoint flush_face_changes_node_loop (fs : list IndexRange) (cv : list nat)
    (hv : list bool) (nodes : list PBVHNode) (hp : list bool)
    : list bool * list PBVHNode :=
  match nodes with
  | [] => (hp, [])
  | node :: rest =>
      let node_faces := node_face_indices node in
      let new_hide := calc_face_hide node_faces fs cv hv (gather hp node_faces) in
      if indexed_data_equal hp node_faces new_hide then
        let '(hp', rest') := flush_face_changes_node_loop fs cv hv rest hp in
        (hp', node :: rest')
      else
        let '(hp', rest') :=
          flush_face_changes_node_loop fs cv hv rest (scatter new_hide node_faces hp) in
        (hp', node_update_visibility_mesh hv (mark_update_visibility node) :: rest')
  end.

Definition flush_face_changes_node (m : Mesh) (nodes : list PBVHNode) (hv : list bool)
    : Mesh * list PBVHNode :=
  let '(hp, nodes') :=
    flush_face_changes_node_loop (faces m) (corner_verts m) hv nodes (hide_poly_span m) in
  (set_hide_poly m (Some hp), nodes').

(** Modelled from the spec: [bke::mesh_face_hide_from_vert] is not among the
    sources; the per-face rule is the OR of the corner vertices' flags. *)
Definition mesh_face_hide_from_vert (fs : list IndexRange) (cv : list nat)
    (hv : list bool) : list bool :=
  map (face_any_hidden fs cv hv) (seq 0 (length fs)).

Definition flush_face_changes (m : Mesh) (hv : list bool) : Mesh :=
  set_hide_poly m (Some (mesh_face_hide_from_vert (faces m) (corner_verts m) hv)).

(** Modelled from the spec: [bke::mesh_edge_hide_from_vert] is not among the
    sources; an edge is hidden when either endpoint is. *)
Definition mesh_edge_hide_from_vert (es : list (nat * nat)) (hv : list bool) : list bool :=
  map (fun e => span_get hv e.1 || span_get hv e.2) es.

Definition flush_edge_changes (m : Mesh) (hv : list bool) : Mesh :=
  set_hide_edge m (Some (mesh_edge_hide_from_vert (edges m) hv)).

Fixpoint vert_hide_update_loop (calc_hide : list nat -> list bool -> list bool)
    (i : nat) (nodes : list PBVHNode) (hv : list bool) (undo : list UndoStep)
    (any_changed : bool) : list bool * list UndoStep * bool :=
  match nodes with
  | [] => (hv, undo, any_changed)
  | node :: rest =>
      let verts := node_unique_verts node in
      let new_hide := calc_hide verts (gather hv verts) in
      if indexed_data_equal hv verts new_hide then
        vert_hide_update_loop calc_hide (S i) rest hv undo any_changed
      else
        vert_hide_update_loop calc_hide (S i) rest (scatter new_hide verts hv)
          (undo ++ [(i, HideVert)]) true
  end.

Definition vert_hide_update (ob : MeshObject)
    (calc_hide : list nat -> list bool -> list bool) : MeshObject :=
  let m := mo_mesh ob in
  let '(hv, undo, any_changed) :=
    vert_hide_update_loop calc_hide 0 (mo_nodes ob) (hide_vert_span m) (mo_undo ob) false in
  let m1 := set_hide_vert m (Some hv) in
  if any_changed then
    let '(m2, nodes') := flush_face_changes_node m1 (mo_nodes ob) hv in
    mkMeshObject (flush_edge_changes m2 hv) nodes' undo
  else mkMeshObject m1 (mo_nodes ob) undo.

(** [hide.fill(value)]. *)
Definition fill (value : bool) (hide : list bool) : list bool :=
  replicate (length hide) value.

(** The per-node callback of the predicate-driven updates:
    [for i in verts.index_range(): if (test(verts[i])) hide[i] = value]. *)
Fixpoint calc_hide_where_from (test : nat -> bool) (value : bool) (i : nat)
    (verts : list nat) (hide : list bool) : list bool :=
  match verts with
  | [] => hide
  | v :: rest =>
      calc_hide_where_from test value (S i) rest
        (if test v then <[i := value]> hide else hide)
  end.

Definition calc_hide_where (test : nat -> bool) (value : bool) (verts : list nat)
    (hide : list bool) : list bool :=
  calc_hide_where_from test value 0 verts hide.

(** Modelled from the spec: [bke::mesh_hide_vert_flush] is not among the
    sources; it re-flushes the edge and face flags from the vertex flags (all
    visible when [".hide_vert"] is not stored) and leaves the vertex
    attribute alone. *)
Definition mesh_hide_vert_flush (m : Mesh) : Mesh :=
  let hv := hide_vert_span m in
  flush_face_changes (flush_edge_changes m hv) hv.

Fixpoint mesh_show_all_loop (hv : list bool) (i : nat) (nodes : list PBVHNode)
    (undo : list UndoStep) : list PBVHNode * list UndoStep :=
  match nodes with
  | [] => ([], undo)
  | node :: rest =>
      if existsb (span_get hv) (node_verts node) then
        let '(rest', undo') := mesh_show_all_loop hv (S i) rest (undo ++ [(i, HideVert)]) in
        (mark_rebuild_draw node :: rest', undo')
      else
        let '(rest', undo') := mesh_show_all_loop hv (S i) rest undo in
        (node :: rest', undo')
  end.

Definition mesh_show_all (ob : MeshObject) : MeshObject :=
  let m := mo_mesh ob in
  let '(nodes1, undo) :=
    match hide_vert m with
    | Some hv => mesh_show_all_loop hv 0 (mo_nodes ob) (mo_undo ob)
    | None => (mo_nodes ob, mo_undo ob)
    end in
  let nodes2 := map (fun node => fully_hidden_set node false) nodes1 in
  mkMeshObject (mesh_hide_vert_flush (set_hide_vert m None)) nodes2 undo.

Definition partialvis_all_update_mesh (ob : MeshObject) (action : VisAction) : MeshObject :=
  match action, hide_vert (mo_mesh ob) with
  | Show, None => ob
  | Hide, _ => vert_hide_update ob (fun _ hide => fill true hide)
  | Show, _ => mesh_show_all ob
  end.

(** [mask[i] > 0.5f]. *)
Definition mask_above_half (mask : list Q) (i : nat) : bool :=
  negb (Qle_bool (default 0%Q (mask !! i)) (1 # 2)).

Definition partialvis_masked_update_mesh (ob : MeshObject) (action : VisAction)
    : MeshObject :=
  match action, hide_vert (mo_mesh ob) with
  | Show, None => ob
  | _, _ =>
      let value := action_to_hide action in
      let mask := default [] (sculpt_mask (mo_mesh ob)) in
      match action, mask with
      | Show, [] => mesh_show_all ob
      | _, [] => ob
      | _, _ => vert_hide_update ob (calc_hide_where (mask_above_half mask) value)
      end
  end.

(** [is_affected] stands for [gesture::is_affected] at the vertex's position
    and normal. *)
Definition partialvis_gesture_update_mesh (is_affected : nat -> bool) (ob : MeshObject)
    (action : VisAction) : MeshObject :=
  match action, hide_vert (mo_mesh ob) with
  | Show, None => ob
  | _, _ => vert_hide_update ob (calc_hide_where is_affected (action_to_hide action))
  end.

(** *** Invert *)

(** Modelled from the spec: one pass of [bke::mesh_hide_face_flush], which is
    not among the sources: the corner vertices of every face whose flag is
    [want] get the flag [want]. *)
Definition set_face_verts (fs : list IndexRange) (cv : list nat) (hp : list bool)
    (want : bool) (hv : list bool) : list bool :=
  foldl (fun hv f =>
           if Bool.eqb (span_get hp f) want
           then foldl (fun hv v => <[v := want]> hv) hv (slice cv (face_range fs f))
           else hv)
        hv (seq 0 (length fs)).

(** Modelled from the spec: [bke::mesh_hide_face_flush] is not among the
    sources; it flushes the face flags down: the corner vertices of hidden
    faces are hidden, then the corner vertices of visible faces are shown (the
    two passes of the dynamic-topology branch of [sync_all_from_faces]); the
    edge flags follow the vertex flags and the face flags are left as they
    are. *)
Definition mesh_hide_face_flush (m : Mesh) : Mesh :=
  let hp := hide_poly_span m in
  let hv1 := set_face_verts (faces m) (corner_verts m) hp true (hide_vert_span m) in
  let hv2 := set_face_verts (faces m) (corner_verts m) hp false hv1 in
  flush_edge_changes (set_hide_vert m (Some hv2)) hv2.

Definition toggle_faces (node_faces : list nat) (hp : list bool) : list bool :=
  foldl (fun hp face => <[face := negb (span_get hp face)]> hp) hp node_faces.

Fixpoint invert_visibility_mesh_loop (i : nat) (nodes : list PBVHNode) (hp : list bool)
    (undo : list UndoStep) : list bool * list PBVHNode * list UndoStep :=
  match nodes with
  | [] => (hp, [], undo)
  | node :: rest =>
      let '(hp', rest', undo') :=
        invert_visibility_mesh_loop (S i) rest (toggle_faces (node_face_indices node) hp)
          (undo ++ [(i, HideFace)]) in
      (hp', mark_update_visibility node :: rest', undo')
  end.

Definition invert_visibility_mesh (ob : MeshObject) : MeshObject :=
  let m := mo_mesh ob in
  let '(hp, nodes', undo) :=
    invert_visibility_mesh_loop 0 (mo_nodes ob) (hide_poly_span m) (mo_undo ob) in
  mkMeshObject (mesh_hide_face_flush (set_hide_poly m (Some hp))) nodes' undo.

(** *** Grow and shrink *)

(** Modelled from the spec: [bke::mesh::face_corner_prev] is not among the
    sources; it gives the immediate predecessor of a corner in the face's
    corner loop, wrapping around at the start of the face's corner range. *)
Definition face_corner_prev (face : IndexRange) (corner : nat) : nat :=
  if Nat.eqb corner (range_start face)
  then range_start face + range_size face - 1
  else corner - 1.

(** Modelled from the spec: [bke::mesh::face_corner_next] is not among the
    sources; it gives the immediate successor of a corner in the face's corner
    loop, wrapping around at the end of the face's corner range. *)
Definition face_corner_next (face : IndexRange) (corner : nat) : nat :=
  if Nat.eqb corner (range_start face + range_size face - 1)
  then range_start face
  else corner + 1.

(** The body of the corner loop of [affect_visibility_mesh<value>]. *)
Definition affect_corner (value : bool) (face : IndexRange) (cv : list nat)
    (read_buffer : list bool) (write_buffer : list bool) (corner : nat) : list bool :=
  let vert := corner_vert cv corner in
  if negb (Bool.eqb (span_get read_buffer vert) value) then write_buffer
  else
    let prev_vert := corner_vert cv (face_corner_prev face corner) in
    let write_buffer := <[prev_vert := value]> write_buffer in
    let next_vert := corner_vert cv (face_corner_next face corner) in
    <[next_vert := value]> write_buffer.

Definition affect_visibility_mesh (value : bool) (face : IndexRange) (cv : list nat)
    (read_buffer : list bool) (write_buffer : list bool) : list bool :=
  foldl (affect_corner value face cv read_buffer) write_buffer
    (seq (range_start face) (range_size face)).

Record DualBuffer := mkDualBuffer { front : list bool; back : list bool }.

(** [count % 2 == 0] on a C++ [int]: the remainder truncates towards zero, so
    [-1 % 2] is [-1]. *)
Definition is_even_count (count : Z) : bool := Z.eqb (Z.rem count 2) 0.

Definition write_buffer (b : DualBuffer) (count : Z) : list bool :=
  if is_even_count count then back b else front b.

Definition read_buffer (b : DualBuffer) (count : Z) : list bool :=
  if is_even_count count then front b else back b.

Definition set_write_buffer (b : DualBuffer) (count : Z) (w : list bool) : DualBuffer :=
  if is_even_count count then mkDualBuffer (front b) w else mkDualBuffer w (back b).

(** The view [hide_poly] that [grow_shrink_visibility_mesh] takes with
    [lookup_or_default]: it aliases the stored attribute, so it shows what
    [flush_face_changes] wrote in the previous iteration; when the attribute
    was not stored at the time of the lookup it is a private all-false
    array. *)
Definition hide_poly_view (stored : bool) (m : Mesh) : list bool :=
  if stored then hide_poly_span m else replicate (length (faces m)) false.

(** The face loop of one iteration of [propagate_vertex_visibility]. *)
Definition propagate_faces (action : VisAction) (fs : list IndexRange) (cv : list nat)
    (hp : list bool) (rd : list bool) (wr : list bool) : list bool :=
  foldl (fun wr face_index =>
           if negb (span_get hp face_index) then wr
           else
             let face := face_range fs face_index in
             match action with
             | Hide => affect_visibility_mesh true face cv rd wr
             | Show => affect_visibility_mesh false face cv rd wr
             end)
        wr (seq 0 (length fs)).

Definition propagate_step (stored : bool) (action : VisAction) (i : nat)
    (st : Mesh * DualBuffer) : Mesh * DualBuffer :=
  let '(m, buffers) := st in
  let rd := read_buffer buffers (Z.of_nat i) in
  let wr := write_buffer buffers (Z.of_nat i) in
  let wr' := propagate_faces action (faces m) (corner_verts m) (hide_poly_view stored m) rd wr in
  (flush_face_changes m wr', set_write_buffer buffers (Z.of_nat i) wr').

(** [for (const int i : IndexRange(iterations))], from iteration [i] on. *)
Fixpoint propagate_from (stored : bool) (action : VisAction) (remaining : nat) (i : nat)
    (st : Mesh * DualBuffer) : Mesh * DualBuffer :=
  match remaining with
  | 0 => st
  | S remaining' =>
      propagate_from stored action remaining' (S i) (propagate_step stored action i st)
  end.

Definition propagate_vertex_visibility (stored : bool) (m : Mesh) (buffers : DualBuffer)
    (action : VisAction) (iterations : nat) : Mesh * DualBuffer :=
  propagate_from stored action iterations 0 (m, buffers).

Fixpoint update_undo_state_from (i : nat) (nodes : list PBVHNode)
    (old_hide_vert new_hide_vert : list bool) (undo : list UndoStep) : list UndoStep :=
  match nodes with
  | [] => undo
  | node :: rest =>
      update_undo_state_from (S i) rest old_hide_vert new_hide_vert
        (if existsb (fun vert => negb (Bool.eqb (span_get old_hide_vert vert)
                                                 (span_get new_hide_vert vert)))
                    (node_unique_verts node)
         then undo ++ [(i, HideVert)] else undo)
  end.

Definition update_undo_state (nodes : list PBVHNode) (old_hide_vert new_hide_vert : list bool)
    (undo : list UndoStep) : list UndoStep :=
  update_undo_state_from 0 nodes old_hide_vert new_hide_vert undo.

Definition update_node_visibility_from_face_changes (nodes : list PBVHNode)
    (orig_hide_poly new_hide_poly hv : list bool) : list PBVHNode :=
  map (fun node =>
         if existsb (fun face_index => negb (Bool.eqb (span_get orig_hide_poly face_index)
                                                       (span_get new_hide_poly face_index)))
                    (node_face_indices node)
         then node_update_visibility_mesh hv (mark_update_visibility node)
         else node)
      nodes.

Definition grow_shrink_visibility_mesh (ob : MeshObject) (action : VisAction)
    (iterations : nat) : MeshObject :=
  let m := mo_mesh ob in
  match hide_vert m with
  | None => ob
  | Some hv =>
      let stored := bool_decide (is_Some (hide_poly m)) in
      let buffers := mkDualBuffer hv hv in
      let orig_hide_poly := hide_poly_view stored m in
      let '(m1, buffers1) := propagate_vertex_visibility stored m buffers action iterations in
      let last_buffer := write_buffer buffers1 (Z.of_nat iterations - 1) in
      let undo := update_undo_state (mo_nodes ob) hv last_buffer (mo_undo ob) in
      let m2 := flush_edge_changes m1 last_buffer in
      let nodes' :=
        update_node_visibility_from_face_changes (mo_nodes ob) orig_hide_poly
          (hide_poly_view stored m2) last_buffer in
      mkMeshObject (set_hide_vert m2 (Some last_buffer)) nodes' undo
  end.

(** ** Multires grids *)

Record SubdivCCGCoord := mkCoord { grid_index : nat; coord_x : nat; coord_y : nat }.

(** The part of [SubdivCCG] (and of the [CCGKey]) the operators use.
    [grid_hidden] is the [BitGroupVector]: one bit group per grid, and no
    group at all when the structure is not allocated.  [grid_mask] holds the
    mask of each grid element. *)
Record SubdivCCG := mkSubdivCCG {
  grids_num : nat;
  grid_size : nat;
  grid_hidden : list (list bool);
  has_mask : bool;
  grid_mask : list (list Q)
}.

Definition set_grid_hidden (ccg : SubdivCCG) (gh : list (list bool)) : SubdivCCG :=
  mkSubdivCCG (grids_num ccg) (grid_size ccg) gh (has_mask ccg) (grid_mask ccg).

(** Calls into the multires layer and the base-mesh resynchronisation, kept
    as a trace. *)
Inductive ExtCall := MultiresMarkAsModified | SyncVisibilityFromVerts.

Record GridObject := mkGridObject {
  go_ccg : SubdivCCG;
  go_nodes : list PBVHNode;
  go_undo : list UndoStep;
  go_calls : list ExtCall
}.

(** Modelled from the spec: [BKE_subdiv_ccg_grid_hidden_ensure] is not among
    the sources; it lazily allocates the all-visible bit structure, one group
    of [grid_size * grid_size] bits per grid. *)
Definition grid_hidden_ensure (ccg : SubdivCCG) : list (list bool) :=
  match grid_hidden ccg with
  | [] => replicate (grids_num ccg) (replicate (grid_size ccg * grid_size ccg) false)
  | gh => gh
  end.

(** Modelled from the spec: [BKE_subdiv_ccg_grid_hidden_free] is not among the
    sources; it releases the bit structure. *)
Definition grid_hidden_free (ccg : SubdivCCG) : SubdivCCG := set_grid_hidden ccg [].

(** [grid_hidden[g]]. *)
Definition grid_bits (gh : list (list bool)) (g : nat) : list bool := default [] (gh !! g).

(** Modelled from the spec: [CCG_grid_xy_to_index] is not among the sources;
    the elements of a grid are stored row by row, as in the
    [hide[y * key.grid_size + x]] of the masked and gesture callbacks. *)
Definition CCG_grid_xy_to_index (gs x y : nat) : nat := y * gs + x.

(** Modelled from the spec: [bke::pbvh::node_update_visibility_grids] is not
    among the sources; the node is fully hidden when all its elements are. *)
Definition node_update_visibility_grids (gh : list (list bool)) (node : PBVHNode)
    : PBVHNode :=
  fully_hidden_set node
    (forallb (fun g => forallb id (grid_bits gh g)) (node_grid_indices node)).

(** [for i: grid_hidden[grids[i]].copy_from(new_hide[i])]. *)
Fixpoint write_back_grids (grids : list nat) (new_hide : list (list bool))
    (gh : list (list bool)) : list (list bool) :=
  match grids, new_hide with
  | g :: grids', nh :: new_hide' => write_back_grids grids' new_hide' (<[g := nh]> gh)
  | _, _ => gh
  end.

(** [std::all_of(..., bits::spans_equal(grid_hidden[grids[i]], new_hide[i]))]. *)
Fixpoint grids_equal (gh : list (list bool)) (grids : list nat)
    (new_hide : list (list bool)) : bool :=
  match grids, new_hide with
  | g :: grids', nh :: new_hide' =>
      bool_decide (grid_bits gh g = nh) && grids_equal gh grids' new_hide'
  | _, _ => true
  end.

Fixpoint grid_hide_update_loop (calc_hide : nat -> list bool -> list bool) (i : nat)
    (nodes : list PBVHNode) (gh : list (list bool)) (undo : list UndoStep)
    (any_changed : bool) : list (list bool) * list PBVHNode * list UndoStep * bool :=
  match nodes with
  | [] => (gh, [], undo, any_changed)
  | node :: rest =>
      let grids := node_grid_indices node in
      let new_hide := map (fun g => calc_hide g (grid_bits gh g)) grids in
      if grids_equal gh grids new_hide then
        let '(gh', rest', undo', changed') :=
          grid_hide_update_loop calc_hide (S i) rest gh undo any_changed in
        (gh', node :: rest', undo', changed')
      else
        let gh1 := write_back_grids grids new_hide gh in
        let node' := node_update_visibility_grids gh1 (mark_update_visibility node) in
        let '(gh', rest', undo', changed') :=
          grid_hide_update_loop calc_hide (S i) rest gh1 (undo ++ [(i, HideVert)]) true in
        (gh', node' :: rest', undo', changed')
  end.

Definition grid_hide_update (ob : GridObject) (calc_hide : nat -> list bool -> list bool)
    : GridObject :=
  let ccg := go_ccg ob in
  let '(gh, nodes', undo, any_changed) :=
    grid_hide_update_loop calc_hide 0 (go_nodes ob) (grid_hidden_ensure ccg) (go_undo ob)
      false in
  mkGridObject (set_grid_hidden ccg gh) nodes' undo
    (if any_changed
     then go_calls ob ++ [MultiresMarkAsModified; SyncVisibilityFromVerts]
     else go_calls ob).

Fixpoint grids_show_all_loop (gh : list (list bool)) (i : nat) (nodes : list PBVHNode)
    (undo : list UndoStep) (any_changed : bool)
    : list PBVHNode * list UndoStep * bool :=
  match nodes with
  | [] => ([], undo, any_changed)
  | node :: rest =>
      if existsb (fun g => existsb id (grid_bits gh g)) (node_grid_indices node) then
        let '(rest', undo', changed') :=
          grids_show_all_loop gh (S i) rest (undo ++ [(i, HideVert)]) true in
        (mark_rebuild_draw node :: rest', undo', changed')
      else
        let '(rest', undo', changed') := grids_show_all_loop gh (S i) rest undo any_changed in
        (node :: rest', undo', changed')
  end.

Definition grids_show_all (ob : GridObject) : GridObject :=
  let ccg := go_ccg ob in
  let '(nodes1, undo, any_changed) :=
    match grid_hidden ccg with
    | [] => (go_nodes ob, go_undo ob, false)
    | gh => grids_show_all_loop gh 0 (go_nodes ob) (go_undo ob) false
    end in
  if negb any_changed then ob
  else
    mkGridObject (grid_hidden_free ccg)
      (map (fun node => fully_hidden_set node false) nodes1) undo
      (go_calls ob ++ [SyncVisibilityFromVerts; MultiresMarkAsModified]).

Definition partialvis_all_update_grids (ob : GridObject) (action : VisAction) : GridObject :=
  match action with
  | Hide => grid_hide_update ob (fun _ hide => fill true hide)
  | Show => grids_show_all ob
  end.

(** The callback of the masked update: every element of the grid whose mask
    exceeds one half gets [value]. *)
Definition calc_hide_grid_where (test : nat -> nat -> bool) (gs : nat) (value : bool)
    (grid : nat) (hide : list bool) : list bool :=
  foldl (fun hide y =>
           foldl (fun hide x =>
                    if test grid (y * gs + x) then <[y * gs + x := value]> hide else hide)
                 hide (seq 0 gs))
        hide (seq 0 gs).

Definition grid_mask_above_half (ccg : SubdivCCG) (grid elem : nat) : bool :=
  mask_above_half (default [] (grid_mask ccg !! grid)) elem.

Definition partialvis_masked_update_grids (ob : GridObject) (action : VisAction)
    : GridObject :=
  let ccg := go_ccg ob in
  let value := action_to_hide action in
  if negb (has_mask ccg) then grid_hide_update ob (fun _ hide => fill value hide)
  else
    grid_hide_update ob
      (calc_hide_grid_where (grid_mask_above_half ccg) (grid_size ccg) value).

(** [is_affected grid elem] stands for [gesture::is_affected] at the element's
    position and normal. *)
Definition partialvis_gesture_update_grids (is_affected : nat -> nat -> bool)
    (ob : GridObject) (action : VisAction) : GridObject :=
  grid_hide_update ob
    (calc_hide_grid_where is_affected (grid_size (go_ccg ob)) (action_to_hide action)).

(** *** Grow and shrink on grids *)

Record DualBitBuffer := mkDualBitBuffer {
  bit_front : list (list bool);
  bit_back : list (list bool)
}.

Definition bit_write_buffer (b : DualBitBuffer) (count : Z) : list (list bool) :=
  if is_even_count count then bit_back b else bit_front b.

Definition bit_read_buffer (b : DualBitBuffer) (count : Z) : list (list bool) :=
  if is_even_count count then bit_front b else bit_back b.

Definition set_bit_write_buffer (b : DualBitBuffer) (count : Z) (w : list (list bool))
    : DualBitBuffer :=
  if is_even_count count then mkDualBitBuffer (bit_front b) w
  else mkDualBitBuffer w (bit_back b).

(** [buffer[grid][elem].set(value)]. *)
Definition set_bit (buffer : list (list bool)) (grid elem : nat) (value : bool)
    : list (list bool) :=
  <[grid := <[elem := value]> (grid_bits buffer grid)]> buffer.

(** The body of the [x] loop: [neighbor_coords] stands for
    [BKE_subdiv_ccg_neighbor_coords_get] with duplicates included. *)
Definition grow_shrink_grid_elem (neighbor_coords : SubdivCCGCoord -> list SubdivCCGCoord)
    (gs : nat) (desired_state : bool) (rd : list (list bool)) (grid : nat) (y : nat)
    (wr : list (list bool)) (x : nat) : list (list bool) :=
  let grid_elem_idx := CCG_grid_xy_to_index gs x y in
  if negb (Bool.eqb (span_get (grid_bits rd grid) grid_elem_idx) desired_state) then wr
  else
    foldl (fun wr neighbor =>
             set_bit wr (grid_index neighbor)
               (CCG_grid_xy_to_index gs (coord_x neighbor) (coord_y neighbor))
               desired_state)
          wr (neighbor_coords (mkCoord grid x y)).

Definition grow_shrink_grid_node (neighbor_coords : SubdivCCGCoord -> list SubdivCCGCoord)
    (gs : nat) (desired_state : bool) (rd : list (list bool)) (node : PBVHNode)
    (wr : list (list bool)) : list (list bool) :=
  foldl (fun wr grid =>
           foldl (fun wr y =>
                    foldl (grow_shrink_grid_elem neighbor_coords gs desired_state rd grid y)
                          wr (seq 0 gs))
                 wr (seq 0 gs))
        wr (node_grid_indices node).

(** One iteration over the node span; every visited node is recorded in
    [node_changed]. *)
Fixpoint grow_shrink_grid_nodes (neighbor_coords : SubdivCCGCoord -> list SubdivCCGCoord)
    (gs : nat) (desired_state : bool) (rd : list (list bool)) (node_index : nat)
    (nodes : list PBVHNode) (wr : list (list bool)) (node_changed : list bool)
    : list (list bool) * list bool :=
  match nodes with
  | [] => (wr, node_changed)
  | node :: rest =>
      grow_shrink_grid_nodes neighbor_coords gs desired_state rd (S node_index) rest
        (grow_shrink_grid_node neighbor_coords gs desired_state rd node wr)
        (<[node_index := true]> node_changed)
  end.

Fixpoint grow_shrink_grid_from (neighbor_coords : SubdivCCGCoord -> list SubdivCCGCoord)
    (gs : nat) (desired_state : bool) (nodes : list PBVHNode) (remaining : nat) (i : nat)
    (st : DualBitBuffer * list bool) : DualBitBuffer * list bool :=
  match remaining with
  | 0 => st
  | S remaining' =>
      let '(buffers, node_changed) := st in
      let rd := bit_read_buffer buffers (Z.of_nat i) in
      let wr := bit_write_buffer buffers (Z.of_nat i) in
      let '(wr', node_changed') :=
        grow_shrink_grid_nodes neighbor_coords gs desired_state rd 0 nodes wr node_changed in
      grow_shrink_grid_from neighbor_coords gs desired_state nodes remaining' (S i)
        (set_bit_write_buffer buffers (Z.of_nat i) wr', node_changed')
  end.

(** [IndexMask::from_bools(node_changed)] followed by the push of each index. *)
Fixpoint push_changed_from (i : nat) (node_changed : list bool) (undo : list UndoStep)
    : list UndoStep :=
  match node_changed with
  | [] => undo
  | b :: rest => push_changed_from (S i) rest (if b then undo ++ [(i, HideVert)] else undo)
  end.

Fixpoint update_changed_nodes (gh : list (list bool)) (nodes : list PBVHNode)
    (node_changed : list bool) : list PBVHNode :=
  match nodes, node_changed with
  | node :: nodes', b :: changed' =>
      (if b then node_update_visibility_grids gh (mark_update_visibility node) else node)
      :: update_changed_nodes gh nodes' changed'
  | _, _ => nodes
  end.

Definition grow_shrink_visibility_grid
    (neighbor_coords : SubdivCCGCoord -> list SubdivCCGCoord) (ob : GridObject)
    (action : VisAction) (iterations : nat) : GridObject :=
  let ccg := go_ccg ob in
  let gh := grid_hidden_ensure ccg in
  let desired_state := action_to_hide action in
  let buffers := mkDualBitBuffer gh gh in
  let node_changed := replicate (length (go_nodes ob)) false in
  let '(buffers1, node_changed1) :=
    grow_shrink_grid_from neighbor_coords (grid_size ccg) desired_state (go_nodes ob)
      iterations 0 (buffers, node_changed) in
  let undo := push_changed_from 0 node_changed1 (go_undo ob) in
  let last_buffer := bit_write_buffer buffers1 (Z.of_nat iterations - 1) in
  mkGridObject (set_grid_hidden ccg last_buffer)
    (update_changed_nodes last_buffer (go_nodes ob) node_changed1) undo
    (go_calls ob ++ [MultiresMarkAsModified; SyncVisibilityFromVerts]).

(** ** Dynamic topology *)

(** The [BM_ELEM_HIDDEN] flag of every vertex and face, and the vertex mask
    layer. *)
Record BMesh := mkBMesh {
  vert_hidden : list bool;
  face_hidden : list bool;
  vert_mask : list Q
}.

Record BMObject := mkBMObject {
  bo_bm : BMesh;
  bo_nodes : list PBVHNode;
  bo_undo : list UndoStep
}.

Definition partialvis_update_bmesh_verts (verts : list nat) (action : VisAction)
    (should_update : nat -> bool) (st : list bool * bool * bool) : list bool * bool * bool :=
  foldl (fun '(vh, any_changed, any_visible) v =>
           let '(vh1, any_changed1) :=
             if should_update v then
               (match action with
                | Hide => <[v := true]> vh
                | Show => <[v := false]> vh
                end, true)
             else (vh, any_changed) in
           (vh1, any_changed1, if negb (span_get vh1 v) then true else any_visible))
        st verts.

(** [paint_is_bmesh_face_hidden] is defined elsewhere: it is a parameter
    that reads the vertex flags. *)
Definition partialvis_update_bmesh_faces (paint_is_bmesh_face_hidden : list bool -> nat -> bool)
    (vh : list bool) (fcs : list nat) (fh : list bool) : list bool :=
  foldl (fun fh f => <[f := paint_is_bmesh_face_hidden vh f]> fh) fh fcs.

Fixpoint partialvis_update_bmesh_nodes_from
    (paint_is_bmesh_face_hidden : list bool -> nat -> bool) (action : VisAction)
    (vert_test_fn : nat -> bool) (i : nat) (nodes : list PBVHNode) (bm : BMesh)
    (undo : list UndoStep) : BMesh * list PBVHNode * list UndoStep :=
  match nodes with
  | [] => (bm, [], undo)
  | node :: rest =>
      let undo1 := undo ++ [(i, HideVert)] in
      let st1 :=
        partialvis_update_bmesh_verts (bm_unique_verts node) action vert_test_fn
          (vert_hidden bm, false, false) in
      let '(vh, any_changed, any_visible) :=
        partialvis_update_bmesh_verts (bm_other_verts node) action vert_test_fn st1 in
      let fh :=
        partialvis_update_bmesh_faces paint_is_bmesh_face_hidden vh (bm_faces node)
          (face_hidden bm) in
      let node' :=
        if any_changed then fully_hidden_set (mark_rebuild_draw node) (negb any_visible)
        else node in
      let '(bm', rest', undo') :=
        partialvis_update_bmesh_nodes_from paint_is_bmesh_face_hidden action vert_test_fn
          (S i) rest (mkBMesh vh fh (vert_mask bm)) undo1 in
      (bm', node' :: rest', undo')
  end.

Definition partialvis_update_bmesh_nodes
    (paint_is_bmesh_face_hidden : list bool -> nat -> bool) (ob : BMObject)
    (action : VisAction) (vert_test_fn : nat -> bool) : BMObject :=
  let '(bm, nodes', undo) :=
    partialvis_update_bmesh_nodes_from paint_is_bmesh_face_hidden action vert_test_fn 0
      (bo_nodes ob) (bo_bm ob) (bo_undo ob) in
  mkBMObject bm nodes' undo.

Definition partialvis_all_update_bmesh
    (paint_is_bmesh_face_hidden : list bool -> nat -> bool) (ob : BMObject)
    (action : VisAction) : BMObject :=
  partialvis_update_bmesh_nodes paint_is_bmesh_face_hidden ob action (fun _ => true).

Definition partialvis_masked_update_bmesh
    (paint_is_bmesh_face_hidden : list bool -> nat -> bool) (ob : BMObject)
    (action : VisAction) : BMObject :=
  partialvis_update_bmesh_nodes paint_is_bmesh_face_hidden ob action
    (mask_above_half (vert_mask (bo_bm ob))).

Definition partialvis_gesture_update_bmesh
    (paint_is_bmesh_face_hidden : list bool -> nat -> bool) (is_affected : nat -> bool)
    (ob : BMObject) (action : VisAction) : BMObject :=
  partialvis_update_bmesh_nodes paint_is_bmesh_face_hidden ob action is_affected.

(** ** Operators: dispatch on the PBVH type *)

Inductive SculptObject :=
  | PBVH_FACES (ob : MeshObject)
  | PBVH_GRIDS (ob : GridObject)
  | PBVH_BMESH (ob : BMObject).

Definition sculpt_undo (s : SculptObject) : list UndoStep :=
  match s with
  | PBVH_FACES ob => mo_undo ob
  | PBVH_GRIDS ob => go_undo ob
  | PBVH_BMESH ob => bo_undo ob
  end.

Definition hide_show_all_exec (paint_is_bmesh_face_hidden : list bool -> nat -> bool)
    (s : SculptObject) (action : VisAction) : SculptObject :=
  match s with
  | PBVH_FACES ob => PBVH_FACES (partialvis_all_update_mesh ob action)
  | PBVH_GRIDS ob => PBVH_GRIDS (partialvis_all_update_grids ob action)
  | PBVH_BMESH ob => PBVH_BMESH (partialvis_all_update_bmesh paint_is_bmesh_face_hidden ob action)
  end.

Definition hide_show_masked_exec (paint_is_bmesh_face_hidden : list bool -> nat -> bool)
    (s : SculptObject) (action : VisAction) : SculptObject :=
  match s with
  | PBVH_FACES ob => PBVH_FACES (partialvis_masked_update_mesh ob action)
  | PBVH_GRIDS ob => PBVH_GRIDS (partialvis_masked_update_grids ob action)
  | PBVH_BMESH ob =>
      PBVH_BMESH (partialvis_masked_update_bmesh paint_is_bmesh_face_hidden ob action)
  end.

(** The gesture operators apply one predicate-driven update per symmetry
    pass; [affected_vert] and [affected_elem] stand for
    [gesture::is_affected] on a vertex and on a grid element. *)
Definition hide_show_apply_for_symmetry_pass
    (paint_is_bmesh_face_hidden : list bool -> nat -> bool) (affected_vert : nat -> bool)
    (affected_elem : nat -> nat -> bool) (s : SculptObject) (action : VisAction)
    : SculptObject :=
  match s with
  | PBVH_FACES ob => PBVH_FACES (partialvis_gesture_update_mesh affected_vert ob action)
  | PBVH_GRIDS ob => PBVH_GRIDS (partialvis_gesture_update_grids affected_elem ob action)
  | PBVH_BMESH ob =>
      PBVH_BMESH
        (partialvis_gesture_update_bmesh paint_is_bmesh_face_hidden affected_vert ob action)
  end.

(** ** The filter operator's action items and concrete objects *)

(** [PAINT_OT_visibility_filter]: the item "GROW" (grow visibility) is
    [VisAction::Show], the item "SHRINK" is [VisAction::Hide]. *)
Definition GROW : VisAction := Show.
Definition SHRINK : VisAction := Hide.

(** A node of a polygon-mesh PBVH with clean flags. *)
Definition mesh_node (unique_verts verts face_indices : list nat) : PBVHNode :=
  mkNode unique_verts verts face_indices [] [] [] [] false false false.

Definition grid_node (grid_indices : list nat) : PBVHNode :=
  mkNode [] [] [] grid_indices [] [] [] false false false.

Definition bmesh_node (unique_verts other_verts fcs : list nat) : PBVHNode :=
  mkNode [] [] [] [] unique_verts other_verts fcs false false false.

(** One quad whose vertex 0 is hidden. *)
Definition quad_mesh : Mesh :=
  mkMesh 4 [(0, 1); (1, 2); (2, 3); (3, 0)] [mkRange 0 4] [0; 1; 2; 3]
    (Some [true; false; false; false]) (Some [true; false; false; true]) (Some [true]) None.

Definition quad_object : MeshObject :=
  mkMeshObject quad_mesh [mesh_node [0; 1; 2; 3] [0; 1; 2; 3] [0]] [].

(** The hidden-vertex set of [a] is included in that of [b]. *)
Definition hidden_subset (a b : list bool) : Prop :=
  forall v, span_get a v = true -> span_get b v = true.

(** The face filter of one propagation pass as the specification words it:
    a face is processed when its hidden flag equals the action's value. *)
Definition propagate_faces_as_stated (action : VisAction) (fs : list IndexRange)
    (cv : list nat) (hp : list bool) (rd : list bool) (wr : list bool) : list bool :=
  foldl (fun wr face_index =>
           if negb (Bool.eqb (span_get hp face_index) (action_to_hide action)) then wr
           else affect_visibility_mesh (action_to_hide action) (face_range fs face_index)
                  cv rd wr)
        wr (seq 0 (length fs)).

(** Vertex [v] is the predecessor or the successor, in the corner loop of
    [face], of a corner whose vertex reads [value]. *)
Definition next_to_value (value : bool) (face : IndexRange) (cv : list nat)
    (rd : list bool) (v : nat) : bool :=
  existsb (fun corner =>
             Bool.eqb (span_get rd (corner_vert cv corner)) value &&
             (Nat.eqb v (corner_vert cv (face_corner_prev face corner)) ||
              Nat.eqb v (corner_vert cv (face_corner_next face corner))))
          (seq (range_start face) (range_size face)).

(** Two triangles A (vertices 0, 1, 2) and B (vertices 2, 1, 3) sharing the
    edge 1-2; A is hidden through its vertex 0, B is visible. *)
Definition two_face_mesh : Mesh :=
  mkMesh 4 [(0, 1); (1, 2); (2, 0); (1, 3); (3, 2)] [mkRange 0 3; mkRange 3 3]
    [0; 1; 2; 2; 1; 3] (Some [true; false; false; false])
    (Some [true; false; true; false; false]) (Some [true; false]) None.

Definition two_face_object : MeshObject :=
  mkMeshObject two_face_mesh [mesh_node [0; 1; 2; 3] [0; 1; 2; 3] [0; 1]] [].

(** One grid of two by two elements with one hidden element. *)
Definition one_grid_object : GridObject :=
  mkGridObject (mkSubdivCCG 1 2 [[true; false; false; false]] false [])
    [grid_node [0]] [] [].

(** A dynamic-topology object with one node of three vertices, the first of
    them hidden, no faces and a zero mask. *)
Definition bm_object : BMObject :=
  mkBMObject (mkBMesh [true; false; false] [] [0%Q; 0%Q; 0%Q]) [bmesh_node [0; 1; 2] [] []] [].

(** The mask is zero everywhere. *)
Definition mask_all_zero (mask : list Q) : Prop := Forall (fun q => (q == 0)%Q) mask.

(** One [HideVert] push for every node of a span of [n] nodes, in order. *)
Definition push_every_node (n : nat) : list UndoStep :=
  map (fun i => (i, HideVert)) (seq 0 n).

(** The quad with a stored mask that is zero everywhere, and one grid with a
    zero mask and nothing hidden. *)
Definition masked_quad_object : MeshObject :=
  mkMeshObject
    (mkMesh 4 [(0, 1); (1, 2); (2, 3); (3, 0)] [mkRange 0 4] [0; 1; 2; 3]
       (Some [true; false; false; false]) (Some [true; false; false; true]) (Some [true])
       (Some [0%Q; 0%Q; 0%Q; 0%Q]))
    [mesh_node [0; 1; 2; 3] [0; 1; 2; 3] [0]] [].

Definition visible_grid_object : GridObject :=
  mkGridObject (mkSubdivCCG 1 2 [[false; false; false; false]] true [[0%Q; 0%Q; 0%Q; 0%Q]])
    [grid_node [0]] [] [].

(** Every index that [sel] lists for a node of the span is below [n]. *)
Definition nodes_in_range (sel : PBVHNode -> list nat) (n : nat) (nodes : list PBVHNode)
    : Prop :=
  Forall (fun node => Forall (fun k => k < n) (sel node)) nodes.

(** ** Core operations on the polygon mesh and the consistency of its flags *)

(** The polygon-mesh branch of the five operators of this file. *)
Inductive MeshOp :=
  | OpHideShowAll (action : VisAction)
  | OpHideShowMasked (action : VisAction)
  | OpHideShowGesture (is_affected : nat -> bool) (action : VisAction)
  | OpVisibilityFilter (action : VisAction) (iterations : nat)
  | OpVisibilityInvert.

Definition apply_mesh_op (op : MeshOp) (ob : MeshObject) : MeshObject :=
  match op with
  | OpHideShowAll action => partialvis_all_update_mesh ob action
  | OpHideShowMasked action => partialvis_masked_update_mesh ob action
  | OpHideShowGesture is_affected action => partialvis_gesture_update_mesh is_affected ob action
  | OpVisibilityFilter action iterations => grow_shrink_visibility_mesh ob action iterations
  | OpVisibilityInvert => invert_visibility_mesh ob
  end.

(** Every face flag is the OR of the flags of the face's corner vertices, and
    every edge flag is the OR of the flags of its two endpoints. *)
Definition faces_consistent (m : Mesh) : Prop :=
  forall f, f < length (faces m) ->
    span_get (hide_poly_span m) f
    = face_any_hidden (faces m) (corner_verts m) (hide_vert_span m) f.

Definition edges_consistent (m : Mesh) : Prop :=
  forall e a b, edges m !! e = Some (a, b) ->
    span_get (hide_edge_span m) e
    = span_get (hide_vert_span m) a || span_get (hide_vert_span m) b.

Definition mesh_consistent (m : Mesh) : Prop := faces_consistent m /\ edges_consistent m.

(** A strip of three triangles A (0, 1, 2), B (1, 2, 3) and C (2, 3, 4): every
    vertex of B also belongs to A or to C.  A and C are hidden through the
    vertices 0 and 4, B is visible. *)
Definition strip_mesh : Mesh :=
  mkMesh 5 [(0, 1); (1, 2); (2, 0); (2, 3); (3, 1); (3, 4); (4, 2)]
    [mkRange 0 3; mkRange 3 3; mkRange 6 3] [0; 1; 2; 1; 2; 3; 2; 3; 4]
    (Some [true; false; false; false; true])
    (Some [true; false; true; false; false; true; true])
    (Some [true; false; true]) None.

Definition strip_object : MeshObject :=
  mkMeshObject strip_mesh [mesh_node [0; 1; 2; 3; 4] [0; 1; 2; 3; 4] [0; 1; 2]] [].

(** ** Further operations: invert on grids and dynamic topology, the
    dynamic-topology filter, and the flush from faces *)

(** [bits::invert(grid_hidden[i])] for every grid of the node. *)
Definition invert_grids (grids : list nat) (gh : list (list bool)) : list (list bool) :=
  foldl (fun gh g => <[g := map negb (grid_bits gh g)]> gh) gh grids.

Fixpoint invert_visibility_grids_loop (i : nat) (nodes : list PBVHNode)
    (gh : list (list bool)) (undo : list UndoStep)
    : list (list bool) * list PBVHNode * list UndoStep :=
  match nodes with
  | [] => (gh, [], undo)
  | node :: rest =>
      let gh1 := invert_grids (node_grid_indices node) gh in
      let node' := node_update_visibility_grids gh1 (mark_update_visibility node) in
      let '(gh', rest', undo') :=
        invert_visibility_grids_loop (S i) rest gh1 (undo ++ [(i, HideVert)]) in
      (gh', node' :: rest', undo')
  end.

Definition invert_visibility_grids (ob : GridObject) : GridObject :=
  let ccg := go_ccg ob in
  let '(gh, nodes', undo) :=
    invert_visibility_grids_loop 0 (go_nodes ob) (grid_hidden_ensure ccg) (go_undo ob) in
  mkGridObject (set_grid_hidden ccg gh) nodes' undo
    (go_calls ob ++ [MultiresMarkAsModified; SyncVisibilityFromVerts]).

(** The vertex loop of [invert_visibility_bmesh]: toggle the flag, then fold
    the toggled flag into [fully_hidden]. *)
Definition invert_bmesh_verts (verts : list nat) (st : list bool * bool) : list bool * bool :=
  foldl (fun '(vh, fully) v =>
           let vh1 := <[v := negb (span_get vh v)]> vh in
           (vh1, fully && span_get vh1 v))
        st verts.

Fixpoint invert_visibility_bmesh_loop (i : nat) (nodes : list PBVHNode) (vh : list bool)
    (undo : list UndoStep) : list bool * list PBVHNode * list UndoStep :=
  match nodes with
  | [] => (vh, [], undo)
  | node :: rest =>
      let '(vh1, fully) := invert_bmesh_verts (bm_unique_verts node) (vh, true) in
      let node' := mark_rebuild_draw (fully_hidden_set node fully) in
      let '(vh', rest', undo') :=
        invert_visibility_bmesh_loop (S i) rest vh1 (undo ++ [(i, HideVert)]) in
      (vh', node' :: rest', undo')
  end.

Definition invert_visibility_bmesh (paint_is_bmesh_face_hidden : list bool -> nat -> bool)
    (ob : BMObject) : BMObject :=
  let bm := bo_bm ob in
  let '(vh, nodes', undo) :=
    invert_visibility_bmesh_loop 0 (bo_nodes ob) (vert_hidden bm) (bo_undo ob) in
  let fh :=
    foldl (fun fh node =>
             partialvis_update_bmesh_faces paint_is_bmesh_face_hidden vh (bm_faces node) fh)
          (face_hidden bm) nodes' in
  mkBMObject (mkBMesh vh fh (vert_mask bm)) nodes' undo.

Definition visibility_invert_exec (paint_is_bmesh_face_hidden : list bool -> nat -> bool)
    (s : SculptObject) : SculptObject :=
  match s with
  | PBVH_FACES ob => PBVH_FACES (invert_visibility_mesh ob)
  | PBVH_GRIDS ob => PBVH_GRIDS (invert_visibility_grids ob)
  | PBVH_BMESH ob => PBVH_BMESH (invert_visibility_bmesh paint_is_bmesh_face_hidden ob)
  end.

(** [duplicate_visibility_bmesh]: a copy of the hidden flag of every vertex,
    by vertex index. *)
Definition duplicate_visibility_bmesh (ob : BMObject) : list bool := vert_hidden (bo_bm ob).

(** The test of the dynamic-topology filter: some neighbour of the vertex is
    at the target value in the snapshot.  [vert_neighbors] stands for
    [vert_neighbors_get_bmesh]. *)
Definition neighbor_at_target (vert_neighbors : nat -> list nat) (prev_visibility : list bool)
    (action : VisAction) (vert : nat) : bool :=
  existsb (fun neighbor => Bool.eqb (span_get prev_visibility neighbor) (action_to_hide action))
          (vert_neighbors vert).

Fixpoint grow_shrink_visibility_bmesh (paint_is_bmesh_face_hidden : list bool -> nat -> bool)
    (vert_neighbors : nat -> list nat) (ob : BMObject) (action : VisAction)
    (iterations : nat) : BMObject :=
  match iterations with
  | 0 => ob
  | S iterations' =>
      let prev_visibility := duplicate_visibility_bmesh ob in
      grow_shrink_visibility_bmesh paint_is_bmesh_face_hidden vert_neighbors
        (partialvis_update_bmesh_nodes paint_is_bmesh_face_hidden ob action
           (neighbor_at_target vert_neighbors prev_visibility action))
        action iterations'
  end.

(** [visibility_filter_exec] once the iteration count is known. *)
Definition visibility_filter_exec (paint_is_bmesh_face_hidden : list bool -> nat -> bool)
    (neighbor_coords : SubdivCCGCoord -> list SubdivCCGCoord)
    (vert_neighbors : nat -> list nat) (s : SculptObject) (action : VisAction)
    (iterations : nat) : SculptObject :=
  match s with
  | PBVH_FACES ob => PBVH_FACES (grow_shrink_visibility_mesh ob action iterations)
  | PBVH_GRIDS ob =>
      PBVH_GRIDS (grow_shrink_visibility_grid neighbor_coords ob action iterations)
  | PBVH_BMESH ob =>
      PBVH_BMESH
        (grow_shrink_visibility_bmesh paint_is_bmesh_face_hidden vert_neighbors ob action
           iterations)
  end.

(** The [BM_ELEM_HIDDEN] flags of the vertices, edges and faces of a
    dynamic-topology mesh. *)
Record BMFlags := mkBMFlags {
  bmf_vert : list bool;
  bmf_edge : list bool;
  bmf_face : list bool
}.

(** One walk around the loops of a face, each loop given by its vertex and
    its edge: both get the flag [b]. *)
Definition set_loops (b : bool) (loops : list (nat * nat)) (fl : BMFlags) : BMFlags :=
  foldl (fun fl l =>
           mkBMFlags (<[l.1 := b]> (bmf_vert fl)) (<[l.2 := b]> (bmf_edge fl)) (bmf_face fl))
        fl loops.

(** The dynamic-topology branch of [sync_all_from_faces]; [face_loops] lists
    the loops of every face, in face order. *)
Definition sync_all_from_faces_bmesh (face_loops : list (list (nat * nat))) (fl : BMFlags)
    : BMFlags :=
  let fl1 := foldl (fun fl loops => set_loops true loops fl) fl face_loops in
  foldl (fun fl '(f, loops) =>
           if span_get (bmf_face fl) f then fl else set_loops false loops fl)
        fl1 (imap (fun f loops => (f, loops)) face_loops).

(** Replace the element at every listed index by its image under [phi],
    in list order: the shape of the toggle loops of the three invert
    functions. *)
Definition flip_all {A : Type} (d : A) (phi : A -> A) (indices : list nat) (l : list A)
    : list A :=
  foldl (fun l i => <[i := phi (default d (l !! i))]> l) l indices.

(** Index [k] is, under the projection [sel] of a loop (its vertex or its
    edge), an element of some face, or of some face whose hidden flag is not
    set. *)
Definition some_face_has (sel : nat * nat -> nat) (face_loops : list (list (nat * nat)))
    (k : nat) : bool :=
  existsb (fun loops => bool_decide (k ∈ map sel loops)) face_loops.

Definition visible_face_has (sel : nat * nat -> nat) (face_flags : list bool)
    (face_loops : list (list (nat * nat))) (k : nat) : bool :=
  existsb (fun p : nat * list (nat * nat) =>
             negb (span_get face_flags p.1) && bool_decide (k ∈ map sel p.2))
          (imap (fun f loops => (f, loops)) face_loops).

(** What holds before every iteration [i] of the Hide filter on a polygon
    mesh with faces [fs] and corners [cv]: the buffer about to be overwritten
    is included in the one about to be read, and that one is included in what
    the iteration is going to write. *)
Definition hide_iteration_ok (stored : bool) (fs : list IndexRange) (cv : list nat)
    (i : nat) (st : Mesh * DualBuffer) : Prop :=
  let rd := read_buffer st.2 (Z.of_nat i) in
  let wr := write_buffer st.2 (Z.of_nat i) in
  faces st.1 = fs /\ corner_verts st.1 = cv /\
  length rd = length wr /\
  hidden_subset wr rd /\
  hidden_subset rd (propagate_faces Hide fs cv (hide_poly_view stored st.1) rd wr).

(** Two bit structures of the same shape, the second having the value [d]
    wherever the first has it. *)
Definition bits_le (d : bool) (a b : list (list bool)) : Prop :=
  length a = length b /\
  (forall g, length (grid_bits a g) = length (grid_bits b g)) /\
  forall g e, span_get (grid_bits a g) e = d -> span_get (grid_bits b g) e = d.

(** ** Spans that cover part of the mesh *)

(** The operations that recompute the face flags node by node, through
    [vert_hide_update] and [flush_face_changes_node]; show-all and the filter
    recompute them over the whole mesh. *)
Definition flushes_node_faces (op : MeshOp) : bool :=
  match op with
  | OpHideShowAll Hide | OpHideShowMasked _ | OpHideShowGesture _ _ => true
  | _ => false
  end.

(** Every face with a corner vertex whose hidden flag differs between [m] and
    [m'] is in the face list of a node of the span. *)
Definition changed_faces_in_span (m m' : Mesh) (nodes : list PBVHNode) : Prop :=
  forall f v, f < length (faces m) ->
    v ∈ slice (corner_verts m) (face_range (faces m) f) ->
    span_get (hide_vert_span m') v <> span_get (hide_vert_span m) v ->
    f ∈ concat (map node_face_indices nodes).

(** The two triangles with a span that holds the node of the face A only: the
    node owns the vertices 0, 1 and 2, and the face B (2, 1, 3) belongs to a
    node that is not in the span. *)
Definition two_face_partial_object : MeshObject :=
  mkMeshObject two_face_mesh [mesh_node [0; 1; 2] [0; 1; 2] [0]] [].

(** Two nodes list the same elements: only the fully-hidden cache and the
    dirty tags may differ. *)
Definition node_same_elements (node node' : PBVHNode) : Prop :=
  node_unique_verts node' = node_unique_verts node /\
  node_verts node' = node_verts node /\
  node_face_indices node' = node_face_indices node /\
  node_grid_indices node' = node_grid_indices node /\
  bm_unique_verts node' = bm_unique_verts node /\
  bm_other_verts node' = bm_other_verts node /\
  bm_faces node' = bm_faces node.

(** A dynamic-topology object with two nodes: the first owns the vertices 0
    and 1 and shares the vertex 2, which the second owns; only the vertex 2
    is hidden. *)
Definition bm_split_object : BMObject :=
  mkBMObject (mkBMesh [false; false; true] [] [0%Q; 0%Q; 0%Q])
    [bmesh_node [0; 1] [2] []; bmesh_node [2] [0; 1] []] [].

(** ** Theorems *)

(** *** Spans and folds *)

Lemma span_get_insert (l : list bool) (i k : nat) (b : bool) :
  span_get (<[i := b]> l) k = if decide (k = i /\ i < length l) then b else span_get l k.
Proof.
  unfold span_get. case_decide as H.
  - destruct H as [-> H]. by rewrite list_lookup_insert_eq.
  - destruct (decide (k = i)) as [->|Hne].
    + rewrite list_insert_ge; [done | lia].
    + by rewrite list_lookup_insert_ne.
Qed.

Lemma span_get_ge (l : list bool) (k : nat) : length l <= k -> span_get l k = false.
Proof. intros H. unfold span_get. by rewrite lookup_ge_None_2. Qed.

Lemma span_get_insert_keeps (l : list bool) (i v : nat) (b : bool) :
  span_get l v = b -> span_get (<[i := b]> l) v = b.
Proof. intros H. rewrite span_get_insert. by case_decide. Qed.

Lemma span_ext (a b : list bool) :
  length a = length b -> (forall k, span_get a k = span_get b k) -> a = b.
Proof.
  intros Hlen H. apply list_eq. intros k. specialize (H k). unfold span_get in H.
  destruct (a !! k) as [x|] eqn:Ea; destruct (b !! k) as [y|] eqn:Eb; simpl in H.
  - by subst.
  - apply lookup_lt_Some in Ea. apply lookup_ge_None in Eb. lia.
  - apply lookup_lt_Some in Eb. apply lookup_ge_None in Ea. lia.
  - done.
Qed.

Lemma foldl_same {A B : Type} (f : A -> B -> A) (l : list B) (a : A) :
  (forall a x, f a x = a) -> foldl f a l = a.
Proof. intros Hf. induction l as [|x l IH]; simpl; [done | by rewrite Hf]. Qed.

Lemma calc_hide_grid_where_no_match test gs value grid hide :
  (forall elem, test grid elem = false) ->
  calc_hide_grid_where test gs value grid hide = hide.
Proof.
  intros Ht. unfold calc_hide_grid_where.
  apply foldl_same. intros a y. apply foldl_same. intros b x. by rewrite Ht.
Qed.

Lemma foldl_map {A B C : Type} (f : A -> B -> A) (g : C -> B) (l : list C) (a : A) :
  foldl f a (map g l) = foldl (fun a x => f a (g x)) a l.
Proof. revert a. induction l as [|x l IH]; intros a; simpl; [done | by rewrite IH]. Qed.

Lemma calc_hide_grid_where_flat test gs value grid hide :
  calc_hide_grid_where test gs value grid hide =
    foldl (fun (l : list bool) elem => if test grid elem then <[elem := value]> l else l) hide
      (concat (map (fun y => map (fun x => y * gs + x) (seq 0 gs)) (seq 0 gs))).
Proof.
  unfold calc_hide_grid_where.
  generalize (seq 0 gs) at 2 4. intros ys. revert hide.
  induction ys as [|y ys IH]; intros hide; [done|].
  cbn [foldl map concat]. rewrite foldl_app, foldl_map. apply IH.
Qed.

Lemma foldl_set_length (test : nat -> bool) (b : bool) indices : forall l,
  length (foldl (fun l v => if test v then <[v := b]> l else l) l indices) = length l.
Proof.
  induction indices as [|i rest IH]; intros l; [done|].
  simpl. rewrite IH. destruct (test i); by rewrite ?length_insert.
Qed.

Lemma foldl_set_get (test : nat -> bool) (b : bool) indices : forall l k,
  span_get (foldl (fun l v => if test v then <[v := b]> l else l) l indices) k =
    if decide ((k ∈ indices /\ test k = true) /\ k < length l) then b else span_get l k.
Proof.
  induction indices as [|i rest IH]; intros l k.
  - cbn [foldl].
    destruct (decide ((k ∈ [] /\ test k = true) /\ k < length l)) as [[[H _] _]|H]; [|done].
    by apply elem_of_nil in H.
  - cbn [foldl]. rewrite IH.
    assert (Hlen : length (if test i then <[i := b]> l else l) = length l)
      by (destruct (test i); by rewrite ?length_insert).
    rewrite Hlen.
    assert (Hget : span_get (if test i then <[i := b]> l else l) k =
                   if decide ((k = i /\ test k = true) /\ k < length l) then b
                   else span_get l k).
    { destruct (test i) eqn:Ei.
      - rewrite span_get_insert.
        destruct (decide (k = i /\ i < length l)) as [[Hk H]|H];
          destruct (decide ((k = i /\ test k = true) /\ k < length l)) as [[[H1 H2] H3]|H1];
          try done.
        + destruct H1. subst. auto.
        + destruct H. subst. auto.
      - destruct (decide ((k = i /\ test k = true) /\ k < length l)) as [[[Hk H2] H3]|H1];
          [subst; congruence | done]. }
    rewrite Hget.
    destruct (decide ((k ∈ rest /\ test k = true) /\ k < length l)) as [[[H1 H2] H3]|H1];
      destruct (decide ((k = i /\ test k = true) /\ k < length l)) as [[[H4 H5] H6]|H4];
      destruct (decide ((k ∈ i :: rest /\ test k = true) /\ k < length l))
        as [[[H7 H8] H9]|H7]; try done.
    + destruct H7. split; [split|]; [apply elem_of_cons; by right | done | done].
    + destruct H7. split; [split|]; [apply elem_of_cons; by right | done | done].
    + destruct H7. split; [split|]; [apply elem_of_cons; by left | done | done].
    + apply elem_of_cons in H7 as [->|H7]; [destruct H4 | destruct H1]; auto.
Qed.

Lemma foldl_set_twice (test : nat -> bool) (b : bool) (indices : list nat) (l : list bool) :
  let set := foldl (fun (l : list bool) v => if test v then <[v := b]> l else l) in
  set (set l indices) indices = set l indices.
Proof.
  simpl. apply span_ext.
  - by rewrite !foldl_set_length.
  - intros k. rewrite foldl_set_get, foldl_set_length.
    destruct (decide ((k ∈ indices /\ test k = true) /\ k < length l)) as [H|H]; [|done].
    rewrite foldl_set_get. by rewrite decide_True.
Qed.

(** *** Per-node callbacks and the gather / compare / scatter pattern *)

Lemma calc_hide_where_from_app test value verts : forall pre hv,
  calc_hide_where_from test value (length pre) verts (pre ++ gather hv verts) =
    pre ++ map (fun v => if test v then value else span_get hv v) verts.
Proof.
  induction verts as [|v rest IH]; intros pre hv; [done|].
  simpl.
  assert (Hstep : (if test v then <[length pre := value]> (pre ++ span_get hv v :: gather hv rest)
                   else pre ++ span_get hv v :: gather hv rest)
                  = (pre ++ [if test v then value else span_get hv v]) ++ gather hv rest).
  { rewrite <- app_assoc. simpl. destruct (test v); [|done].
    rewrite insert_app_r_alt by lia. by rewrite Nat.sub_diag. }
  rewrite Hstep.
  replace (S (length pre)) with (length (pre ++ [if test v then value else span_get hv v]))
    by (rewrite length_app; simpl; lia).
  rewrite IH. by rewrite <- app_assoc.
Qed.

Lemma calc_hide_where_gather test value verts hv :
  calc_hide_where test value verts (gather hv verts) =
    map (fun v => if test v then value else span_get hv v) verts.
Proof. exact (calc_hide_where_from_app test value verts [] hv). Qed.

Lemma indexed_data_equal_map (G : nat -> bool) all_values indices :
  indexed_data_equal all_values indices (map G indices) = true <->
  Forall (fun k => span_get all_values k = G k) indices.
Proof.
  induction indices as [|i rest IH]; simpl.
  - split; [constructor | done].
  - destruct (Bool.eqb_spec (span_get all_values i) (G i)) as [He|Hne].
    + rewrite IH. split; [by constructor | by inversion 1].
    + split; [done | inversion 1; done].
Qed.

Lemma scatter_map_length (G : nat -> bool) indices : forall dst,
  length (scatter (map G indices) indices dst) = length dst.
Proof.
  induction indices as [|i rest IH]; intros dst; [done|].
  simpl. by rewrite IH, length_insert.
Qed.

Lemma scatter_map_get (G : nat -> bool) indices : forall dst k,
  span_get (scatter (map G indices) indices dst) k =
    if decide (k ∈ indices /\ k < length dst) then G k else span_get dst k.
Proof.
  induction indices as [|i rest IH]; intros dst k.
  - simpl. destruct (decide (k ∈ [] /\ k < length dst)) as [[H _]|H]; [|done].
    by apply elem_of_nil in H.
  - simpl. rewrite IH, length_insert, span_get_insert.
    destruct (decide (k ∈ rest /\ k < length dst)) as [[H1 H2]|H1];
      destruct (decide (k = i /\ i < length dst)) as [[H3 H4]|H3];
      destruct (decide (k ∈ i :: rest /\ k < length dst)) as [[H5 H6]|H5];
      try done.
    + destruct H5. split; [by apply elem_of_cons; right | done].
    + destruct H5. split; [by apply elem_of_cons; right | done].
    + by subst.
    + destruct H5. subst. split; [by apply elem_of_cons; left | done].
    + apply elem_of_cons in H5 as [->|H5]; [destruct H3 | destruct H1]; auto.
Qed.

(** The node step shared by the vertex and the face loops: compare the
    stored values with the new ones and write them back when they differ. *)
Lemma compare_scatter_get (G : nat -> bool) indices dst k :
  span_get (if indexed_data_equal dst indices (map G indices) then dst
            else scatter (map G indices) indices dst) k =
    if decide (k ∈ indices /\ k < length dst) then G k else span_get dst k.
Proof.
  destruct (indexed_data_equal dst indices (map G indices)) eqn:E.
  - apply indexed_data_equal_map in E.
    destruct (decide (k ∈ indices /\ k < length dst)) as [[H _]|H]; [|done].
    rewrite Forall_forall in E. by apply E.
  - apply scatter_map_get.
Qed.

Lemma compare_scatter_length (G : nat -> bool) indices dst :
  length (if indexed_data_equal dst indices (map G indices) then dst
          else scatter (map G indices) indices dst) = length dst.
Proof. destruct (indexed_data_equal _ _ _); [done | apply scatter_map_length]. Qed.

(** *** The visible vertices of a node *)

Lemma copy_if_spec pred src : forall dst out,
  out + length src <= length dst ->
  let r := copy_if pred src dst out in
  r.2 = out + length (List.filter pred src) /\
  length r.1 = length dst /\
  take r.2 r.1 = take out dst ++ List.filter pred src.
Proof.
  induction src as [|x rest IH]; intros dst out Hlen; simpl in *.
  - rewrite Nat.add_0_r, app_nil_r. auto.
  - destruct (pred x) eqn:Hp; simpl.
    + destruct (IH (<[out := x]> dst) (S out)) as (H1 & H2 & H3).
      { rewrite length_insert. lia. }
      split; [lia|]. split; [by rewrite H2, length_insert|].
      rewrite H3. rewrite (take_S_r _ out x).
      * rewrite take_insert_ge by lia. by rewrite <- app_assoc.
      * apply list_lookup_insert_eq. lia.
    + apply IH. lia.
Qed.

(** C10: for a fully hidden node the result is empty whatever [hide_vert]
    holds; otherwise an empty [hide_vert] gives back all unique vertices of the
    node, and a non-empty one gives the unique vertices whose entry is false,
    in their original order.  The previous contents of the scratch vector
    play no role. *)
Theorem node_visible_verts_spec (node : PBVHNode) (hide_vert : list bool)
    (indices : list nat) :
  (node_visible_verts node hide_vert indices).1 =
    if fully_hidden node then []
    else match hide_vert with
         | [] => node_unique_verts node
         | _ => List.filter (fun vert => negb (span_get hide_vert vert))
                  (node_unique_verts node)
         end.
Proof.
  unfold node_visible_verts.
  destruct (fully_hidden node); [done|].
  destruct hide_vert as [|b hv]; [done|].
  set (p := fun vert => negb (span_get (b :: hv) vert)).
  set (verts := node_unique_verts node).
  assert (Hlen : length (resize (length verts) indices) = length verts).
  { unfold resize. rewrite length_app, length_take, length_replicate. lia. }
  pose proof (copy_if_spec p verts (resize (length verts) indices) 0) as Hc.
  destruct (copy_if p verts (resize (length verts) indices) 0) as [i2 out] eqn:E.
  simpl in Hc. destruct Hc as (H1 & H2 & H3); [lia|].
  simpl. unfold resize.
  assert (out <= length i2).
  { rewrite H1, H2, Hlen. apply filter_length_le || apply List.filter_length_le. }
  replace (out - length i2) with 0 by lia.
  simpl. by rewrite app_nil_r, H3.
Qed.

(** *** The vertex loop of the predicate-driven update *)

Lemma vert_step_eq (test : nat -> bool) (value : bool) (verts : list nat) (hv : list bool) :
  (if indexed_data_equal hv verts
        (map (fun v => if test v then value else span_get hv v) verts)
   then hv
   else scatter (map (fun v => if test v then value else span_get hv v) verts) verts hv)
  = foldl (fun (l : list bool) v => if test v then <[v := value]> l else l) hv verts.
Proof.
  apply span_ext.
  - by rewrite compare_scatter_length, foldl_set_length.
  - intros k. rewrite compare_scatter_get, foldl_set_get.
    destruct (decide (k ∈ verts /\ k < length hv)) as [[H1 H2]|H1];
      destruct (decide ((k ∈ verts /\ test k = true) /\ k < length hv)) as [[[H3 H4] H5]|H3].
    + by rewrite H4.
    + destruct (test k) eqn:E; [|done]. destruct H3. auto.
    + destruct H1. auto.
    + done.
Qed.

Lemma indexed_data_differ (G : nat -> bool) all_values indices :
  indexed_data_equal all_values indices (map G indices) = false ->
  exists k, k ∈ indices /\ span_get all_values k <> G k.
Proof.
  intros E.
  assert (H : ~ Forall (fun k => span_get all_values k = G k) indices).
  { intros HF. apply indexed_data_equal_map in HF. congruence. }
  apply not_Forall_Exists in H; [|intros k; apply _].
  apply Exists_exists in H as (k & Hk & Hne). eauto.
Qed.

Lemma vert_hide_update_loop_spec (test : nat -> bool) (value : bool) nodes :
  forall i hv undo c,
  let r := vert_hide_update_loop (calc_hide_where test value) i nodes hv undo c in
  r.1.1 = foldl (fun (l : list bool) v => if test v then <[v := value]> l else l) hv
            (concat (map node_unique_verts nodes)) /\
  exists pushes,
    r.1.2 = undo ++ pushes /\
    forall j, (j, HideVert) ∈ pushes ->
      exists node v, nodes !! (j - i) = Some node /\ i <= j /\
                     v ∈ node_unique_verts node /\ test v = true /\
                     span_get hv v <> value.
Proof.
  induction nodes as [|node rest IH]; intros i hv undo c.
  - simpl. split; [done|]. exists []. split; [by rewrite app_nil_r|].
    intros j Hj. by apply elem_of_nil in Hj.
  - cbn [vert_hide_update_loop map concat]. rewrite calc_hide_where_gather, foldl_app.
    pose proof (vert_step_eq test value (node_unique_verts node) hv) as Hstep.
    set (G := fun v => if test v then value else span_get hv v) in *.
    set (hv1 := foldl (fun (l : list bool) v => if test v then <[v := value]> l else l) hv
                  (node_unique_verts node)) in *.
    assert (Hlater : forall v, span_get hv1 v <> value -> span_get hv v <> value).
    { intros v Hne. unfold hv1 in Hne. rewrite foldl_set_get in Hne.
      by destruct (decide _). }
    destruct (indexed_data_equal hv (node_unique_verts node)
                (map G (node_unique_verts node))) eqn:E.
    + rewrite Hstep.
      destruct (IH (S i) hv1 undo c) as (IH1 & pushes & IH2 & IH3).
      split; [exact IH1|]. exists pushes. split; [exact IH2|].
      intros j Hj. destruct (IH3 j Hj) as (node' & v & Hl & Hle & Hv & Ht & Hne).
      exists node', v. replace (j - i) with (S (j - S i)) by lia.
      repeat split; auto; lia.
    + rewrite Hstep.
      destruct (IH (S i) hv1 (undo ++ [(i, HideVert)]) true) as (IH1 & pushes & IH2 & IH3).
      split; [exact IH1|]. exists ((i, HideVert) :: pushes).
      split; [by rewrite IH2, <- app_assoc|].
      intros j Hj. apply elem_of_cons in Hj as [Hj|Hj].
      * injection Hj as ->. apply indexed_data_differ in E as (v & Hv & Hne).
        exists node, v. rewrite Nat.sub_diag. unfold G in Hne.
        destruct (test v) eqn:Et; [|done]. repeat split; auto.
      * destruct (IH3 j Hj) as (node' & v & Hl & Hle & Hv & Ht & Hne).
        exists node', v. replace (j - i) with (S (j - S i)) by lia.
        repeat split; auto; lia.
Qed.

(** *** The face loop of the node-level flush *)

Lemma calc_face_hide_from_app fs cv hv node_faces : forall pre old,
  length old = length node_faces ->
  calc_face_hide_from (length pre) node_faces fs cv hv (pre ++ old) =
    pre ++ map (face_any_hidden fs cv hv) node_faces.
Proof.
  induction node_faces as [|f rest IH]; intros pre old Hlen.
  - destruct old; [done | discriminate].
  - destruct old as [|b old]; [discriminate|]. simpl in Hlen.
    cbn [calc_face_hide_from map].
    rewrite insert_app_r_alt by lia. rewrite Nat.sub_diag. simpl.
    replace (pre ++ face_any_hidden fs cv hv f :: old)
      with ((pre ++ [face_any_hidden fs cv hv f]) ++ old) by (by rewrite <- app_assoc).
    replace (S (length pre)) with (length (pre ++ [face_any_hidden fs cv hv f]))
      by (rewrite length_app; simpl; lia).
    rewrite IH by lia. by rewrite <- app_assoc.
Qed.

Lemma calc_face_hide_gather node_faces fs cv hv hp :
  calc_face_hide node_faces fs cv hv (gather hp node_faces) =
    map (face_any_hidden fs cv hv) node_faces.
Proof.
  apply (calc_face_hide_from_app fs cv hv node_faces [] (gather hp node_faces)).
  unfold gather. by rewrite length_map.
Qed.

Lemma flush_face_changes_node_loop_spec fs cv hv nodes : forall hp,
  let r := flush_face_changes_node_loop fs cv hv nodes hp in
  length r.1 = length hp /\
  (forall k, span_get r.1 k =
     if decide (k ∈ concat (map node_face_indices nodes) /\ k < length hp)
     then face_any_hidden fs cv hv k else span_get hp k) /\
  (forall j node node', nodes !! j = Some node -> r.2 !! j = Some node' ->
     node' = node \/
     exists f, f ∈ node_face_indices node /\ span_get hp f <> face_any_hidden fs cv hv f).
Proof.
  induction nodes as [|node rest IH]; intros hp.
  - simpl. split; [done|]. split.
    + intros k. destruct (decide (k ∈ [] /\ k < length hp)) as [[H _]|H]; [|done].
      by apply elem_of_nil in H.
    + intros j node node' Hj. by rewrite lookup_nil in Hj.
  - cbn [flush_face_changes_node_loop map concat]. rewrite calc_face_hide_gather.
    set (F := face_any_hidden fs cv hv) in *.
    pose proof (compare_scatter_get F (node_face_indices node) hp) as Hget.
    pose proof (compare_scatter_length F (node_face_indices node) hp) as Hlen.
    assert (Hcomb : forall hp1, length hp1 = length hp ->
      (forall k, span_get hp1 k =
         if decide (k ∈ node_face_indices node /\ k < length hp)
         then F k else span_get hp k) ->
      forall hp2 : list bool,
      (forall k, span_get hp2 k =
         if decide (k ∈ concat (map node_face_indices rest) /\ k < length hp1)
         then F k else span_get hp1 k) ->
      forall k, span_get hp2 k =
         if decide (k ∈ node_face_indices node ++ concat (map node_face_indices rest)
                    /\ k < length hp)
         then F k else span_get hp k).
    { intros hp1 Hl1 H1 hp2 H2 k. rewrite H2, H1, Hl1.
      destruct (decide (k ∈ concat (map node_face_indices rest) /\ k < length hp))
        as [[Ha Hb]|Ha];
        destruct (decide (k ∈ node_face_indices node /\ k < length hp)) as [[Hc Hd]|Hc];
        destruct (decide (k ∈ node_face_indices node ++ concat (map node_face_indices rest)
                          /\ k < length hp)) as [[He Hf]|He]; try done.
      - destruct He. split; [apply elem_of_app; by right | done].
      - destruct He. split; [apply elem_of_app; by right | done].
      - destruct He. split; [apply elem_of_app; by left | done].
      - apply elem_of_app in He as [He|He]; [destruct Hc | destruct Ha]; auto. }
    assert (Hearlier : forall hp1,
      (forall k, span_get hp1 k =
         if decide (k ∈ node_face_indices node /\ k < length hp)
         then F k else span_get hp k) ->
      forall f, span_get hp1 f <> F f -> span_get hp f <> F f).
    { intros hp1 H1 f Hne. rewrite H1 in Hne. by destruct (decide _). }
    destruct (indexed_data_equal hp (node_face_indices node)
                (map F (node_face_indices node))) eqn:E.
    + specialize (IH hp).
      destruct (flush_face_changes_node_loop fs cv hv rest hp) as [hp' rest'].
      simpl in *. destruct IH as (IH1 & IH2 & IH3).
      split; [done|]. split; [by apply (Hcomb hp)|].
      intros [|j] n n' Hn Hn'; simpl in *.
      * left. congruence.
      * eauto.
    + specialize (IH (scatter (map F (node_face_indices node)) (node_face_indices node) hp)).
      destruct (flush_face_changes_node_loop fs cv hv rest _) as [hp' rest'].
      simpl in *. destruct IH as (IH1 & IH2 & IH3).
      split; [by rewrite IH1|]. split; [by apply (Hcomb _ Hlen Hget)|].
      intros [|j] n n' Hn Hn'; simpl in *.
      * right. injection Hn as <-. apply indexed_data_differ in E as (f & Hf & Hne). eauto.
      * destruct (IH3 j n n' Hn Hn') as [->|(f & Hf & Hne)]; [by left|].
        right. exists f. split; [done|]. by apply (Hearlier _ Hget).
Qed.

(** *** The node loop of the grid update *)

Lemma grid_bits_insert (gh : list (list bool)) (i g : nat) (bits : list bool) :
  grid_bits (<[i := bits]> gh) g =
    if decide (g = i /\ i < length gh) then bits else grid_bits gh g.
Proof.
  unfold grid_bits. destruct (decide (g = i /\ i < length gh)) as [[Hg H]|H].
  - subst. by rewrite list_lookup_insert_eq.
  - destruct (decide (g = i)) as [->|Hne].
    + rewrite list_insert_ge; [done | lia].
    + by rewrite list_lookup_insert_ne.
Qed.

Lemma grids_equal_map (H : nat -> list bool) gh grids :
  grids_equal gh grids (map H grids) = true <->
  Forall (fun g => grid_bits gh g = H g) grids.
Proof.
  induction grids as [|g rest IH]; simpl.
  - split; [constructor | done].
  - rewrite andb_true_iff, bool_decide_eq_true, IH.
    split; [intros [? ?]; by constructor | by inversion 1].
Qed.

Lemma write_back_grids_length (H : nat -> list bool) grids : forall gh,
  length (write_back_grids grids (map H grids) gh) = length gh.
Proof.
  induction grids as [|g rest IH]; intros gh; [done|].
  simpl. by rewrite IH, length_insert.
Qed.

Lemma write_back_grids_get (H : nat -> list bool) grids : forall gh g,
  grid_bits (write_back_grids grids (map H grids) gh) g =
    if decide (g ∈ grids /\ g < length gh) then H g else grid_bits gh g.
Proof.
  induction grids as [|i rest IH]; intros gh g.
  - simpl. destruct (decide (g ∈ [] /\ g < length gh)) as [[H1 _]|H1]; [|done].
    by apply elem_of_nil in H1.
  - simpl. rewrite IH, length_insert, grid_bits_insert.
    destruct (decide (g ∈ rest /\ g < length gh)) as [[H1 H2]|H1];
      destruct (decide (g = i /\ i < length gh)) as [[H3 H4]|H3];
      destruct (decide (g ∈ i :: rest /\ g < length gh)) as [[H5 H6]|H5];
      try done.
    + destruct H5. split; [by apply elem_of_cons; right | done].
    + destruct H5. split; [by apply elem_of_cons; right | done].
    + by subst.
    + destruct H5. subst. split; [by apply elem_of_cons; left | done].
    + apply elem_of_cons in H5 as [->|H5]; [destruct H3 | destruct H1]; auto.
Qed.

Section grid_loop.
Variable calc_hide : nat -> list bool -> list bool.
Hypothesis calc_hide_twice : forall g bits, calc_hide g (calc_hide g bits) = calc_hide g bits.

Lemma grid_step_get grids gh g :
  let new_hide := map (fun g => calc_hide g (grid_bits gh g)) grids in
  grid_bits (if grids_equal gh grids new_hide then gh
             else write_back_grids grids new_hide gh) g =
    if decide (g ∈ grids /\ g < length gh) then calc_hide g (grid_bits gh g)
    else grid_bits gh g.
Proof.
  simpl. destruct (grids_equal gh grids _) eqn:E.
  - apply (grids_equal_map (fun g => calc_hide g (grid_bits gh g))) in E.
    destruct (decide (g ∈ grids /\ g < length gh)) as [[H _]|H]; [|done].
    rewrite Forall_forall in E. by apply E.
  - apply (write_back_grids_get (fun g => calc_hide g (grid_bits gh g))).
Qed.

Lemma grid_hide_update_loop_spec nodes : forall i gh undo c,
  let r := grid_hide_update_loop calc_hide i nodes gh undo c in
  length r.1.1.1 = length gh /\
  (forall g, grid_bits r.1.1.1 g =
     if decide (g ∈ concat (map node_grid_indices nodes) /\ g < length gh)
     then calc_hide g (grid_bits gh g) else grid_bits gh g) /\
  (exists pushes,
     r.1.2 = undo ++ pushes /\
     forall j, (j, HideVert) ∈ pushes ->
       exists node g, nodes !! (j - i) = Some node /\ i <= j /\
                      g ∈ node_grid_indices node /\
                      grid_bits gh g <> calc_hide g (grid_bits gh g)) /\
  (forall j node node', nodes !! j = Some node -> r.1.1.2 !! j = Some node' ->
     node' = node \/
     exists g, g ∈ node_grid_indices node /\
               grid_bits gh g <> calc_hide g (grid_bits gh g)) /\
  (r.2 = false -> c = false /\ r.1.1.1 = gh /\ r.1.1.2 = nodes /\ r.1.2 = undo).
Proof.
  induction nodes as [|node rest IH]; intros i gh undo c.
  - simpl. split; [done|]. split.
    { intros g. destruct (decide (g ∈ [] /\ g < length gh)) as [[H _]|H]; [|done].
      by apply elem_of_nil in H. }
    split.
    { exists []. split; [by rewrite app_nil_r|]. intros j Hj. by apply elem_of_nil in Hj. }
    split; [|done].
    intros j node node' Hj. by rewrite lookup_nil in Hj.
  - cbn [grid_hide_update_loop map concat].
    pose proof (grid_step_get (node_grid_indices node) gh) as Hget. simpl in Hget.
    set (new_hide := map (fun g => calc_hide g (grid_bits gh g)) (node_grid_indices node)) in *.
    assert (Hcomb : forall gh1 : list (list bool), length gh1 = length gh ->
      (forall g, grid_bits gh1 g =
         if decide (g ∈ node_grid_indices node /\ g < length gh)
         then calc_hide g (grid_bits gh g) else grid_bits gh g) ->
      forall gh2 : list (list bool),
      (forall g, grid_bits gh2 g =
         if decide (g ∈ concat (map node_grid_indices rest) /\ g < length gh1)
         then calc_hide g (grid_bits gh1 g) else grid_bits gh1 g) ->
      forall g, grid_bits gh2 g =
         if decide (g ∈ node_grid_indices node ++ concat (map node_grid_indices rest)
                    /\ g < length gh)
         then calc_hide g (grid_bits gh g) else grid_bits gh g).
    { intros gh1 Hl1 H1 gh2 H2 g. rewrite H2, H1, Hl1.
      destruct (decide (g ∈ concat (map node_grid_indices rest) /\ g < length gh))
        as [[Ha Hb]|Ha];
        destruct (decide (g ∈ node_grid_indices node /\ g < length gh)) as [[Hc Hd]|Hc];
        destruct (decide (g ∈ node_grid_indices node ++ concat (map node_grid_indices rest)
                          /\ g < length gh)) as [[He Hf]|He]; try done.
      - destruct He. split; [apply elem_of_app; by right | done].
      - destruct He. split; [apply elem_of_app; by right | done].
      - destruct He. split; [apply elem_of_app; by left | done].
      - apply elem_of_app in He as [He|He]; [destruct Hc | destruct Ha]; auto. }
    assert (Hearlier : forall gh1 : list (list bool),
      (forall g, grid_bits gh1 g =
         if decide (g ∈ node_grid_indices node /\ g < length gh)
         then calc_hide g (grid_bits gh g) else grid_bits gh g) ->
      forall g, grid_bits gh1 g <> calc_hide g (grid_bits gh1 g) ->
                grid_bits gh g <> calc_hide g (grid_bits gh g)).
    { intros gh1 H1 g Hne. rewrite H1 in Hne.
      destruct (decide _); [|done]. by rewrite calc_hide_twice in Hne. }
    destruct (grids_equal gh (node_grid_indices node) new_hide) eqn:E.
    + specialize (IH (S i) gh undo c).
      destruct (grid_hide_update_loop calc_hide (S i) rest gh undo c)
        as [[[gh' rest'] undo'] c'].
      simpl in *. destruct IH as (IH1 & IH2 & (pushes & IH3 & IH4) & IH5 & IH6).
      split; [done|]. split; [by apply (Hcomb gh)|]. split.
      { exists pushes. split; [done|]. intros j Hj.
        destruct (IH4 j Hj) as (n & g & Hl & Hle & Hg & Hne).
        exists n, g. replace (j - i) with (S (j - S i)) by lia.
        repeat split; auto; lia. }
      split.
      { intros [|j] n n' Hn Hn'; simpl in *; [left; congruence | eauto]. }
      intros Hc. destruct (IH6 Hc) as (-> & -> & -> & ->). done.
    + assert (Hlen : length (write_back_grids (node_grid_indices node) new_hide gh)
                     = length gh)
        by apply (write_back_grids_length (fun g => calc_hide g (grid_bits gh g))).
      specialize (IH (S i) (write_back_grids (node_grid_indices node) new_hide gh)
                    (undo ++ [(i, HideVert)]) true).
      destruct (grid_hide_update_loop calc_hide (S i) rest _ _ true)
        as [[[gh' rest'] undo'] c'].
      simpl in *. destruct IH as (IH1 & IH2 & (pushes & IH3 & IH4) & IH5 & IH6).
      assert (Hthis : exists g, g ∈ node_grid_indices node /\
                                grid_bits gh g <> calc_hide g (grid_bits gh g)).
      { assert (Hn : ~ Forall (fun g => grid_bits gh g = calc_hide g (grid_bits gh g))
                       (node_grid_indices node)).
        { intros HF.
          apply (grids_equal_map (fun g => calc_hide g (grid_bits gh g))) in HF.
          unfold new_hide in E. congruence. }
        apply not_Forall_Exists in Hn; [|intros g; apply _].
        apply Exists_exists in Hn as (g & Hg & Hne). eauto. }
      split; [by rewrite IH1|]. split; [by apply (Hcomb _ Hlen Hget)|]. split.
      { exists ((i, HideVert) :: pushes). split; [by rewrite IH3, <- app_assoc|].
        intros j Hj. apply elem_of_cons in Hj as [Hj|Hj].
        - injection Hj as ->. destruct Hthis as (g & Hg & Hne).
          exists node, g. rewrite Nat.sub_diag. repeat split; auto.
        - destruct (IH4 j Hj) as (n & g & Hl & Hle & Hg & Hne).
          exists n, g. replace (j - i) with (S (j - S i)) by lia.
          repeat split; auto; [lia|]. by apply (Hearlier _ Hget). }
      split.
      { intros [|j] n n' Hn Hn'; simpl in *.
        - right. injection Hn as <-. exact Hthis.
        - destruct (IH5 j n n' Hn Hn') as [->|(g & Hg & Hne)]; [by left|].
          right. exists g. split; [done|]. by apply (Hearlier _ Hget). }
      intros Hc. by destruct (IH6 Hc).
Qed.

End grid_loop.


Lemma calc_hide_grid_where_twice test gs value grid bits :
  calc_hide_grid_where test gs value grid (calc_hide_grid_where test gs value grid bits)
  = calc_hide_grid_where test gs value grid bits.
Proof.
  rewrite !calc_hide_grid_where_flat.
  exact (foldl_set_twice (test grid) value _ bits).
Qed.

Lemma calc_hide_grid_where_length test gs value grid bits :
  length (calc_hide_grid_where test gs value grid bits) = length bits.
Proof. rewrite calc_hide_grid_where_flat. apply foldl_set_length. Qed.

(** *** Dynamic topology: what one update does to the vertex flags and to the
    undo log *)

Lemma partialvis_update_bmesh_verts_hidden verts action test : forall vh c vis,
  (partialvis_update_bmesh_verts verts action test (vh, c, vis)).1.1 =
    foldl (fun vh v => if test v then <[v := action_to_hide action]> vh else vh) vh verts.
Proof.
  unfold partialvis_update_bmesh_verts.
  induction verts as [|v rest IH]; intros vh c vis; [done|].
  simpl. destruct (test v); simpl.
  - rewrite IH. by destruct action.
  - by rewrite IH.
Qed.

Lemma partialvis_update_bmesh_nodes_from_spec paint action test nodes : forall i bm undo,
  let r := partialvis_update_bmesh_nodes_from paint action test i nodes bm undo in
  vert_hidden r.1.1 =
    foldl (fun vh v => if test v then <[v := action_to_hide action]> vh else vh)
          (vert_hidden bm)
          (concat (map (fun node => bm_unique_verts node ++ bm_other_verts node) nodes)) /\
  r.2 = undo ++ map (fun j => (j, HideVert)) (seq i (length nodes)) /\
  map (fun node => bm_unique_verts node ++ bm_other_verts node) r.1.2 =
    map (fun node => bm_unique_verts node ++ bm_other_verts node) nodes /\
  length r.1.2 = length nodes.
Proof.
  induction nodes as [|node rest IH]; intros i bm undo; simpl.
  - by rewrite app_nil_r.
  - pose proof (partialvis_update_bmesh_verts_hidden (bm_unique_verts node) action test
                  (vert_hidden bm) false false) as H1.
    destruct (partialvis_update_bmesh_verts (bm_unique_verts node) action test
                (vert_hidden bm, false, false)) as [[vh1 c1] vis1].
    pose proof (partialvis_update_bmesh_verts_hidden (bm_other_verts node) action test
                  vh1 c1 vis1) as H2.
    destruct (partialvis_update_bmesh_verts (bm_other_verts node) action test
                (vh1, c1, vis1)) as [[vh2 c2] vis2].
    simpl in H1, H2.
    specialize (IH (S i) (mkBMesh vh2
                  (partialvis_update_bmesh_faces paint vh2 (bm_faces node) (face_hidden bm))
                  (vert_mask bm)) (undo ++ [(i, HideVert)])).
    destruct (partialvis_update_bmesh_nodes_from paint action test (S i) rest _ _)
      as [[bm' rest'] undo'].
    simpl in *. destruct IH as (IH1 & IH2 & IH3 & IH4).
    split; [|split; [|split]].
    + rewrite IH1, <- app_assoc, !foldl_app. by rewrite H2, H1.
    + rewrite IH2, <- app_assoc. done.
    + rewrite IH3. f_equal. by destruct c2.
    + by rewrite IH4.
Qed.

(** *** A mask that is zero everywhere matches no element *)

Lemma mask_above_half_zero mask i : mask_all_zero mask -> mask_above_half mask i = false.
Proof.
  intros Hz. unfold mask_above_half.
  assert (Hq : (default 0%Q (mask !! i) == 0)%Q).
  { destruct (mask !! i) as [q|] eqn:E; simpl; [|reflexivity].
    unfold mask_all_zero in Hz. rewrite Forall_forall in Hz.
    apply Hz. apply list_elem_of_lookup. eauto. }
  apply negb_false_iff, Qle_bool_iff. rewrite Hq. discriminate.
Qed.

Lemma vert_hide_update_loop_no_match test value nodes :
  (forall v, test v = false) ->
  forall i hv undo c,
    vert_hide_update_loop (calc_hide_where test value) i nodes hv undo c = (hv, undo, c).
Proof.
  intros Ht. induction nodes as [|node rest IH]; intros i hv undo c; [done|].
  simpl. rewrite calc_hide_where_gather.
  assert (indexed_data_equal hv (node_unique_verts node)
            (map (fun v => if test v then value else span_get hv v) (node_unique_verts node))
          = true) as ->.
  { apply indexed_data_equal_map, Forall_forall. intros v _. by rewrite Ht. }
  apply IH.
Qed.


Lemma grids_equal_same gh grids : grids_equal gh grids (map (grid_bits gh) grids) = true.
Proof.
  induction grids as [|g rest IH]; [done|].
  simpl. rewrite IH. by rewrite bool_decide_eq_true_2.
Qed.

Lemma grid_hide_update_loop_no_change calc_hide nodes :
  (forall g bits, calc_hide g bits = bits) ->
  forall i gh undo c,
    grid_hide_update_loop calc_hide i nodes gh undo c = (gh, nodes, undo, c).
Proof.
  intros Hc. induction nodes as [|node rest IH]; intros i gh undo c; [done|].
  simpl.
  assert (map (fun g => calc_hide g (grid_bits gh g)) (node_grid_indices node)
          = map (grid_bits gh) (node_grid_indices node)) as ->.
  { apply map_ext. intros g. apply Hc. }
  by rewrite grids_equal_same, IH.
Qed.

(** *** The predicate-driven update pushes and marks only on a change *)

Lemma elem_of_concat_lookup (sel : PBVHNode -> list nat) nodes i node k :
  nodes !! i = Some node -> k ∈ sel node -> k ∈ concat (map sel nodes).
Proof.
  revert i. induction nodes as [|n rest IH]; intros i Hi Hk; [by rewrite lookup_nil in Hi|].
  simpl. apply elem_of_app. destruct i as [|i]; simpl in Hi.
  - left. congruence.
  - right. eauto.
Qed.

Lemma nodes_in_range_lookup sel n nodes i node k :
  nodes_in_range sel n nodes -> nodes !! i = Some node -> k ∈ sel node -> k < n.
Proof.
  intros Hr Hi Hk. unfold nodes_in_range in Hr.
  rewrite Forall_forall in Hr. specialize (Hr node).
  rewrite Forall_forall in Hr. apply Hr; [|done].
  apply list_elem_of_lookup. eauto.
Qed.

Lemma vert_hide_update_changes (test : nat -> bool) (value : bool) (ob : MeshObject) :
  nodes_in_range node_unique_verts (length (hide_vert_span (mo_mesh ob))) (mo_nodes ob) ->
  nodes_in_range node_face_indices (length (hide_poly_span (mo_mesh ob))) (mo_nodes ob) ->
  let ob' := vert_hide_update ob (calc_hide_where test value) in
  exists pushes, mo_undo ob' = mo_undo ob ++ pushes /\
    forall i node, mo_nodes ob !! i = Some node ->
      ((i, HideVert) ∈ pushes ->
         exists v, v ∈ node_unique_verts node /\
           span_get (hide_vert_span (mo_mesh ob')) v
           <> span_get (hide_vert_span (mo_mesh ob)) v) /\
      (forall node', mo_nodes ob' !! i = Some node' -> node' <> node ->
         exists f, f ∈ node_face_indices node /\
           span_get (hide_poly_span (mo_mesh ob')) f
           <> span_get (hide_poly_span (mo_mesh ob)) f).
Proof.
  intros Hverts Hfaces. unfold vert_hide_update.
  pose proof (vert_hide_update_loop_spec test value (mo_nodes ob) 0
                (hide_vert_span (mo_mesh ob)) (mo_undo ob) false) as Hloop.
  destruct (vert_hide_update_loop (calc_hide_where test value) 0 (mo_nodes ob)
              (hide_vert_span (mo_mesh ob)) (mo_undo ob) false) as [[hv' undo'] changed].
  simpl in Hloop. destruct Hloop as (Hhv & pushes & Hundo & Hpush).
  assert (Hvert : forall i node, mo_nodes ob !! i = Some node -> (i, HideVert) ∈ pushes ->
            exists v, v ∈ node_unique_verts node /\
                      span_get hv' v <> span_get (hide_vert_span (mo_mesh ob)) v).
  { intros i node Hi Hin.
    destruct (Hpush i Hin) as (node0 & v & Hl & _ & Hv & Ht & Hne).
    rewrite Nat.sub_0_r, Hi in Hl. injection Hl as <-.
    exists v. split; [done|]. rewrite Hhv, foldl_set_get.
    rewrite decide_True; [congruence|].
    split; [split; [|done]|].
    - by apply (elem_of_concat_lookup node_unique_verts _ i node).
    - exact (nodes_in_range_lookup node_unique_verts _ _ i node v Hverts Hi Hv). }
  destruct changed.
  - unfold flush_face_changes_node. cbn [faces corner_verts set_hide_vert].
    pose proof (flush_face_changes_node_loop_spec (faces (mo_mesh ob))
                  (corner_verts (mo_mesh ob)) hv' (mo_nodes ob)
                  (hide_poly_span (mo_mesh ob))) as Hface.
    change (hide_poly_span (set_hide_vert (mo_mesh ob) (Some hv')))
      with (hide_poly_span (mo_mesh ob)).
    destruct (flush_face_changes_node_loop (faces (mo_mesh ob)) (corner_verts (mo_mesh ob))
                hv' (mo_nodes ob) (hide_poly_span (mo_mesh ob))) as [hp' nodes'].
    simpl in Hface. destruct Hface as (Hlen & Hget & Hnodes).
    exists pushes. split; [done|]. intros i node Hi. split; [by apply Hvert|].
    intros node' Hi' Hne. simpl in Hi'.
    destruct (Hnodes i node node' Hi Hi') as [->|(f & Hf & Hdiff)]; [done|].
    exists f. split; [done|].
    change (span_get hp' f <> span_get (hide_poly_span (mo_mesh ob)) f).
    rewrite Hget, decide_True; [congruence|]. split.
    + by apply (elem_of_concat_lookup node_face_indices _ i node).
    + exact (nodes_in_range_lookup node_face_indices _ _ i node f Hfaces Hi Hf).
  - exists pushes. split; [done|]. intros i node Hi. split; [by apply Hvert|].
    intros node' Hi' Hne. simpl in Hi'. congruence.
Qed.

Lemma grid_hide_update_changes (test : nat -> nat -> bool) (value : bool) (ob : GridObject) :
  let ob' := grid_hide_update ob (calc_hide_grid_where test (grid_size (go_ccg ob)) value) in
  exists pushes, go_undo ob' = go_undo ob ++ pushes /\
    forall i node, go_nodes ob !! i = Some node ->
      ((i, HideVert) ∈ pushes \/
       exists node', go_nodes ob' !! i = Some node' /\ node' <> node) ->
      exists g, g ∈ node_grid_indices node /\
        grid_bits (grid_hidden (go_ccg ob')) g
        <> grid_bits (grid_hidden_ensure (go_ccg ob)) g.
Proof.
  unfold grid_hide_update.
  set (calc := calc_hide_grid_where test (grid_size (go_ccg ob)) value).
  pose proof (grid_hide_update_loop_spec calc
                (calc_hide_grid_where_twice test (grid_size (go_ccg ob)) value)
                (go_nodes ob) 0 (grid_hidden_ensure (go_ccg ob)) (go_undo ob) false) as Hloop.
  destruct (grid_hide_update_loop calc 0 (go_nodes ob) (grid_hidden_ensure (go_ccg ob))
              (go_undo ob) false) as [[[gh' nodes'] undo'] changed].
  simpl in Hloop. destruct Hloop as (Hlen & Hget & (pushes & Hundo & Hpush) & Hnodes & _).
  exists pushes. split; [done|]. intros i node Hi Hor. simpl.
  assert (Hg : exists g, g ∈ node_grid_indices node /\
                 grid_bits (grid_hidden_ensure (go_ccg ob)) g
                 <> calc g (grid_bits (grid_hidden_ensure (go_ccg ob)) g)).
  { destruct Hor as [Hin|(node' & Hi' & Hne)].
    - destruct (Hpush i Hin) as (node0 & g & Hl & _ & Hg & Hdiff).
      rewrite Nat.sub_0_r, Hi in Hl. injection Hl as <-. eauto.
    - simpl in Hi'. destruct (Hnodes i node node' Hi Hi') as [->|?]; [done | eauto]. }
  destruct Hg as (g & Hg & Hdiff). exists g. split; [done|].
  rewrite Hget, decide_True; [congruence|]. split.
  - by apply (elem_of_concat_lookup node_grid_indices _ i node).
  - destruct (decide (g < length (grid_hidden_ensure (go_ccg ob)))) as [|Hge]; [done|].
    exfalso. apply Hdiff. unfold grid_bits. rewrite lookup_ge_None_2 by lia. simpl.
    symmetry. apply nil_length_inv. unfold calc. by rewrite calc_hide_grid_where_length.
Qed.

(** C1 (as amended): on the polygon mesh the predicate-driven update pushes an
    undo step for a node only when the hidden flag of one of that node's
    unique vertices changes, and touches the node's cached flags only when the
    hidden flag of one of its faces changes; on grids it pushes a node or
    touches its flags only when a bit of one of its grids changes; on dynamic
    topology it pushes an undo step for every node of the span. *)
Theorem predicate_update_pushes_on_change (paint : list bool -> nat -> bool)
    (affected_vert : nat -> bool) (affected_elem : nat -> nat -> bool) (action : VisAction)
    (mesh_ob : MeshObject) (grid_ob : GridObject) (bm_ob : BMObject) :
  nodes_in_range node_unique_verts (length (hide_vert_span (mo_mesh mesh_ob)))
    (mo_nodes mesh_ob) ->
  nodes_in_range node_face_indices (length (hide_poly_span (mo_mesh mesh_ob)))
    (mo_nodes mesh_ob) ->
  (let ob' := partialvis_gesture_update_mesh affected_vert mesh_ob action in
   exists pushes, mo_undo ob' = mo_undo mesh_ob ++ pushes /\
     forall i node, mo_nodes mesh_ob !! i = Some node ->
       ((i, HideVert) ∈ pushes ->
          exists v, v ∈ node_unique_verts node /\
            span_get (hide_vert_span (mo_mesh ob')) v
            <> span_get (hide_vert_span (mo_mesh mesh_ob)) v) /\
       (forall node', mo_nodes ob' !! i = Some node' -> node' <> node ->
          exists f, f ∈ node_face_indices node /\
            span_get (hide_poly_span (mo_mesh ob')) f
            <> span_get (hide_poly_span (mo_mesh mesh_ob)) f)) /\
  (let ob' := partialvis_gesture_update_grids affected_elem grid_ob action in
   exists pushes, go_undo ob' = go_undo grid_ob ++ pushes /\
     forall i node, go_nodes grid_ob !! i = Some node ->
       ((i, HideVert) ∈ pushes \/
        exists node', go_nodes ob' !! i = Some node' /\ node' <> node) ->
       exists g, g ∈ node_grid_indices node /\
         grid_bits (grid_hidden (go_ccg ob')) g
         <> grid_bits (grid_hidden_ensure (go_ccg grid_ob)) g) /\
  (let ob' := partialvis_gesture_update_bmesh paint affected_vert bm_ob action in
   bo_undo ob' = bo_undo bm_ob ++ push_every_node (length (bo_nodes bm_ob))).
Proof.
  intros Hverts Hfaces. split; [|split].
  - unfold partialvis_gesture_update_mesh.
    destruct action, (hide_vert (mo_mesh mesh_ob)) eqn:E;
      try (by apply vert_hide_update_changes).
    exists []. split; [by rewrite app_nil_r|]. intros i node Hi. split.
    + intros Hin. by apply elem_of_nil in Hin.
    + intros node' Hi' Hne. congruence.
  - apply grid_hide_update_changes.
  - unfold partialvis_gesture_update_bmesh, partialvis_update_bmesh_nodes.
    pose proof (partialvis_update_bmesh_nodes_from_spec paint action affected_vert
                  (bo_nodes bm_ob) 0 (bo_bm bm_ob) (bo_undo bm_ob)) as H.
    destruct (partialvis_update_bmesh_nodes_from paint action affected_vert 0
                (bo_nodes bm_ob) (bo_bm bm_ob) (bo_undo bm_ob)) as [[bm1 nodes1] undo1].
    simpl in *. by destruct H as (_ & -> & _).
Qed.


Lemma predicate_update_pushes_on_change_witness :
  nodes_in_range node_unique_verts (length (hide_vert_span (mo_mesh quad_object)))
    (mo_nodes quad_object) /\
  nodes_in_range node_face_indices (length (hide_poly_span (mo_mesh quad_object)))
    (mo_nodes quad_object) /\
  (exists pushes,
     mo_undo (partialvis_gesture_update_mesh (Nat.eqb 1) quad_object Hide)
     = mo_undo quad_object ++ pushes) /\
  bo_undo (partialvis_gesture_update_bmesh (fun _ _ => false) (Nat.eqb 1) bm_object Hide)
    = bo_undo bm_object ++ push_every_node (length (bo_nodes bm_object)).
Proof.
  assert (H1 : nodes_in_range node_unique_verts
                 (length (hide_vert_span (mo_mesh quad_object))) (mo_nodes quad_object)).
  { unfold nodes_in_range. simpl. repeat constructor. }
  assert
    (H2 : nodes_in_range node_face_indices
            (length (hide_poly_span (mo_mesh quad_object))) (mo_nodes quad_object)).
  { unfold nodes_in_range. simpl. repeat constructor. }
  destruct (predicate_update_pushes_on_change (fun _ _ => false) (Nat.eqb 1)
              (fun _ _ => false) Hide quad_object one_grid_object bm_object H1 H2)
    as ((pushes & Hp & _) & _ & Hb).
  split; [exact H1|]. split; [exact H2|]. split; [by exists pushes | exact Hb].
Defined.

(** C1 (as stated) fails on dynamic topology: hiding the already hidden
    vertex 0 changes no flag of the mesh, and the node is pushed to the undo log
    and marked dirty all the same. *)
Lemma predicate_update_as_stated_fails :
  bo_bm (partialvis_gesture_update_bmesh (fun _ _ => false) (Nat.eqb 0) bm_object Hide)
    = bo_bm bm_object /\
  bo_undo (partialvis_gesture_update_bmesh (fun _ _ => false) (Nat.eqb 0) bm_object Hide)
    <> bo_undo bm_object /\
  map node_dirty
      (bo_nodes (partialvis_gesture_update_bmesh (fun _ _ => false) (Nat.eqb 0) bm_object Hide))
    <> map node_dirty (bo_nodes bm_object).
Proof. split; [reflexivity|]. split; vm_compute; discriminate. Qed.

(** *** Grow and shrink on grids: every node is recorded as changed *)

Lemma grow_shrink_grid_nodes_changed neighbor_coords gs desired_state rd nodes :
  forall node_index wr node_changed k,
  (grow_shrink_grid_nodes neighbor_coords gs desired_state rd node_index nodes wr
     node_changed).2 !! k =
    if decide ((node_index <= k /\ k < node_index + length nodes) /\ k < length node_changed)
    then Some true else node_changed !! k.
Proof.
  induction nodes as [|node rest IH]; intros node_index wr node_changed k.
  - simpl. destruct (decide _) as [[[? ?] ?]|]; [lia | done].
  - cbn [grow_shrink_grid_nodes length]. rewrite IH, length_insert.
    destruct (decide ((S node_index <= k /\ k < S node_index + length rest)
                      /\ k < length node_changed)) as [[[H1 H2] H3]|H1];
      destruct (decide ((node_index <= k /\ k < node_index + S (length rest))
                        /\ k < length node_changed)) as [[[H4 H5] H6]|H4];
      try done; try lia.
    + destruct (decide (k = node_index)) as [->|Hne].
      * by rewrite list_lookup_insert_eq.
      * lia.
    + destruct (decide (k = node_index)) as [->|Hne].
      * rewrite list_insert_ge; [done | lia].
      * by rewrite list_lookup_insert_ne.
Qed.

Lemma grow_shrink_grid_nodes_all_changed neighbor_coords gs desired_state rd nodes wr
    node_changed :
  length node_changed = length nodes ->
  (grow_shrink_grid_nodes neighbor_coords gs desired_state rd 0 nodes wr node_changed).2
  = replicate (length nodes) true.
Proof.
  intros Hlen. apply list_eq. intros k.
  rewrite grow_shrink_grid_nodes_changed, Hlen.
  destruct (decide ((0 <= k /\ k < 0 + length nodes) /\ k < length nodes)) as [[[_ H] _]|H].
  - symmetry. by apply lookup_replicate_2.
  - rewrite !lookup_ge_None_2; [done | rewrite length_replicate; lia | lia].
Qed.

Lemma grow_shrink_grid_from_all_changed neighbor_coords gs desired_state nodes remaining :
  forall i buffers node_changed,
  length node_changed = length nodes ->
  (grow_shrink_grid_from neighbor_coords gs desired_state nodes (S remaining) i
     (buffers, node_changed)).2 = replicate (length nodes) true.
Proof.
  induction remaining as [|remaining IH]; intros i buffers node_changed Hlen.
  - cbn [grow_shrink_grid_from].
    pose proof (grow_shrink_grid_nodes_all_changed neighbor_coords gs desired_state
                  (bit_read_buffer buffers (Z.of_nat i)) nodes
                  (bit_write_buffer buffers (Z.of_nat i)) node_changed Hlen) as H.
    destruct (grow_shrink_grid_nodes _ _ _ _ 0 nodes _ node_changed) as [wr' changed'].
    exact H.
  - change (grow_shrink_grid_from neighbor_coords gs desired_state nodes (S (S remaining)) i
              (buffers, node_changed))
      with (let '(wr', node_changed') :=
              grow_shrink_grid_nodes neighbor_coords gs desired_state
                (bit_read_buffer buffers (Z.of_nat i)) 0 nodes
                (bit_write_buffer buffers (Z.of_nat i)) node_changed in
            grow_shrink_grid_from neighbor_coords gs desired_state nodes (S remaining) (S i)
              (set_bit_write_buffer buffers (Z.of_nat i) wr', node_changed')).
    pose proof (grow_shrink_grid_nodes_all_changed neighbor_coords gs desired_state
                  (bit_read_buffer buffers (Z.of_nat i)) nodes
                  (bit_write_buffer buffers (Z.of_nat i)) node_changed Hlen) as H.
    destruct (grow_shrink_grid_nodes _ _ _ _ 0 nodes _ node_changed) as [wr' changed'].
    simpl in H. subst changed'. apply IH. by rewrite length_replicate.
Qed.

Lemma push_changed_from_all n : forall i undo,
  push_changed_from i (replicate n true) undo
  = undo ++ map (fun j => (j, HideVert)) (seq i n).
Proof.
  induction n as [|n IH]; intros i undo; simpl.
  - by rewrite app_nil_r.
  - by rewrite IH, <- app_assoc.
Qed.

(** With at least one iteration the grid filter pushes every node of the
    span, whatever the bits are and whatever changes. *)
Lemma grow_shrink_visibility_grid_pushes_every_node neighbor_coords (ob : GridObject)
    (action : VisAction) (iterations : nat) :
  0 < iterations ->
  go_undo (grow_shrink_visibility_grid neighbor_coords ob action iterations)
  = go_undo ob ++ push_every_node (length (go_nodes ob)).
Proof.
  intros Hit. destruct iterations as [|n]; [lia|].
  unfold grow_shrink_visibility_grid.
  pose proof (grow_shrink_grid_from_all_changed neighbor_coords (grid_size (go_ccg ob))
                (action_to_hide action) (go_nodes ob) n 0
                (mkDualBitBuffer (grid_hidden_ensure (go_ccg ob))
                   (grid_hidden_ensure (go_ccg ob)))
                (replicate (length (go_nodes ob)) false)
                ltac:(by rewrite length_replicate)) as H.
  destruct (grow_shrink_grid_from _ _ _ (go_nodes ob) (S n) 0 _) as [buffers1 changed1].
  simpl in H. subst changed1. simpl. apply push_changed_from_all.
Qed.

(** C2: on a grid object in which nothing is hidden, one SHRINK iteration
    changes no bit of the grid-hidden structure, whatever the neighbour
    query answers, and still pushes an undo step for the node and marks it
    dirty. *)
Theorem grow_shrink_visibility_grid_pushes_unchanged
    (neighbor_coords : SubdivCCGCoord -> list SubdivCCGCoord) :
  let ob' := grow_shrink_visibility_grid neighbor_coords visible_grid_object SHRINK 1 in
  grid_hidden (go_ccg ob') = grid_hidden (go_ccg visible_grid_object) /\
  go_undo ob' = [(0, HideVert)] /\
  map node_dirty (go_nodes ob') = [true].
Proof. repeat split. Qed.

(** *** Grow and shrink never move a vertex away from the target value *)

Section keeps_value.
Variable b : bool.

Lemma affect_corner_keeps face cv rd wr corner v :
  span_get wr v = b -> span_get (affect_corner b face cv rd wr corner) v = b.
Proof.
  intros H. unfold affect_corner.
  destruct (negb _); [done|]. by do 2 apply span_get_insert_keeps.
Qed.

Lemma affect_visibility_mesh_keeps face cv rd wr v :
  span_get wr v = b -> span_get (affect_visibility_mesh b face cv rd wr) v = b.
Proof.
  unfold affect_visibility_mesh.
  generalize (seq (range_start face) (range_size face)) as corners.
  intros corners. revert wr. induction corners as [|c corners IH]; intros wr H; [done|].
  simpl. apply IH. by apply affect_corner_keeps.
Qed.

End keeps_value.

Lemma propagate_faces_keeps action fs cv hp rd wr v :
  span_get wr v = action_to_hide action ->
  span_get (propagate_faces action fs cv hp rd wr) v = action_to_hide action.
Proof.
  unfold propagate_faces. generalize (seq 0 (length fs)) as face_indices.
  intros face_indices. revert wr.
  induction face_indices as [|f face_indices IH]; intros wr H; [done|].
  simpl. apply IH. destruct (negb (span_get hp f)); [done|].
  destruct action; by apply affect_visibility_mesh_keeps.
Qed.

Lemma propagate_from_keeps stored action hv remaining : forall i m buffers,
  (forall v, span_get hv v = action_to_hide action ->
             span_get (front buffers) v = action_to_hide action) ->
  (forall v, span_get hv v = action_to_hide action ->
             span_get (back buffers) v = action_to_hide action) ->
  let buffers' := (propagate_from stored action remaining i (m, buffers)).2 in
  forall v, span_get hv v = action_to_hide action ->
            span_get (front buffers') v = action_to_hide action /\
            span_get (back buffers') v = action_to_hide action.
Proof.
  induction remaining as [|remaining IH]; intros i m buffers Hf Hb; simpl.
  - intros v Hv. auto.
  - apply IH; unfold set_write_buffer, write_buffer;
      destruct (is_even_count (Z.of_nat i)); simpl; intros v Hv; auto;
      apply propagate_faces_keeps; auto.
Qed.

Lemma grow_shrink_visibility_mesh_keeps (ob : MeshObject) (action : VisAction)
    (iterations : nat) (v : nat) :
  span_get (hide_vert_span (mo_mesh ob)) v = action_to_hide action ->
  span_get (hide_vert_span (mo_mesh (grow_shrink_visibility_mesh ob action iterations))) v
  = action_to_hide action.
Proof.
  unfold grow_shrink_visibility_mesh.
  destruct (hide_vert (mo_mesh ob)) as [hv|] eqn:Ehv; [|done].
  unfold hide_vert_span at 1. rewrite Ehv. simpl. intros Hv.
  unfold propagate_vertex_visibility.
  pose proof (propagate_from_keeps (bool_decide (is_Some (hide_poly (mo_mesh ob)))) action hv
                iterations 0 (mo_mesh ob) (mkDualBuffer hv hv)) as Hk.
  destruct (propagate_from _ action iterations 0 _) as [m1 buffers1].
  simpl in *. destruct (Hk ltac:(auto) ltac:(auto) v Hv) as [Hf Hb].
  unfold hide_vert_span, write_buffer. simpl.
  by destruct (is_even_count _).
Qed.

(** C3 (as amended): whatever the mesh and the iteration count, the filter
    with the Show action (the operator's GROW item, which grows the visible
    region) leaves a hidden-vertex set included in the one before, and with the
    Hide action (the SHRINK item) leaves one that includes the one before. *)
Theorem grow_shrink_hidden_set_monotone (ob : MeshObject) (iterations : nat) :
  hidden_subset (hide_vert_span (mo_mesh (grow_shrink_visibility_mesh ob GROW iterations)))
                (hide_vert_span (mo_mesh ob)) /\
  hidden_subset (hide_vert_span (mo_mesh ob))
                (hide_vert_span (mo_mesh (grow_shrink_visibility_mesh ob SHRINK iterations))).
Proof.
  split; intros v Hv.
  - destruct (span_get (hide_vert_span (mo_mesh ob)) v) eqn:E; [done|].
    pose proof (grow_shrink_visibility_mesh_keeps ob Show iterations v E) as Hk.
    unfold GROW in Hv. simpl in Hk. congruence.
  - exact (grow_shrink_visibility_mesh_keeps ob Hide iterations v Hv).
Qed.

(** C3 (as stated) fails on one quad with vertex 0 hidden: after one GROW
    pass no vertex is hidden, so the set did not grow, and after one SHRINK
    pass the vertices 0, 1 and 3 are hidden, so it did not shrink. *)
Lemma grow_shrink_as_stated_fails :
  ~ hidden_subset (hide_vert_span (mo_mesh quad_object))
      (hide_vert_span (mo_mesh (grow_shrink_visibility_mesh quad_object GROW 1))) /\
  ~ hidden_subset
      (hide_vert_span (mo_mesh (grow_shrink_visibility_mesh quad_object SHRINK 1)))
      (hide_vert_span (mo_mesh quad_object)).
Proof.
  split; intros H.
  - specialize (H 0 eq_refl). vm_compute in H. discriminate.
  - specialize (H 1 eq_refl). vm_compute in H. discriminate.
Qed.

(** *** One propagation pass, vertex by vertex *)

Lemma affect_corner_length value face cv rd wr corner :
  length (affect_corner value face cv rd wr corner) = length wr.
Proof. unfold affect_corner. destruct (negb _); by rewrite ?length_insert. Qed.

Lemma affect_corner_get value face cv rd wr corner v :
  v < length wr ->
  span_get (affect_corner value face cv rd wr corner) v =
    if Bool.eqb (span_get rd (corner_vert cv corner)) value &&
       (Nat.eqb v (corner_vert cv (face_corner_prev face corner)) ||
        Nat.eqb v (corner_vert cv (face_corner_next face corner)))
    then value else span_get wr v.
Proof.
  intros Hv. unfold affect_corner.
  destruct (Bool.eqb (span_get rd (corner_vert cv corner)) value); simpl; [|done].
  rewrite !span_get_insert, length_insert.
  destruct (Nat.eqb_spec v (corner_vert cv (face_corner_prev face corner))) as [<-|Hp];
    destruct (Nat.eqb_spec v (corner_vert cv (face_corner_next face corner))) as [<-|Hn];
    simpl; repeat case_decide; try done; try lia; naive_solver.
Qed.

Lemma affect_visibility_mesh_length value face cv rd wr :
  length (affect_visibility_mesh value face cv rd wr) = length wr.
Proof.
  unfold affect_visibility_mesh.
  generalize (seq (range_start face) (range_size face)) as corners.
  intros corners. revert wr. induction corners as [|c corners IH]; intros wr; [done|].
  simpl. by rewrite IH, affect_corner_length.
Qed.

Lemma affect_visibility_mesh_get value face cv rd wr v :
  v < length wr ->
  span_get (affect_visibility_mesh value face cv rd wr) v =
    if next_to_value value face cv rd v then value else span_get wr v.
Proof.
  unfold affect_visibility_mesh, next_to_value.
  generalize (seq (range_start face) (range_size face)) as corners.
  intros corners. revert wr. induction corners as [|c corners IH]; intros wr Hv; [done|].
  simpl. rewrite IH by (by rewrite affect_corner_length).
  rewrite affect_corner_get by done.
  destruct (existsb _ corners); [by rewrite orb_true_r|].
  by rewrite orb_false_r.
Qed.

(** C4 (as amended): in one pass of the polygon-mesh filter the faces that are
    processed are the faces whose hidden flag is set, for the Hide and for the
    Show action alike; a vertex of the write buffer receives the target value
    when it is the predecessor or successor corner vertex of a corner of such
    a face whose vertex reads the target value, and keeps its value
    otherwise. *)
Theorem propagate_faces_get (action : VisAction) (fs : list IndexRange) (cv : list nat)
    (hp rd wr : list bool) (v : nat) :
  v < length wr ->
  span_get (propagate_faces action fs cv hp rd wr) v =
    if existsb (fun face_index =>
                  span_get hp face_index &&
                  next_to_value (action_to_hide action) (face_range fs face_index) cv rd v)
               (seq 0 (length fs))
    then action_to_hide action else span_get wr v.
Proof.
  unfold propagate_faces. generalize (seq 0 (length fs)) as face_indices.
  intros face_indices. revert wr.
  induction face_indices as [|f face_indices IH]; intros wr Hv; [done|].
  simpl. rewrite IH.
  - destruct (existsb _ face_indices); [by rewrite orb_true_r|].
    rewrite orb_false_r. destruct (span_get hp f); simpl; [|done].
    destruct action; by rewrite affect_visibility_mesh_get.
  - destruct (negb (span_get hp f)); [done|].
    destruct action; by rewrite affect_visibility_mesh_length.
Qed.

Lemma propagate_faces_get_witness :
  0 < length [true; false; false] /\
  span_get (propagate_faces Show [mkRange 0 3] [0; 1; 2] [true] [true; false; false]
              [true; false; false]) 0 =
    if existsb (fun face_index =>
                  span_get [true] face_index &&
                  next_to_value (action_to_hide Show)
                    (face_range [mkRange 0 3] face_index) [0; 1; 2] [true; false; false] 0)
               (seq 0 (length [mkRange 0 3]))
    then action_to_hide Show else span_get [true; false; false] 0.
Proof.
  split; [simpl; lia|].
  apply (propagate_faces_get Show [mkRange 0 3] [0; 1; 2] [true] [true; false; false]
           [true; false; false] 0).
  simpl; lia.
Defined.

(** C4 (as stated) fails for the Show action: on one hidden triangle whose
    vertex 0 is hidden the pass processes the face and shows vertex 0 (the
    buffer becomes all false), where the filter on visible faces would skip
    the face and leave the buffer as it was. *)
Lemma propagate_faces_as_stated_fails :
  propagate_faces Show [mkRange 0 3] [0; 1; 2] [true] [true; false; false]
    [true; false; false] <>
  propagate_faces_as_stated Show [mkRange 0 3] [0; 1; 2] [true] [true; false; false]
    [true; false; false].
Proof. vm_compute. discriminate. Qed.

(** *** Consistency of the face and edge flags *)

Lemma mesh_face_hide_from_vert_get fs cv hv f :
  f < length fs ->
  span_get (mesh_face_hide_from_vert fs cv hv) f = face_any_hidden fs cv hv f.
Proof.
  intros Hf. unfold span_get, mesh_face_hide_from_vert.
  rewrite list_lookup_fmap, lookup_seq_lt by done. done.
Qed.

Lemma mesh_edge_hide_from_vert_get es hv e a b :
  es !! e = Some (a, b) ->
  span_get (mesh_edge_hide_from_vert es hv) e = span_get hv a || span_get hv b.
Proof.
  intros He. unfold span_get at 1, mesh_edge_hide_from_vert.
  rewrite list_lookup_fmap, He. done.
Qed.

(** A mesh whose face and edge attributes were both recomputed from its
    vertex flags is consistent. *)
Lemma flushed_mesh_consistent (m : Mesh) :
  hide_poly m
    = Some (mesh_face_hide_from_vert (faces m) (corner_verts m) (hide_vert_span m)) ->
  hide_edge m = Some (mesh_edge_hide_from_vert (edges m) (hide_vert_span m)) ->
  mesh_consistent m.
Proof.
  intros Hp He. split.
  - intros f Hf. unfold hide_poly_span. rewrite Hp. simpl.
    by apply mesh_face_hide_from_vert_get.
  - intros e a b Hl. unfold hide_edge_span. rewrite He. simpl.
    by apply mesh_edge_hide_from_vert_get.
Qed.

Lemma vert_hide_update_loop_unchanged calc_hide nodes : forall i hv undo c,
  let r := vert_hide_update_loop calc_hide i nodes hv undo c in
  r.2 = false -> c = false /\ r.1.1 = hv /\ r.1.2 = undo.
Proof.
  induction nodes as [|node rest IH]; intros i hv undo c; simpl; [done|].
  destruct (indexed_data_equal hv (node_unique_verts node) _).
  - apply IH.
  - intros H. by destruct (IH _ _ _ _ H).
Qed.

Lemma face_any_hidden_ext fs cv hv hv' f :
  (forall v, v ∈ slice cv (face_range fs f) -> span_get hv' v = span_get hv v) ->
  face_any_hidden fs cv hv' f = face_any_hidden fs cv hv f.
Proof.
  unfold face_any_hidden. generalize (slice cv (face_range fs f)) as corners.
  intros corners H. induction corners as [|v corners IH]; [done|].
  cbn [existsb]. rewrite (H v) by (apply elem_of_cons; by left).
  rewrite IH; [done|]. intros w Hw. apply H. apply elem_of_cons. by right.
Qed.

Lemma vert_hide_update_hide_vert_span calc_hide (ob : MeshObject) :
  hide_vert_span (mo_mesh (vert_hide_update ob calc_hide))
  = (vert_hide_update_loop calc_hide 0 (mo_nodes ob) (hide_vert_span (mo_mesh ob))
       (mo_undo ob) false).1.1.
Proof.
  unfold vert_hide_update.
  destruct (vert_hide_update_loop calc_hide 0 (mo_nodes ob) (hide_vert_span (mo_mesh ob))
              (mo_undo ob) false) as [[hv' undo'] changed].
  destruct changed; [|done].
  unfold flush_face_changes_node.
  destruct (flush_face_changes_node_loop _ _ hv' (mo_nodes ob) _) as [hp' nodes'].
  done.
Qed.

Lemma vert_hide_update_consistent calc_hide (ob : MeshObject) :
  mesh_consistent (mo_mesh ob) ->
  length (hide_poly_span (mo_mesh ob)) = length (faces (mo_mesh ob)) ->
  changed_faces_in_span (mo_mesh ob) (mo_mesh (vert_hide_update ob calc_hide)) (mo_nodes ob) ->
  mesh_consistent (mo_mesh (vert_hide_update ob calc_hide)).
Proof.
  intros [Hfc Hec] Hlen Hcover. unfold changed_faces_in_span in Hcover.
  rewrite vert_hide_update_hide_vert_span in Hcover. unfold vert_hide_update.
  pose proof (vert_hide_update_loop_unchanged calc_hide (mo_nodes ob) 0
                (hide_vert_span (mo_mesh ob)) (mo_undo ob) false) as Hsame.
  destruct (vert_hide_update_loop calc_hide 0 (mo_nodes ob) (hide_vert_span (mo_mesh ob))
              (mo_undo ob) false) as [[hv' undo'] changed].
  cbn [fst snd] in Hsame, Hcover. destruct changed.
  - unfold flush_face_changes_node. cbn [faces corner_verts set_hide_vert].
    pose proof (flush_face_changes_node_loop_spec (faces (mo_mesh ob))
                  (corner_verts (mo_mesh ob)) hv' (mo_nodes ob)
                  (hide_poly_span (mo_mesh ob))) as Hface.
    change (hide_poly_span (set_hide_vert (mo_mesh ob) (Some hv')))
      with (hide_poly_span (mo_mesh ob)).
    destruct (flush_face_changes_node_loop (faces (mo_mesh ob)) (corner_verts (mo_mesh ob))
                hv' (mo_nodes ob) (hide_poly_span (mo_mesh ob))) as [hp' nodes'].
    simpl in Hface. destruct Hface as (_ & Hget & _). simpl. split.
    + intros f Hf. simpl in Hf.
      change (span_get hp' f
              = face_any_hidden (faces (mo_mesh ob)) (corner_verts (mo_mesh ob)) hv' f).
      rewrite Hget.
      destruct (decide (f ∈ concat (map node_face_indices (mo_nodes ob))
                        /\ f < length (hide_poly_span (mo_mesh ob)))) as [_|Hout]; [done|].
      rewrite (Hfc f Hf). symmetry. apply face_any_hidden_ext. intros v Hv.
      destruct (bool_decide (span_get hv' v = span_get (hide_vert_span (mo_mesh ob)) v))
        eqn:E; [by apply bool_decide_eq_true_1 in E|].
      apply bool_decide_eq_false_1 in E. destruct Hout.
      split; [by apply (Hcover f v) | lia].
    + intros e a b Hl. simpl in Hl.
      change (span_get (mesh_edge_hide_from_vert (edges (mo_mesh ob)) hv') e
              = span_get hv' a || span_get hv' b).
      by apply mesh_edge_hide_from_vert_get.
  - destruct (Hsame eq_refl) as (_ & -> & _). simpl. split.
    + intros f Hf. apply (Hfc f Hf).
    + intros e a b Hl. apply (Hec e a b Hl).
Qed.

Lemma mesh_show_all_consistent (ob : MeshObject) :
  mesh_consistent (mo_mesh (mesh_show_all ob)).
Proof.
  unfold mesh_show_all.
  destruct (match hide_vert (mo_mesh ob) with
            | Some hv => mesh_show_all_loop hv 0 (mo_nodes ob) (mo_undo ob)
            | None => (mo_nodes ob, mo_undo ob)
            end) as [nodes1 undo].
  simpl. by apply flushed_mesh_consistent.
Qed.

(** *** The filter leaves the face flags flushed from the last buffer *)

Lemma write_buffer_set buffers count wr :
  write_buffer (set_write_buffer buffers count wr) count = wr.
Proof. unfold write_buffer, set_write_buffer. by destruct (is_even_count count). Qed.

Lemma propagate_from_spec stored action remaining : forall i m buffers,
  let r := propagate_from stored action (S remaining) i (m, buffers) in
  faces r.1 = faces m /\ corner_verts r.1 = corner_verts m /\ edges r.1 = edges m /\
  hide_poly r.1 =
    Some (mesh_face_hide_from_vert (faces m) (corner_verts m)
            (write_buffer r.2 (Z.of_nat (i + remaining)))).
Proof.
  induction remaining as [|remaining IH]; intros i m buffers.
  - simpl. rewrite Nat.add_0_r, write_buffer_set. done.
  - change (propagate_from stored action (S (S remaining)) i (m, buffers))
      with (propagate_from stored action (S remaining) (S i)
              (propagate_step stored action i (m, buffers))).
    destruct (propagate_step stored action i (m, buffers)) as [m1 b1] eqn:Es.
    assert (faces m1 = faces m /\ corner_verts m1 = corner_verts m /\ edges m1 = edges m)
      as (Hf & Hc & He).
    { unfold propagate_step in Es. injection Es as <- <-. done. }
    specialize (IH (S i) m1 b1). cbv zeta in IH. rewrite Hf, Hc, He in IH.
    replace (i + S remaining) with (S i + remaining) by lia.
    exact IH.
Qed.

Lemma grow_shrink_visibility_mesh_consistent (ob : MeshObject) (action : VisAction)
    (iterations : nat) :
  mesh_consistent (mo_mesh ob) ->
  mesh_consistent (mo_mesh (grow_shrink_visibility_mesh ob action iterations)).
Proof.
  intros Hc. unfold grow_shrink_visibility_mesh.
  destruct (hide_vert (mo_mesh ob)) as [hv|] eqn:Ehv; [|done].
  unfold propagate_vertex_visibility.
  destruct iterations as [|n].
  - simpl. destruct Hc as [Hfc Hec]. split.
    + intros f Hf. simpl in Hf. specialize (Hfc f Hf).
      unfold hide_vert_span in Hfc. rewrite Ehv in Hfc. exact Hfc.
    + intros e a b Hl. by apply mesh_edge_hide_from_vert_get.
  - pose proof (propagate_from_spec (bool_decide (is_Some (hide_poly (mo_mesh ob)))) action
                  n 0 (mo_mesh ob) (mkDualBuffer hv hv)) as Hp.
    destruct (propagate_from _ action (S n) 0 (mo_mesh ob, mkDualBuffer hv hv))
      as [m1 buffers1].
    simpl in Hp. destruct Hp as (Hf & Hcv & He & Hhp).
    replace (Z.of_nat (S n) - 1)%Z with (Z.of_nat n) by lia.
    apply flushed_mesh_consistent; simpl.
    + by rewrite Hhp, Hf, Hcv.
    + by rewrite He.
Qed.


(** C5 (as amended): a polygon mesh whose face and edge flags are consistent
    with its vertex flags is consistent again after every core operation other
    than invert: for every face the flag is the OR of the corner vertices'
    flags and for every edge the OR of the endpoints' flags.  Show-all and the
    grow/shrink filter need nothing of the node span.  The updates that
    recompute the face flags node by node (hide-all, masked, gesture) need
    that every face with a corner vertex whose flag the update changes is in
    the face list of a node of the span: a span that owns every face, or a
    partial span that holds the nodes of all the faces around the changed
    vertices. *)
Theorem mesh_ops_keep_consistent (op : MeshOp) (ob : MeshObject) :
  op <> OpVisibilityInvert ->
  mesh_consistent (mo_mesh ob) ->
  length (hide_poly_span (mo_mesh ob)) = length (faces (mo_mesh ob)) ->
  (flushes_node_faces op = true ->
   changed_faces_in_span (mo_mesh ob) (mo_mesh (apply_mesh_op op ob)) (mo_nodes ob)) ->
  mesh_consistent (mo_mesh (apply_mesh_op op ob)).
Proof.
  intros Hop Hc Hlen Hcover.
  destruct op as [action|action|is_affected action|action iterations|].
  - cbn [apply_mesh_op] in *. unfold partialvis_all_update_mesh in *.
    destruct action.
    + apply vert_hide_update_consistent; [done | done |].
      destruct (hide_vert (mo_mesh ob)); by apply Hcover.
    + destruct (hide_vert (mo_mesh ob)); [apply mesh_show_all_consistent | done].
  - cbn [apply_mesh_op flushes_node_faces] in *. specialize (Hcover eq_refl).
    unfold partialvis_masked_update_mesh in *.
    destruct action, (hide_vert (mo_mesh ob)), (default [] (sculpt_mask (mo_mesh ob)));
      try done; try apply mesh_show_all_consistent;
      by apply vert_hide_update_consistent.
  - cbn [apply_mesh_op flushes_node_faces] in *. specialize (Hcover eq_refl).
    unfold partialvis_gesture_update_mesh in *.
    destruct action, (hide_vert (mo_mesh ob)); try done;
      by apply vert_hide_update_consistent.
  - by apply grow_shrink_visibility_mesh_consistent.
  - done.
Qed.

Lemma two_face_mesh_consistent : mesh_consistent two_face_mesh.
Proof.
  split.
  - intros f Hf. simpl in Hf. destruct f as [|[|f]]; [reflexivity.. | lia].
  - intros e a b He. destruct e as [|[|[|[|[|e]]]]]; simpl in He;
      try (injection He as <- <-; reflexivity). discriminate.
Qed.

(** A gesture on the partial span that shows the vertex 0, a corner of the
    face A only. *)
Lemma mesh_ops_keep_consistent_witness :
  OpHideShowGesture (Nat.eqb 0) Show <> OpVisibilityInvert /\
  mesh_consistent (mo_mesh two_face_partial_object) /\
  length (hide_poly_span (mo_mesh two_face_partial_object))
    = length (faces (mo_mesh two_face_partial_object)) /\
  (flushes_node_faces (OpHideShowGesture (Nat.eqb 0) Show) = true ->
   changed_faces_in_span (mo_mesh two_face_partial_object)
     (mo_mesh (apply_mesh_op (OpHideShowGesture (Nat.eqb 0) Show) two_face_partial_object))
     (mo_nodes two_face_partial_object)) /\
  hide_vert (mo_mesh (apply_mesh_op (OpHideShowGesture (Nat.eqb 0) Show)
                        two_face_partial_object))
    = Some [false; false; false; false] /\
  mesh_consistent (mo_mesh (apply_mesh_op (OpHideShowGesture (Nat.eqb 0) Show)
                              two_face_partial_object)).
Proof.
  assert (H1 : OpHideShowGesture (Nat.eqb 0) Show <> OpVisibilityInvert) by discriminate.
  assert (H4 : flushes_node_faces (OpHideShowGesture (Nat.eqb 0) Show) = true ->
               changed_faces_in_span (mo_mesh two_face_partial_object)
                 (mo_mesh (apply_mesh_op (OpHideShowGesture (Nat.eqb 0) Show)
                             two_face_partial_object))
                 (mo_nodes two_face_partial_object)).
  { intros _ f v Hf Hv Hne. destruct f as [|[|f]]; [| |simpl in Hf; lia].
    - apply elem_of_cons. by left.
    - exfalso. vm_compute in Hv.
      apply elem_of_cons in Hv as [->|Hv]; [by apply Hne|].
      apply elem_of_cons in Hv as [->|Hv]; [by apply Hne|].
      apply elem_of_cons in Hv as [->|Hv]; [by apply Hne|].
      by apply elem_of_nil in Hv. }
  split; [exact H1|]. split; [exact two_face_mesh_consistent|]. split; [reflexivity|].
  split; [exact H4|]. split; [reflexivity|].
  exact (mesh_ops_keep_consistent (OpHideShowGesture (Nat.eqb 0) Show) two_face_partial_object
           H1 two_face_mesh_consistent eq_refl H4).
Defined.

(** Whatever vertex flags a flush may derive, no choice of them is consistent
    with the toggled face flags of the strip: A and C visible force the
    vertices 0 to 4 visible, and B hidden needs one of 1, 2, 3 hidden. *)
Lemma strip_toggled_faces_inconsistent (hv : list bool) :
  ~ faces_consistent
      (set_hide_vert (set_hide_poly strip_mesh (Some [false; true; false])) (Some hv)).
Proof.
  intros H.
  pose proof (H 0 ltac:(simpl; lia)) as H0.
  pose proof (H 1 ltac:(simpl; lia)) as H1.
  pose proof (H 2 ltac:(simpl; lia)) as H2.
  cbv [hide_poly_span hide_vert_span lookup_or_add set_hide_vert set_hide_poly strip_mesh
       hide_poly hide_vert faces corner_verts face_any_hidden face_range slice] in H0, H1, H2.
  simpl in H0, H1, H2.
  change (span_get [false; true; false] 0) with false in H0.
  change (span_get [false; true; false] 1) with true in H1.
  change (span_get [false; true; false] 2) with false in H2.
  destruct (span_get hv 0), (span_get hv 1), (span_get hv 2), (span_get hv 3),
    (span_get hv 4); simpl in *; discriminate.
Qed.

(** Invert on the strip: the mesh is consistent before, its node owns every
    face, and after invert the face B is hidden while its three corner
    vertices are visible. *)
Lemma invert_breaks_consistency :
  mesh_consistent (mo_mesh strip_object) /\
  ~ mesh_consistent (mo_mesh (apply_mesh_op OpVisibilityInvert strip_object)).
Proof.
  split.
  - split.
    + intros f Hf. simpl in Hf. destruct f as [|[|[|f]]]; [reflexivity.. | lia].
    + intros e a b He. destruct e as [|[|[|[|[|[|[|e]]]]]]]; simpl in He;
        try (injection He as <- <-; reflexivity). discriminate.
  - intros [Hf _]. specialize (Hf 1 ltac:(simpl; lia)).
    vm_compute in Hf. discriminate.
Qed.

(** C5 (as stated) fails in two ways.  For invert: the strip is consistent
    before, its node owns every face, and after invert the face B is hidden
    while its three corner vertices are visible.  For a gesture on a partial
    span: the two triangles are consistent before, the span holds the node of
    the face A only, and hiding the vertex 1 (a unique vertex of that node and
    a corner of both faces) recomputes the flag of A and leaves the flag of B
    visible although its corner 1 is now hidden. *)
Lemma mesh_ops_as_stated_fail :
  (mesh_consistent (mo_mesh strip_object) /\
   ~ mesh_consistent (mo_mesh (apply_mesh_op OpVisibilityInvert strip_object))) /\
  (mesh_consistent (mo_mesh two_face_partial_object) /\
   hide_vert (mo_mesh (apply_mesh_op (OpHideShowGesture (Nat.eqb 1) Hide)
                         two_face_partial_object))
     = Some [true; true; false; false] /\
   hide_poly (mo_mesh (apply_mesh_op (OpHideShowGesture (Nat.eqb 1) Hide)
                         two_face_partial_object))
     = Some [true; false] /\
   ~ mesh_consistent (mo_mesh (apply_mesh_op (OpHideShowGesture (Nat.eqb 1) Hide)
                                 two_face_partial_object))).
Proof.
  split; [exact invert_breaks_consistency|].
  split; [exact two_face_mesh_consistent|]. split; [reflexivity|]. split; [reflexivity|].
  intros [Hf _]. specialize (Hf 1 ltac:(simpl; lia)).
  vm_compute in Hf. discriminate.
Qed.

(** *** Show all, twice *)

Lemma mesh_show_all_hide_vert ob : hide_vert (mo_mesh (mesh_show_all ob)) = None.
Proof.
  unfold mesh_show_all. destruct (hide_vert (mo_mesh ob)) as [hv|]; [|done].
  by destruct (mesh_show_all_loop hv 0 (mo_nodes ob) (mo_undo ob)).
Qed.

Lemma grids_show_all_not_allocated ob :
  grid_hidden (go_ccg ob) = [] -> grids_show_all ob = ob.
Proof. intros H. unfold grids_show_all. by rewrite H. Qed.

Lemma grids_show_all_cases ob :
  grids_show_all ob = ob \/ grid_hidden (go_ccg (grids_show_all ob)) = [].
Proof.
  unfold grids_show_all. destruct (grid_hidden (go_ccg ob)) as [|bits gh]; [by left|].
  destruct (grids_show_all_loop (bits :: gh) 0 (go_nodes ob) (go_undo ob) false)
    as [[nodes1 undo] any_changed].
  destruct any_changed; [by right | by left].
Qed.


(** C6 (as amended): on the polygon mesh and on grids a second show-all leaves
    the whole object (attributes, node flags, undo log) as the first one left
    it, so it pushes nothing; on dynamic topology the second show-all leaves
    every vertex flag as the first one left it and pushes one undo step for
    every node of the span. *)
Theorem show_all_twice (paint : list bool -> nat -> bool) (mesh_ob : MeshObject)
    (grid_ob : GridObject) (bm_ob : BMObject) :
  hide_show_all_exec paint (hide_show_all_exec paint (PBVH_FACES mesh_ob) Show) Show
    = hide_show_all_exec paint (PBVH_FACES mesh_ob) Show /\
  hide_show_all_exec paint (hide_show_all_exec paint (PBVH_GRIDS grid_ob) Show) Show
    = hide_show_all_exec paint (PBVH_GRIDS grid_ob) Show /\
  (let first := partialvis_all_update_bmesh paint bm_ob Show in
   let second := partialvis_all_update_bmesh paint first Show in
   vert_hidden (bo_bm second) = vert_hidden (bo_bm first) /\
   bo_undo second = bo_undo first ++ push_every_node (length (bo_nodes bm_ob))).
Proof.
  split; [|split].
  - simpl. f_equal. unfold partialvis_all_update_mesh.
    destruct (hide_vert (mo_mesh mesh_ob)) eqn:E.
    + by rewrite mesh_show_all_hide_vert.
    + by rewrite E.
  - simpl. f_equal.
    destruct (grids_show_all_cases grid_ob) as [H|H].
    + by rewrite !H.
    + by apply grids_show_all_not_allocated.
  - unfold partialvis_all_update_bmesh, partialvis_update_bmesh_nodes.
    pose proof (partialvis_update_bmesh_nodes_from_spec paint Show (fun _ => true)
                  (bo_nodes bm_ob) 0 (bo_bm bm_ob) (bo_undo bm_ob)) as H1.
    destruct (partialvis_update_bmesh_nodes_from paint Show (fun _ => true) 0
                (bo_nodes bm_ob) (bo_bm bm_ob) (bo_undo bm_ob)) as [[bm1 nodes1] undo1].
    simpl in H1. destruct H1 as (Hv1 & Hu1 & Hn1 & Hl1).
    pose proof (partialvis_update_bmesh_nodes_from_spec paint Show (fun _ => true)
                  nodes1 0 bm1 undo1) as H2.
    simpl. destruct (partialvis_update_bmesh_nodes_from paint Show (fun _ => true) 0
                       nodes1 bm1 undo1) as [[bm2 nodes2] undo2].
    simpl in *. destruct H2 as (Hv2 & Hu2 & _ & _).
    split.
    + rewrite Hv2, Hn1, Hv1.
      exact (foldl_set_twice (fun _ => true) false _ (vert_hidden (bo_bm bm_ob))).
    + rewrite Hu2, Hl1. done.
Qed.

(** C6 (as stated) fails on dynamic topology: the second show-all on an
    object with one node pushes an undo step for that node. *)
Lemma show_all_twice_as_stated_fails :
  sculpt_undo (hide_show_all_exec (fun _ _ => false)
                 (hide_show_all_exec (fun _ _ => false) (PBVH_BMESH bm_object) Show) Show)
  <> sculpt_undo (hide_show_all_exec (fun _ _ => false) (PBVH_BMESH bm_object) Show).
Proof. vm_compute. discriminate. Qed.

(** *** Masked hide with a mask that is zero everywhere *)

(** C7 (as amended): with a mask that exists and is zero everywhere, masked
    hide on the polygon mesh and on grids pushes no undo step, touches no
    node and leaves every hidden flag as it was (an attribute or bit structure
    that was not stored is created all-visible); on dynamic topology it
    leaves every vertex flag as it was and pushes one undo step for every
    node of the span. *)
Theorem masked_hide_zero_mask (paint : list bool -> nat -> bool) (mesh_ob : MeshObject)
    (grid_ob : GridObject) (bm_ob : BMObject) (mask : list Q) :
  sculpt_mask (mo_mesh mesh_ob) = Some mask ->
  mask_all_zero mask ->
  has_mask (go_ccg grid_ob) = true ->
  Forall mask_all_zero (grid_mask (go_ccg grid_ob)) ->
  mask_all_zero (vert_mask (bo_bm bm_ob)) ->
  (let ob' := partialvis_masked_update_mesh mesh_ob Hide in
   mo_undo ob' = mo_undo mesh_ob /\ mo_nodes ob' = mo_nodes mesh_ob /\
   hide_vert_span (mo_mesh ob') = hide_vert_span (mo_mesh mesh_ob) /\
   hide_edge (mo_mesh ob') = hide_edge (mo_mesh mesh_ob) /\
   hide_poly (mo_mesh ob') = hide_poly (mo_mesh mesh_ob)) /\
  (let ob' := partialvis_masked_update_grids grid_ob Hide in
   go_undo ob' = go_undo grid_ob /\ go_nodes ob' = go_nodes grid_ob /\
   go_calls ob' = go_calls grid_ob /\
   grid_hidden (go_ccg ob') = grid_hidden_ensure (go_ccg grid_ob)) /\
  (let ob' := partialvis_masked_update_bmesh paint bm_ob Hide in
   vert_hidden (bo_bm ob') = vert_hidden (bo_bm bm_ob) /\
   bo_undo ob' = bo_undo bm_ob ++ push_every_node (length (bo_nodes bm_ob))).
Proof.
  intros Hmask Hzero Hhas Hgrid Hbm. split; [|split].
  - unfold partialvis_masked_update_mesh. rewrite Hmask. simpl.
    destruct mask as [|q mask]; [done|].
    unfold vert_hide_update.
    rewrite vert_hide_update_loop_no_match
      by (intros v; by apply mask_above_half_zero).
    done.
  - unfold partialvis_masked_update_grids. rewrite Hhas. simpl.
    unfold grid_hide_update.
    rewrite grid_hide_update_loop_no_change; [done|].
    intros g bits. apply calc_hide_grid_where_no_match.
    intros elem. unfold grid_mask_above_half. apply mask_above_half_zero.
    destruct (grid_mask (go_ccg grid_ob) !! g) as [m|] eqn:E; simpl.
    + rewrite Forall_forall in Hgrid. apply Hgrid. apply list_elem_of_lookup. eauto.
    + constructor.
  - unfold partialvis_masked_update_bmesh, partialvis_update_bmesh_nodes.
    pose proof (partialvis_update_bmesh_nodes_from_spec paint Hide
                  (mask_above_half (vert_mask (bo_bm bm_ob)))
                  (bo_nodes bm_ob) 0 (bo_bm bm_ob) (bo_undo bm_ob)) as H1.
    destruct (partialvis_update_bmesh_nodes_from paint Hide _ 0
                (bo_nodes bm_ob) (bo_bm bm_ob) (bo_undo bm_ob)) as [[bm1 nodes1] undo1].
    simpl in *. destruct H1 as (Hv1 & Hu1 & _ & _).
    split; [|done]. rewrite Hv1. apply foldl_same.
    intros vh v. by rewrite mask_above_half_zero.
Qed.


Lemma masked_hide_zero_mask_witness :
  sculpt_mask (mo_mesh masked_quad_object) = Some [0%Q; 0%Q; 0%Q; 0%Q] /\
  mask_all_zero [0%Q; 0%Q; 0%Q; 0%Q] /\
  has_mask (go_ccg visible_grid_object) = true /\
  Forall mask_all_zero (grid_mask (go_ccg visible_grid_object)) /\
  mask_all_zero (vert_mask (bo_bm bm_object)) /\
  mo_undo (partialvis_masked_update_mesh masked_quad_object Hide) = [] /\
  go_undo (partialvis_masked_update_grids visible_grid_object Hide) = [] /\
  bo_undo (partialvis_masked_update_bmesh (fun _ _ => false) bm_object Hide)
    = [(0, HideVert)].
Proof.
  assert (Hz4 : mask_all_zero [0%Q; 0%Q; 0%Q; 0%Q]) by (repeat constructor).
  assert (Hz3 : mask_all_zero (vert_mask (bo_bm bm_object))) by (repeat constructor).
  assert (Hg : Forall mask_all_zero (grid_mask (go_ccg visible_grid_object)))
    by (repeat constructor).
  pose proof (masked_hide_zero_mask (fun _ _ => false) masked_quad_object visible_grid_object
                bm_object [0%Q; 0%Q; 0%Q; 0%Q] eq_refl Hz4 eq_refl Hg Hz3) as H.
  destruct H as ((Hm & _) & (Hgr & _) & (_ & Hb)).
  split; [reflexivity|]. split; [exact Hz4|]. split; [reflexivity|].
  split; [exact Hg|]. split; [exact Hz3|]. split; [exact Hm|]. split; [exact Hgr|].
  exact Hb.
Defined.

(** C7 (as stated) fails on dynamic topology: with a zero mask, masked hide on
    an object with one node still pushes an undo step for that node. *)
Lemma masked_hide_zero_mask_as_stated_fails :
  mask_all_zero (vert_mask (bo_bm bm_object)) /\
  sculpt_undo (hide_show_masked_exec (fun _ _ => false) (PBVH_BMESH bm_object) Hide)
  <> sculpt_undo (PBVH_BMESH bm_object).
Proof. split; [repeat constructor | vm_compute; discriminate]. Qed.

(** *** Invert on the polygon mesh *)


Lemma toggle_faces_length node_faces : forall hp,
  length (toggle_faces node_faces hp) = length hp.
Proof.
  induction node_faces as [|f l IH]; intros hp; [done|].
  unfold toggle_faces in *. simpl. by rewrite IH, length_insert.
Qed.

Lemma toggle_faces_get node_faces : forall hp k,
  NoDup node_faces ->
  span_get (toggle_faces node_faces hp) k =
    if decide (k ∈ node_faces /\ k < length hp)
    then negb (span_get hp k) else span_get hp k.
Proof.
  induction node_faces as [|f l IH]; intros hp k Hnd.
  - change (toggle_faces [] hp) with hp.
    destruct (decide (k ∈ [] /\ k < length hp)) as [[H _]|H]; [|done].
    by apply elem_of_nil in H.
  - apply NoDup_cons in Hnd as [Hf Hnd].
    change (toggle_faces (f :: l) hp)
      with (toggle_faces l (<[f := negb (span_get hp f)]> hp)).
    rewrite IH by done. rewrite length_insert, span_get_insert.
    destruct (decide (k ∈ l /\ k < length hp)) as [[H1 H2]|H1];
      destruct (decide (k = f /\ f < length hp)) as [[H3 H4]|H3];
      destruct (decide (k ∈ f :: l /\ k < length hp)) as [[H5 H6]|H5];
      try done.
    + subst. by destruct Hf.
    + subst. by destruct Hf.
    + destruct H5. split; [by apply elem_of_cons; right | done].
    + by subst.
    + destruct H5. subst. split; [by apply elem_of_cons; left | done].
    + apply elem_of_cons in H5 as [->|H5]; [destruct H3 | destruct H1]; auto.
Qed.

Lemma toggle_faces_app l1 l2 hp :
  toggle_faces (l1 ++ l2) hp = toggle_faces l2 (toggle_faces l1 hp).
Proof. unfold toggle_faces. by rewrite foldl_app. Qed.

Lemma invert_visibility_mesh_loop_spec nodes : forall i hp undo,
  invert_visibility_mesh_loop i nodes hp undo =
    (toggle_faces (concat (map node_face_indices nodes)) hp,
     map mark_update_visibility nodes,
     undo ++ map (fun j => (j, HideFace)) (seq i (length nodes))).
Proof.
  induction nodes as [|node rest IH]; intros i hp undo; simpl.
  - by rewrite app_nil_r.
  - rewrite IH, toggle_faces_app, <- app_assoc. done.
Qed.

(** C8: when the face lists of the nodes partition the faces of the mesh,
    invert gives every face the negation of its hidden flag, written directly
    to the face attribute, and the vertex and edge flags of the result are
    those that the face-to-vertex flush derives from the toggled face
    flags. *)
Theorem invert_visibility_mesh_toggles (ob : MeshObject) :
  NoDup (concat (map node_face_indices (mo_nodes ob))) ->
  (forall f, f < length (faces (mo_mesh ob)) ->
             f ∈ concat (map node_face_indices (mo_nodes ob))) ->
  length (hide_poly_span (mo_mesh ob)) = length (faces (mo_mesh ob)) ->
  hide_poly (mo_mesh (invert_visibility_mesh ob))
    = Some (map negb (hide_poly_span (mo_mesh ob))) /\
  mo_mesh (invert_visibility_mesh ob)
    = mesh_hide_face_flush
        (set_hide_poly (mo_mesh ob) (Some (map negb (hide_poly_span (mo_mesh ob))))).
Proof.
  intros Hnd Hcover Hlen. unfold invert_visibility_mesh.
  rewrite invert_visibility_mesh_loop_spec. simpl.
  assert (toggle_faces (concat (map node_face_indices (mo_nodes ob)))
            (hide_poly_span (mo_mesh ob)) = map negb (hide_poly_span (mo_mesh ob))) as ->.
  { apply span_ext.
    - by rewrite toggle_faces_length, length_map.
    - intros k. rewrite toggle_faces_get by done.
      unfold span_get at 3. rewrite list_lookup_fmap.
      destruct (decide _) as [H|H].
      + unfold span_get. destruct H as [_ H].
        apply lookup_lt_is_Some_2 in H as [x ->]. done.
      + assert (length (hide_poly_span (mo_mesh ob)) <= k) as Hk.
        { destruct (decide (k < length (hide_poly_span (mo_mesh ob)))); [|lia].
          exfalso. apply H. split; [|done]. apply Hcover. lia. }
        rewrite span_get_ge by done. by rewrite lookup_ge_None_2. }
  done.
Qed.

Lemma invert_visibility_mesh_toggles_witness :
  NoDup (concat (map node_face_indices (mo_nodes two_face_object))) /\
  (forall f, f < length (faces (mo_mesh two_face_object)) ->
             f ∈ concat (map node_face_indices (mo_nodes two_face_object))) /\
  length (hide_poly_span (mo_mesh two_face_object))
    = length (faces (mo_mesh two_face_object)) /\
  hide_poly (mo_mesh (invert_visibility_mesh two_face_object)) = Some [false; true].
Proof.
  assert (H2 : forall f, f < length (faces (mo_mesh two_face_object)) ->
                         f ∈ concat (map node_face_indices (mo_nodes two_face_object))).
  { intros f Hf. simpl in *. destruct f as [|[|f]]; [set_solver | set_solver | lia]. }
  assert (H1 : NoDup (concat (map node_face_indices (mo_nodes two_face_object)))).
  { simpl. compute_done. }
  split; [exact H1|]. split; [exact H2|]. split; [reflexivity|].
  exact (proj1 (invert_visibility_mesh_toggles two_face_object H1 H2 eq_refl)).
Defined.

(** *** Show all *)

Lemma span_get_replicate_false (n v : nat) : span_get (replicate n false) v = false.
Proof.
  unfold span_get. destruct (replicate n false !! v) as [b|] eqn:E; [|done].
  apply lookup_replicate in E as [-> _]. done.
Qed.

Lemma map_all_false {A : Type} (f : A -> bool) (l : list A) :
  (forall x, f x = false) -> map f l = replicate (length l) false.
Proof.
  intros H. induction l as [|x l IH]; [done|]. cbn [map length replicate].
  by rewrite H, IH.
Qed.

Lemma existsb_all_false {A : Type} (f : A -> bool) (l : list A) :
  (forall x, f x = false) -> existsb f l = false.
Proof.
  intros H. induction l as [|x l IH]; [done|]. cbn [existsb]. by rewrite H, IH.
Qed.

(** The modelled flush of a mesh without the vertex attribute: every edge and
    every face flag is false, and nothing else of the mesh changes. *)
Lemma mesh_hide_vert_flush_removed (m : Mesh) :
  mesh_hide_vert_flush (set_hide_vert m None)
  = mkMesh (verts_num m) (edges m) (faces m) (corner_verts m) None
      (Some (replicate (length (edges m)) false))
      (Some (replicate (length (faces m)) false)) (sculpt_mask m).
Proof.
  unfold mesh_hide_vert_flush, flush_face_changes, flush_edge_changes, set_hide_poly,
    set_hide_edge, set_hide_vert, hide_vert_span, lookup_or_add.
  cbn [verts_num edges faces corner_verts hide_vert hide_edge hide_poly sculpt_mask default].
  f_equal; f_equal.
  - unfold mesh_edge_hide_from_vert. apply map_all_false. intros e.
    by rewrite !span_get_replicate_false.
  - unfold mesh_face_hide_from_vert.
    rewrite (map_all_false _ (seq 0 (length (faces m)))), length_seq; [done|].
    intros f. unfold face_any_hidden. apply existsb_all_false. intros v.
    apply span_get_replicate_false.
Qed.

Lemma node_same_elements_cleared (nodes : list PBVHNode) :
  Forall2 node_same_elements nodes (map (fun node => fully_hidden_set node false) nodes).
Proof. induction nodes as [|node rest IH]; constructor; [by repeat split | exact IH]. Qed.

Lemma mesh_show_all_loop_elements hv nodes : forall i undo,
  Forall2 node_same_elements nodes
    (map (fun node => fully_hidden_set node false) (mesh_show_all_loop hv i nodes undo).1) /\
  exists pushes, (mesh_show_all_loop hv i nodes undo).2 = undo ++ pushes.
Proof.
  induction nodes as [|node rest IH]; intros i undo.
  - split; [constructor|]. exists []. cbn. by rewrite app_nil_r.
  - cbn [mesh_show_all_loop]. destruct (existsb (span_get hv) (node_verts node)).
    + destruct (IH (S i) (undo ++ [(i, HideVert)])) as (Hn & pushes & Hu).
      destruct (mesh_show_all_loop hv (S i) rest (undo ++ [(i, HideVert)])) as [rest' undo'].
      cbn [fst snd map] in *. split; [constructor; [by repeat split | exact Hn]|].
      exists ((i, HideVert) :: pushes). by rewrite Hu, <- app_assoc.
    + destruct (IH (S i) undo) as (Hn & pushes & Hu).
      destruct (mesh_show_all_loop hv (S i) rest undo) as [rest' undo'].
      cbn [fst snd map] in *. split; [constructor; [by repeat split | exact Hn]|].
      by exists pushes.
Qed.

Lemma grids_show_all_loop_elements gh nodes : forall i undo c,
  Forall2 node_same_elements nodes
    (map (fun node => fully_hidden_set node false)
         (grids_show_all_loop gh i nodes undo c).1.1) /\
  exists pushes, (grids_show_all_loop gh i nodes undo c).1.2 = undo ++ pushes.
Proof.
  induction nodes as [|node rest IH]; intros i undo c.
  - split; [constructor|]. exists []. cbn. by rewrite app_nil_r.
  - cbn [grids_show_all_loop]. destruct (existsb _ (node_grid_indices node)).
    + destruct (IH (S i) (undo ++ [(i, HideVert)]) true) as (Hn & pushes & Hu).
      destruct (grids_show_all_loop gh (S i) rest (undo ++ [(i, HideVert)]) true)
        as [[rest' undo'] c'].
      cbn [fst snd map] in *. split; [constructor; [by repeat split | exact Hn]|].
      exists ((i, HideVert) :: pushes). by rewrite Hu, <- app_assoc.
    + destruct (IH (S i) undo c) as (Hn & pushes & Hu).
      destruct (grids_show_all_loop gh (S i) rest undo c) as [[rest' undo'] c'].
      cbn [fst snd map] in *. split; [constructor; [by repeat split | exact Hn]|].
      by exists pushes.
Qed.

Lemma grids_show_all_loop_changed gh nodes : forall i undo c,
  (grids_show_all_loop gh i nodes undo c).2 =
    c || existsb (fun node => existsb (fun g => existsb id (grid_bits gh g))
                                      (node_grid_indices node)) nodes.
Proof.
  induction nodes as [|node rest IH]; intros i undo c; simpl.
  - by rewrite orb_false_r.
  - destruct (existsb _ (node_grid_indices node)); simpl.
    + specialize (IH (S i) (undo ++ [(i, HideVert)]) true).
      destruct (grids_show_all_loop gh (S i) rest _ true) as [[r u] c'].
      simpl in *. rewrite IH. by rewrite orb_true_r.
    + specialize (IH (S i) undo c).
      destruct (grids_show_all_loop gh (S i) rest undo c) as [[r u] c'].
      simpl in *. by rewrite IH.
Qed.

(** C9: show-all restores the "everything visible" state by releasing the
    storage, and it loses nothing else of the object.  On the polygon mesh it
    leaves no per-vertex hidden attribute (it is removed, not filled with
    false), through [mesh_show_all] and through the operator's polygon-mesh
    path: the mesh afterwards is the mesh before with that attribute removed
    and every edge and face flag false, every node lists the elements it
    listed before, and the undo log is the one before with the pushes
    appended.  On grids, whenever some bit of a grid of one of the nodes was
    set, the grid-hidden structure is released and the rest of the grid data,
    the nodes' element lists and the undo log are kept in the same way. *)
Theorem show_all_deallocates (mesh_ob : MeshObject) (grid_ob : GridObject) :
  (exists node g, node ∈ go_nodes grid_ob /\ g ∈ node_grid_indices node /\
                  true ∈ grid_bits (grid_hidden (go_ccg grid_ob)) g) ->
  hide_vert (mo_mesh (mesh_show_all mesh_ob)) = None /\
  hide_vert (mo_mesh (partialvis_all_update_mesh mesh_ob Show)) = None /\
  grid_hidden (go_ccg (grids_show_all grid_ob)) = [] /\
  mo_mesh (mesh_show_all mesh_ob)
    = mkMesh (verts_num (mo_mesh mesh_ob)) (edges (mo_mesh mesh_ob)) (faces (mo_mesh mesh_ob))
        (corner_verts (mo_mesh mesh_ob)) None
        (Some (replicate (length (edges (mo_mesh mesh_ob))) false))
        (Some (replicate (length (faces (mo_mesh mesh_ob))) false))
        (sculpt_mask (mo_mesh mesh_ob)) /\
  Forall2 node_same_elements (mo_nodes mesh_ob) (mo_nodes (mesh_show_all mesh_ob)) /\
  (exists pushes, mo_undo (mesh_show_all mesh_ob) = mo_undo mesh_ob ++ pushes) /\
  partialvis_all_update_mesh mesh_ob Show
    = match hide_vert (mo_mesh mesh_ob) with
      | Some _ => mesh_show_all mesh_ob
      | None => mesh_ob
      end /\
  go_ccg (grids_show_all grid_ob)
    = mkSubdivCCG (grids_num (go_ccg grid_ob)) (grid_size (go_ccg grid_ob)) []
        (has_mask (go_ccg grid_ob)) (grid_mask (go_ccg grid_ob)) /\
  Forall2 node_same_elements (go_nodes grid_ob) (go_nodes (grids_show_all grid_ob)) /\
  (exists pushes, go_undo (grids_show_all grid_ob) = go_undo grid_ob ++ pushes).
Proof.
  intros (node & g & Hnode & Hg & Hbit).
  assert (Hmesh : hide_vert (mo_mesh (mesh_show_all mesh_ob)) = None).
  { unfold mesh_show_all.
    destruct (hide_vert (mo_mesh mesh_ob)) as [hv|]; [|done].
    by destruct (mesh_show_all_loop hv 0 (mo_nodes mesh_ob) (mo_undo mesh_ob)). }
  assert (Hpath : partialvis_all_update_mesh mesh_ob Show
                  = match hide_vert (mo_mesh mesh_ob) with
                    | Some _ => mesh_show_all mesh_ob
                    | None => mesh_ob
                    end).
  { unfold partialvis_all_update_mesh. by destruct (hide_vert (mo_mesh mesh_ob)). }
  assert (Hgrid : grids_show_all grid_ob
                  = mkGridObject (grid_hidden_free (go_ccg grid_ob))
                      (map (fun node => fully_hidden_set node false)
                           (grids_show_all_loop (grid_hidden (go_ccg grid_ob)) 0
                              (go_nodes grid_ob) (go_undo grid_ob) false).1.1)
                      (grids_show_all_loop (grid_hidden (go_ccg grid_ob)) 0
                         (go_nodes grid_ob) (go_undo grid_ob) false).1.2
                      (go_calls grid_ob ++ [SyncVisibilityFromVerts; MultiresMarkAsModified])).
  { unfold grids_show_all.
    destruct (grid_hidden (go_ccg grid_ob)) as [|bits gh] eqn:Egh.
    { unfold grid_bits in Hbit. rewrite lookup_nil in Hbit. by apply elem_of_nil in Hbit. }
    pose proof (grids_show_all_loop_changed (bits :: gh) (go_nodes grid_ob) 0
                  (go_undo grid_ob) false) as Hc.
    destruct (grids_show_all_loop (bits :: gh) 0 (go_nodes grid_ob) (go_undo grid_ob) false)
      as [[nodes1 undo] any_changed].
    simpl in Hc. subst any_changed.
    assert (existsb (fun node => existsb (fun g => existsb id (grid_bits (bits :: gh) g))
                                         (node_grid_indices node)) (go_nodes grid_ob) = true)
      as ->.
    { apply existsb_exists. exists node. split; [by apply list_elem_of_In|].
      apply existsb_exists. exists g. split; [by apply list_elem_of_In|].
      apply existsb_exists. exists true. split; [by apply list_elem_of_In | done]. }
    done. }
  split; [exact Hmesh|]. split.
  { rewrite Hpath. destruct (hide_vert (mo_mesh mesh_ob)) eqn:E; [exact Hmesh | exact E]. }
  split; [by rewrite Hgrid|].
  split.
  { unfold mesh_show_all.
    destruct (match hide_vert (mo_mesh mesh_ob) with
              | Some hv => mesh_show_all_loop hv 0 (mo_nodes mesh_ob) (mo_undo mesh_ob)
              | None => (mo_nodes mesh_ob, mo_undo mesh_ob)
              end) as [nodes1 undo].
    cbn [mo_mesh]. apply mesh_hide_vert_flush_removed. }
  split.
  { unfold mesh_show_all. destruct (hide_vert (mo_mesh mesh_ob)) as [hv|].
    - pose proof (mesh_show_all_loop_elements hv (mo_nodes mesh_ob) 0 (mo_undo mesh_ob))
        as [Hn _].
      by destruct (mesh_show_all_loop hv 0 (mo_nodes mesh_ob) (mo_undo mesh_ob)).
    - apply node_same_elements_cleared. }
  split.
  { unfold mesh_show_all. destruct (hide_vert (mo_mesh mesh_ob)) as [hv|].
    - pose proof (mesh_show_all_loop_elements hv (mo_nodes mesh_ob) 0 (mo_undo mesh_ob))
        as [_ Hu].
      by destruct (mesh_show_all_loop hv 0 (mo_nodes mesh_ob) (mo_undo mesh_ob)).
    - exists []. cbn. by rewrite app_nil_r. }
  split; [exact Hpath|].
  rewrite Hgrid. cbn [go_ccg go_nodes go_undo].
  split; [done|].
  apply grids_show_all_loop_elements.
Qed.

Lemma show_all_deallocates_witness :
  (exists node g, node ∈ go_nodes one_grid_object /\ g ∈ node_grid_indices node /\
                  true ∈ grid_bits (grid_hidden (go_ccg one_grid_object)) g) /\
  hide_vert (mo_mesh (mesh_show_all quad_object)) = None /\
  hide_vert (mo_mesh (partialvis_all_update_mesh quad_object Show)) = None /\
  grid_hidden (go_ccg (grids_show_all one_grid_object)) = [] /\
  mo_mesh (mesh_show_all quad_object)
    = mkMesh 4 [(0, 1); (1, 2); (2, 3); (3, 0)] [mkRange 0 4] [0; 1; 2; 3] None
        (Some [false; false; false; false]) (Some [false]) None /\
  go_ccg (grids_show_all one_grid_object) = mkSubdivCCG 1 2 [] false [].
Proof.
  assert (H : exists node g, node ∈ go_nodes one_grid_object /\ g ∈ node_grid_indices node /\
                             true ∈ grid_bits (grid_hidden (go_ccg one_grid_object)) g).
  { exists (grid_node [0]), 0. simpl. unfold grid_bits. simpl. set_solver. }
  pose proof (show_all_deallocates quad_object one_grid_object H)
    as (H1 & H2 & H3 & H4 & _ & _ & _ & H8 & _).
  split; [exact H|]. split; [exact H1|]. split; [exact H2|]. split; [exact H3|].
  split; [exact H4 | exact H8].
Defined.

(** ** Further properties of the operators *)

(** *** Toggling twice *)

Section flip.
Context {A : Type} (d : A) (phi : A -> A).
Hypothesis phi_twice : forall a, phi (phi a) = a.

Lemma flip_one_twice (i : nat) (l : list A) :
  flip_all d phi [i] (flip_all d phi [i] l) = l.
Proof.
  unfold flip_all. simpl.
  destruct (decide (i < length l)) as [Hi|Hi].
  - destruct (lookup_lt_is_Some_2 l i Hi) as [a Ha].
    rewrite Ha. simpl. rewrite list_lookup_insert_eq by done. simpl.
    rewrite list_insert_insert_eq, phi_twice. by apply list_insert_id.
  - rewrite (list_insert_ge l) by lia. apply list_insert_ge. lia.
Qed.

Lemma flip_one_comm (i j : nat) (l : list A) :
  flip_all d phi [i] (flip_all d phi [j] l) = flip_all d phi [j] (flip_all d phi [i] l).
Proof.
  unfold flip_all. simpl. destruct (decide (i = j)) as [->|Hne]; [done|].
  rewrite !list_lookup_insert_ne by done. by apply list_insert_insert_ne.
Qed.

Lemma flip_all_cons (i : nat) (indices : list nat) (l : list A) :
  flip_all d phi (i :: indices) l = flip_all d phi indices (flip_all d phi [i] l).
Proof. done. Qed.

Lemma flip_all_app (l1 l2 : list nat) (l : list A) :
  flip_all d phi (l1 ++ l2) l = flip_all d phi l2 (flip_all d phi l1 l).
Proof. unfold flip_all. by rewrite foldl_app. Qed.

Lemma flip_all_comm_one (i : nat) (indices : list nat) : forall l : list A,
  flip_all d phi indices (flip_all d phi [i] l)
  = flip_all d phi [i] (flip_all d phi indices l).
Proof.
  induction indices as [|j indices IH]; intros l; [done|].
  rewrite (flip_all_cons j indices), (flip_all_cons j indices), flip_one_comm. by rewrite IH.
Qed.

Lemma flip_all_twice (indices : list nat) : forall l : list A,
  flip_all d phi indices (flip_all d phi indices l) = l.
Proof.
  induction indices as [|i indices IH]; intros l; [done|].
  rewrite (flip_all_cons i indices), (flip_all_cons i indices), <- flip_all_comm_one, IH.
  apply flip_one_twice.
Qed.

Lemma flip_all_length (indices : list nat) : forall l : list A,
  length (flip_all d phi indices l) = length l.
Proof.
  induction indices as [|i indices IH]; intros l; [done|].
  rewrite flip_all_cons, IH. unfold flip_all. simpl. apply length_insert.
Qed.

Lemma flip_all_lookup_other (indices : list nat) (k : nat) : forall l : list A,
  k ∉ indices -> flip_all d phi indices l !! k = l !! k.
Proof.
  induction indices as [|i indices IH]; intros l Hk; [done|].
  apply not_elem_of_cons in Hk as [Hne Hk].
  rewrite flip_all_cons, IH by done. unfold flip_all. simpl.
  by apply list_lookup_insert_ne.
Qed.

End flip.

Lemma negb_twice (b : bool) : negb (negb b) = b.
Proof. by destruct b. Qed.

Lemma map_negb_twice (bits : list bool) : map negb (map negb bits) = bits.
Proof. induction bits as [|b bits IH]; simpl; [done|]. by rewrite negb_twice, IH. Qed.

(** *** Invert, twice *)

Lemma invert_visibility_grids_loop_spec nodes : forall i gh undo,
  let r := invert_visibility_grids_loop i nodes gh undo in
  r.1.1 = flip_all [] (map negb) (concat (map node_grid_indices nodes)) gh /\
  map node_grid_indices r.1.2 = map node_grid_indices nodes /\
  length r.1.2 = length nodes /\
  r.2 = undo ++ map (fun j => (j, HideVert)) (seq i (length nodes)).
Proof.
  induction nodes as [|node rest IH]; intros i gh undo.
  - simpl. by rewrite app_nil_r.
  - cbn [invert_visibility_grids_loop map concat length seq].
    specialize (IH (S i) (invert_grids (node_grid_indices node) gh) (undo ++ [(i, HideVert)])).
    destruct (invert_visibility_grids_loop (S i) rest _ _) as [[gh' rest'] undo'].
    simpl in *. destruct IH as (IH1 & IH2 & IH3 & IH4).
    split; [|split; [|split]].
    + by rewrite IH1, flip_all_app.
    + by rewrite IH2.
    + by rewrite IH3.
    + by rewrite IH4, <- app_assoc.
Qed.

Lemma grid_hidden_ensure_set (ccg : SubdivCCG) (gh : list (list bool)) :
  length gh = length (grid_hidden_ensure ccg) ->
  grid_hidden_ensure (set_grid_hidden ccg gh) = gh.
Proof.
  intros Hlen. destruct gh as [|bits gh]; [|done].
  unfold grid_hidden_ensure in *. simpl in *.
  destruct (grid_hidden ccg); [|discriminate].
  rewrite length_replicate in Hlen. by rewrite <- Hlen.
Qed.

(** X1: inverting the visibility of a grid object twice gives back every bit
    of the grid-hidden structure (allocated all-visible when it was not
    stored); both inverts push every node of the span. *)
Theorem invert_visibility_grids_twice (ob : GridObject) :
  let ob2 := invert_visibility_grids (invert_visibility_grids ob) in
  grid_hidden (go_ccg ob2) = grid_hidden_ensure (go_ccg ob) /\
  go_undo ob2 = go_undo ob ++ push_every_node (length (go_nodes ob))
                  ++ push_every_node (length (go_nodes ob)).
Proof.
  unfold invert_visibility_grids.
  pose proof (invert_visibility_grids_loop_spec (go_nodes ob) 0
                (grid_hidden_ensure (go_ccg ob)) (go_undo ob)) as H1.
  destruct (invert_visibility_grids_loop 0 (go_nodes ob) _ (go_undo ob))
    as [[gh1 nodes1] undo1].
  simpl in H1. destruct H1 as (Hg1 & Hn1 & Hl1 & Hu1).
  cbn [go_ccg go_nodes go_undo].
  rewrite grid_hidden_ensure_set by (by rewrite Hg1, flip_all_length).
  pose proof (invert_visibility_grids_loop_spec nodes1 0 gh1 undo1) as H2.
  destruct (invert_visibility_grids_loop 0 nodes1 gh1 undo1) as [[gh2 nodes2] undo2].
  simpl in *. destruct H2 as (Hg2 & _ & _ & Hu2). split.
  - rewrite Hg2, Hn1, Hg1. apply flip_all_twice, map_negb_twice.
  - rewrite Hu2, Hu1, Hl1, <- app_assoc. done.
Qed.

(** X2: inverting the visibility of a polygon mesh twice gives back the
    hidden flag of every face. *)
Theorem invert_visibility_mesh_twice (ob : MeshObject) :
  hide_poly_span (mo_mesh (invert_visibility_mesh (invert_visibility_mesh ob)))
  = hide_poly_span (mo_mesh ob).
Proof.
  unfold invert_visibility_mesh. rewrite invert_visibility_mesh_loop_spec.
  cbn [mo_mesh mo_nodes mo_undo]. rewrite invert_visibility_mesh_loop_spec.
  cbn [mo_mesh]. unfold hide_poly_span at 1. cbn.
  unfold hide_poly_span at 1. cbn.
  replace (map node_face_indices (map mark_update_visibility (mo_nodes ob)))
    with (map node_face_indices (mo_nodes ob))
    by (rewrite map_map; by apply map_ext).
  exact (flip_all_twice false negb negb_twice _ _).
Qed.

Lemma invert_bmesh_verts_spec verts : forall vh fully,
  NoDup verts ->
  invert_bmesh_verts verts (vh, fully) =
    (flip_all false negb verts vh,
     fully && forallb (span_get (flip_all false negb verts vh)) verts).
Proof.
  unfold invert_bmesh_verts.
  induction verts as [|v rest IH]; intros vh fully Hnd.
  - simpl. by rewrite andb_true_r.
  - apply NoDup_cons in Hnd as [Hv Hnd].
    cbn [foldl forallb]. rewrite IH by done.
    change (flip_all false negb (v :: rest) vh)
      with (flip_all false negb rest (<[v := negb (span_get vh v)]> vh)).
    f_equal. rewrite <- andb_assoc. f_equal. f_equal.
    unfold span_get at 3. by rewrite flip_all_lookup_other.
Qed.

Lemma invert_bmesh_verts_hidden verts : forall vh fully,
  (invert_bmesh_verts verts (vh, fully)).1 = flip_all false negb verts vh.
Proof.
  unfold invert_bmesh_verts.
  induction verts as [|v rest IH]; intros vh fully; [done|].
  cbn [foldl]. by rewrite IH.
Qed.

Lemma invert_visibility_bmesh_loop_spec nodes : forall i vh undo,
  let r := invert_visibility_bmesh_loop i nodes vh undo in
  r.1.1 = flip_all false negb (concat (map bm_unique_verts nodes)) vh /\
  map bm_unique_verts r.1.2 = map bm_unique_verts nodes /\
  length r.1.2 = length nodes /\
  r.2 = undo ++ map (fun j => (j, HideVert)) (seq i (length nodes)).
Proof.
  induction nodes as [|node rest IH]; intros i vh undo.
  - simpl. by rewrite app_nil_r.
  - cbn [invert_visibility_bmesh_loop map concat length seq].
    pose proof (invert_bmesh_verts_hidden (bm_unique_verts node) vh true) as Hv.
    destruct (invert_bmesh_verts (bm_unique_verts node) (vh, true)) as [vh1 fully].
    simpl in Hv. subst vh1.
    specialize (IH (S i) (flip_all false negb (bm_unique_verts node) vh)
                  (undo ++ [(i, HideVert)])).
    destruct (invert_visibility_bmesh_loop (S i) rest _ _) as [[vh' rest'] undo'].
    simpl in *. destruct IH as (IH1 & IH2 & IH3 & IH4).
    split; [|split; [|split]].
    + by rewrite IH1, flip_all_app.
    + by rewrite IH2.
    + by rewrite IH3.
    + by rewrite IH4, <- app_assoc.
Qed.

(** X3: inverting the visibility of a dynamic-topology object twice gives back
    the hidden flag of every vertex; both inverts push every node. *)
Theorem invert_visibility_bmesh_twice (paint : list bool -> nat -> bool) (ob : BMObject) :
  let ob2 := invert_visibility_bmesh paint (invert_visibility_bmesh paint ob) in
  vert_hidden (bo_bm ob2) = vert_hidden (bo_bm ob) /\
  bo_undo ob2 = bo_undo ob ++ push_every_node (length (bo_nodes ob))
                  ++ push_every_node (length (bo_nodes ob)).
Proof.
  unfold invert_visibility_bmesh.
  pose proof (invert_visibility_bmesh_loop_spec (bo_nodes ob) 0 (vert_hidden (bo_bm ob))
                (bo_undo ob)) as H1.
  destruct (invert_visibility_bmesh_loop 0 (bo_nodes ob) _ (bo_undo ob))
    as [[vh1 nodes1] undo1].
  simpl in H1. destruct H1 as (Hv1 & Hn1 & Hl1 & Hu1).
  cbn [bo_bm bo_nodes bo_undo vert_hidden].
  pose proof (invert_visibility_bmesh_loop_spec nodes1 0 vh1 undo1) as H2.
  destruct (invert_visibility_bmesh_loop 0 nodes1 vh1 undo1) as [[vh2 nodes2] undo2].
  simpl in *. destruct H2 as (Hv2 & _ & _ & Hu2). split.
  - rewrite Hv2, Hn1, Hv1. apply flip_all_twice, negb_twice.
  - rewrite Hu2, Hu1, Hl1, <- app_assoc. done.
Qed.

Lemma forallb_ext_elem {A : Type} (f g : A -> bool) (l : list A) :
  (forall x, x ∈ l -> f x = g x) -> forallb f l = forallb g l.
Proof.
  induction l as [|x l IH]; intros H; [done|]. simpl.
  rewrite (H x) by (apply elem_of_cons; by left).
  rewrite IH; [done|]. intros y Hy. apply H. apply elem_of_cons. by right.
Qed.

Lemma invert_visibility_bmesh_loop_nodes nodes : forall i vh undo,
  NoDup (concat (map bm_unique_verts nodes)) ->
  let r := invert_visibility_bmesh_loop i nodes vh undo in
  forall j node node', nodes !! j = Some node -> r.1.2 !! j = Some node' ->
    fully_hidden node' = forallb (span_get r.1.1) (bm_unique_verts node) /\
    rebuild_draw node' = true.
Proof.
  induction nodes as [|node rest IH]; intros i vh undo Hnd.
  - intros r j n n' Hj. by rewrite lookup_nil in Hj.
  - cbn [map concat] in Hnd. apply NoDup_app in Hnd as (Hnd1 & Hdisj & Hnd2).
    cbn [invert_visibility_bmesh_loop].
    rewrite invert_bmesh_verts_spec by done.
    pose proof (invert_visibility_bmesh_loop_spec rest (S i)
                  (flip_all false negb (bm_unique_verts node) vh)
                  (undo ++ [(i, HideVert)])) as Hspec.
    specialize (IH (S i) (flip_all false negb (bm_unique_verts node) vh)
                  (undo ++ [(i, HideVert)]) Hnd2).
    destruct (invert_visibility_bmesh_loop (S i) rest _ _) as [[vh' rest'] undo'].
    simpl in *. destruct Hspec as (Hvh & _).
    intros [|j] n n' Hn Hn'; simpl in *.
    + injection Hn as <-. injection Hn' as <-. simpl. split; [|done].
      apply forallb_ext_elem. intros v Hv. unfold span_get. rewrite Hvh.
      rewrite (flip_all_lookup_other false negb (concat (map bm_unique_verts rest)) v);
        [done|].
      by apply Hdisj.
    + by apply (IH j).
Qed.

(** X4: when no vertex is listed twice among the unique vertices of the
    nodes, invert leaves every node's fully-hidden cache equal to "all unique
    vertices of the node are hidden" in the final flags, and tags every node
    for a redraw; a node without unique vertices ends fully hidden. *)
Theorem invert_visibility_bmesh_fully_hidden (paint : list bool -> nat -> bool)
    (ob : BMObject) (j : nat) (node node' : PBVHNode) :
  NoDup (concat (map bm_unique_verts (bo_nodes ob))) ->
  bo_nodes ob !! j = Some node ->
  bo_nodes (invert_visibility_bmesh paint ob) !! j = Some node' ->
  fully_hidden node'
    = forallb (span_get (vert_hidden (bo_bm (invert_visibility_bmesh paint ob))))
        (bm_unique_verts node) /\
  rebuild_draw node' = true.
Proof.
  intros Hnd Hj Hj'. unfold invert_visibility_bmesh in *.
  pose proof (invert_visibility_bmesh_loop_nodes (bo_nodes ob) 0 (vert_hidden (bo_bm ob))
                (bo_undo ob) Hnd) as H.
  destruct (invert_visibility_bmesh_loop 0 (bo_nodes ob) _ (bo_undo ob))
    as [[vh1 nodes1] undo1].
  simpl in *. by apply (H j).
Qed.

(** On the object with two nodes: after invert the first node, whose unique
    vertices 0 and 1 are now hidden, is fully hidden although its shared
    vertex 2 is visible, and the second node, whose unique vertex 2 is now
    visible, is not. *)
Lemma invert_visibility_bmesh_fully_hidden_witness :
  NoDup (concat (map bm_unique_verts (bo_nodes bm_split_object))) /\
  bo_nodes bm_split_object !! 0 = Some (bmesh_node [0; 1] [2] []) /\
  bo_nodes (invert_visibility_bmesh (fun _ _ => false) bm_split_object) !! 0
    = Some (mkNode [] [] [] [] [0; 1] [2] [] true false true) /\
  bo_nodes bm_split_object !! 1 = Some (bmesh_node [2] [0; 1] []) /\
  bo_nodes (invert_visibility_bmesh (fun _ _ => false) bm_split_object) !! 1
    = Some (mkNode [] [] [] [] [2] [0; 1] [] false false true) /\
  vert_hidden (bo_bm (invert_visibility_bmesh (fun _ _ => false) bm_split_object))
    = [true; true; false] /\
  (fully_hidden (mkNode [] [] [] [] [0; 1] [2] [] true false true)
     = forallb (span_get (vert_hidden
                            (bo_bm (invert_visibility_bmesh (fun _ _ => false)
                                      bm_split_object))))
         (bm_unique_verts (bmesh_node [0; 1] [2] [])) /\
   rebuild_draw (mkNode [] [] [] [] [0; 1] [2] [] true false true) = true) /\
  (fully_hidden (mkNode [] [] [] [] [2] [0; 1] [] false false true)
     = forallb (span_get (vert_hidden
                            (bo_bm (invert_visibility_bmesh (fun _ _ => false)
                                      bm_split_object))))
         (bm_unique_verts (bmesh_node [2] [0; 1] [])) /\
   rebuild_draw (mkNode [] [] [] [] [2] [0; 1] [] false false true) = true).
Proof.
  assert (H1 : NoDup (concat (map bm_unique_verts (bo_nodes bm_split_object))))
    by (simpl; compute_done).
  split; [exact H1|]. split; [reflexivity|]. split; [reflexivity|].
  split; [reflexivity|]. split; [reflexivity|]. split; [reflexivity|].
  split.
  - exact (invert_visibility_bmesh_fully_hidden (fun _ _ => false) bm_split_object 0
             (bmesh_node [0; 1] [2] []) (mkNode [] [] [] [] [0; 1] [2] [] true false true)
             H1 eq_refl eq_refl).
  - exact (invert_visibility_bmesh_fully_hidden (fun _ _ => false) bm_split_object 1
             (bmesh_node [2] [0; 1] []) (mkNode [] [] [] [] [2] [0; 1] [] false false true)
             H1 eq_refl eq_refl).
Defined.

(** *** The dynamic-topology update, vertex by vertex *)

(** X5: after a predicate-driven update of a dynamic-topology object, a vertex
    has the action's value when it is listed by a node of the span, passes
    the test and is a vertex of the mesh; every other vertex keeps its
    flag. *)
Theorem partialvis_update_bmesh_nodes_exact (paint : list bool -> nat -> bool)
    (ob : BMObject) (action : VisAction) (test : nat -> bool) (v : nat) :
  span_get (vert_hidden (bo_bm (partialvis_update_bmesh_nodes paint ob action test))) v =
    if decide ((v ∈ concat (map (fun node => bm_unique_verts node ++ bm_other_verts node)
                              (bo_nodes ob))
                /\ test v = true) /\ v < length (vert_hidden (bo_bm ob)))
    then action_to_hide action else span_get (vert_hidden (bo_bm ob)) v.
Proof.
  unfold partialvis_update_bmesh_nodes.
  pose proof (partialvis_update_bmesh_nodes_from_spec paint action test (bo_nodes ob) 0
                (bo_bm ob) (bo_undo ob)) as H.
  destruct (partialvis_update_bmesh_nodes_from paint action test 0 (bo_nodes ob) (bo_bm ob)
              (bo_undo ob)) as [[bm1 nodes1] undo1].
  simpl in *. destruct H as (-> & _). apply foldl_set_get.
Qed.

Lemma partialvis_update_bmesh_nodes_undo paint ob action test :
  bo_undo (partialvis_update_bmesh_nodes paint ob action test)
    = bo_undo ob ++ push_every_node (length (bo_nodes ob)) /\
  length (bo_nodes (partialvis_update_bmesh_nodes paint ob action test))
    = length (bo_nodes ob) /\
  map (fun node => bm_unique_verts node ++ bm_other_verts node)
      (bo_nodes (partialvis_update_bmesh_nodes paint ob action test))
    = map (fun node => bm_unique_verts node ++ bm_other_verts node) (bo_nodes ob) /\
  length (vert_hidden (bo_bm (partialvis_update_bmesh_nodes paint ob action test)))
    = length (vert_hidden (bo_bm ob)).
Proof.
  unfold partialvis_update_bmesh_nodes.
  pose proof (partialvis_update_bmesh_nodes_from_spec paint action test (bo_nodes ob) 0
                (bo_bm ob) (bo_undo ob)) as H.
  destruct (partialvis_update_bmesh_nodes_from paint action test 0 (bo_nodes ob) (bo_bm ob)
              (bo_undo ob)) as [[bm1 nodes1] undo1].
  simpl in *. destruct H as (Hv & -> & -> & ->). rewrite Hv, foldl_set_length. done.
Qed.

(** *** The dynamic-topology filter *)

(** X6: the dynamic-topology filter never moves a vertex away from the target
    value, whatever the iteration count: with Hide a hidden vertex stays
    hidden, with Show a visible vertex stays visible. *)
Theorem grow_shrink_visibility_bmesh_keeps (paint : list bool -> nat -> bool)
    (vert_neighbors : nat -> list nat) (action : VisAction) (iterations : nat) :
  forall (ob : BMObject) (v : nat),
  span_get (vert_hidden (bo_bm ob)) v = action_to_hide action ->
  span_get (vert_hidden (bo_bm (grow_shrink_visibility_bmesh paint vert_neighbors ob action
                                  iterations))) v
  = action_to_hide action.
Proof.
  induction iterations as [|n IH]; intros ob v Hv; [done|].
  cbn [grow_shrink_visibility_bmesh]. apply IH.
  unfold partialvis_update_bmesh_nodes.
  set (test := neighbor_at_target vert_neighbors (duplicate_visibility_bmesh ob) action).
  pose proof (partialvis_update_bmesh_nodes_from_spec paint action test (bo_nodes ob) 0
                (bo_bm ob) (bo_undo ob)) as H.
  destruct (partialvis_update_bmesh_nodes_from paint action test 0 (bo_nodes ob) (bo_bm ob)
              (bo_undo ob)) as [[bm1 nodes1] undo1].
  simpl in *. destruct H as (-> & _). rewrite foldl_set_get. by destruct (decide _).
Qed.

Lemma grow_shrink_visibility_bmesh_keeps_witness :
  span_get (vert_hidden (bo_bm bm_object)) 0 = action_to_hide Hide /\
  span_get (vert_hidden (bo_bm (grow_shrink_visibility_bmesh (fun _ _ => false)
                                  (fun v => [v + 1]) bm_object Hide 2))) 0
  = action_to_hide Hide.
Proof.
  split; [reflexivity|].
  exact (grow_shrink_visibility_bmesh_keeps (fun _ _ => false) (fun v => [v + 1]) Hide 2
           bm_object 0 eq_refl).
Defined.

(** X7: one iteration of the dynamic-topology filter gives the target value
    to exactly the vertices of the span's nodes that have a neighbour at the
    target value in the flags as they were before the iteration; the writes
    of the iteration itself are not read. *)
Theorem grow_shrink_visibility_bmesh_one_ring (paint : list bool -> nat -> bool)
    (vert_neighbors : nat -> list nat) (ob : BMObject) (action : VisAction) (v : nat) :
  span_get (vert_hidden (bo_bm (grow_shrink_visibility_bmesh paint vert_neighbors ob action
                                  1))) v =
    if decide ((v ∈ concat (map (fun node => bm_unique_verts node ++ bm_other_verts node)
                              (bo_nodes ob))
                /\ existsb (fun neighbor =>
                              Bool.eqb (span_get (vert_hidden (bo_bm ob)) neighbor)
                                       (action_to_hide action))
                           (vert_neighbors v) = true)
               /\ v < length (vert_hidden (bo_bm ob)))
    then action_to_hide action else span_get (vert_hidden (bo_bm ob)) v.
Proof.
  cbn [grow_shrink_visibility_bmesh]. unfold partialvis_update_bmesh_nodes.
  set (test := neighbor_at_target vert_neighbors (duplicate_visibility_bmesh ob) action).
  pose proof (partialvis_update_bmesh_nodes_from_spec paint action test (bo_nodes ob) 0
                (bo_bm ob) (bo_undo ob)) as H.
  destruct (partialvis_update_bmesh_nodes_from paint action test 0 (bo_nodes ob) (bo_bm ob)
              (bo_undo ob)) as [[bm1 nodes1] undo1].
  simpl in *. destruct H as (-> & _). apply foldl_set_get.
Qed.

(** X8: every iteration of the dynamic-topology filter pushes every node of
    the span, so [iterations] iterations push [iterations] times the number
    of nodes, whether or not a flag changes. *)
Theorem grow_shrink_visibility_bmesh_undo (paint : list bool -> nat -> bool)
    (vert_neighbors : nat -> list nat) (action : VisAction) (iterations : nat) :
  forall ob : BMObject,
  bo_undo (grow_shrink_visibility_bmesh paint vert_neighbors ob action iterations)
  = bo_undo ob ++ concat (replicate iterations (push_every_node (length (bo_nodes ob)))).
Proof.
  induction iterations as [|n IH]; intros ob.
  - simpl. by rewrite app_nil_r.
  - cbn [grow_shrink_visibility_bmesh replicate concat]. rewrite IH.
    destruct (partialvis_update_bmesh_nodes_undo paint ob action
                (neighbor_at_target vert_neighbors (duplicate_visibility_bmesh ob) action))
      as (-> & -> & _).
    by rewrite <- app_assoc.
Qed.

(** *** The fully-hidden cache of the dynamic-topology update *)

Lemma foldl_set_stable (test : nat -> bool) (b : bool) (l1 l2 : list nat) (vh : list bool)
    (v : nat) :
  v ∈ l1 ->
  span_get (foldl (fun (l : list bool) v => if test v then <[v := b]> l else l)
              (foldl (fun (l : list bool) v => if test v then <[v := b]> l else l) vh l1)
              l2) v
  = span_get (foldl (fun (l : list bool) v => if test v then <[v := b]> l else l) vh l1) v.
Proof.
  intros Hv. rewrite foldl_set_get, foldl_set_length.
  destruct (decide ((v ∈ l2 /\ test v = true) /\ v < length vh)) as [[[_ Ht] Hlen]|]; [|done].
  rewrite foldl_set_get. by rewrite decide_True.
Qed.

Lemma partialvis_update_bmesh_verts_flags verts action test : forall vh c vis,
  let r := partialvis_update_bmesh_verts verts action test (vh, c, vis) in
  r.1.2 = c || existsb test verts /\
  r.2 = vis || existsb (fun v => negb (span_get r.1.1 v)) verts.
Proof.
  induction verts as [|v rest IH]; intros vh c vis.
  - simpl. by rewrite !orb_false_r.
  - unfold partialvis_update_bmesh_verts in *. cbn [foldl existsb].
    set (vh1 := if test v then <[v := action_to_hide action]> vh else vh).
    assert (Hstep : (let '(vh1, any_changed1) :=
                       if test v
                       then (match action with
                             | Hide => <[v := true]> vh
                             | Show => <[v := false]> vh
                             end, true)
                       else (vh, c) in
                     (vh1, any_changed1, if negb (span_get vh1 v) then true else vis))
                    = (vh1, c || test v, vis || negb (span_get vh1 v))).
    { unfold vh1. destruct (test v), action; simpl;
        rewrite ?orb_true_r, ?orb_false_r; f_equal;
        by destruct (negb _), vis. }
    rewrite Hstep. specialize (IH vh1 (c || test v) (vis || negb (span_get vh1 v))).
    cbv zeta in IH. destruct IH as [IH1 IH2]. split.
    + by rewrite IH1, orb_assoc.
    + rewrite IH2, <- orb_assoc. f_equal. f_equal.
      pose proof (partialvis_update_bmesh_verts_hidden rest action test vh1
                    (c || test v) (vis || negb (span_get vh1 v))) as Hh.
      unfold partialvis_update_bmesh_verts in Hh. rewrite Hh.
      assert (Hvh1 : vh1 = foldl (fun (l : list bool) v =>
                                    if test v then <[v := action_to_hide action]> l else l)
                             vh [v]) by done.
      rewrite Hvh1. f_equal. symmetry. apply foldl_set_stable. apply elem_of_cons; by left.
Qed.

Lemma existsb_ext_elem {A : Type} (f g : A -> bool) (l : list A) :
  (forall x, x ∈ l -> f x = g x) -> existsb f l = existsb g l.
Proof.
  induction l as [|x l IH]; intros H; [done|]. simpl.
  rewrite (H x) by (apply elem_of_cons; by left).
  rewrite IH; [done|]. intros y Hy. apply H. apply elem_of_cons. by right.
Qed.

Lemma negb_existsb_negb {A : Type} (f : A -> bool) (l : list A) :
  negb (existsb (fun x => negb (f x)) l) = forallb f l.
Proof.
  induction l as [|x l IH]; [done|]. simpl.
  rewrite negb_orb, IH. by destruct (f x).
Qed.

Lemma partialvis_update_bmesh_nodes_from_cache paint action test nodes : forall i bm undo,
  let r := partialvis_update_bmesh_nodes_from paint action test i nodes bm undo in
  forall j node node', nodes !! j = Some node -> r.1.2 !! j = Some node' ->
    if existsb test (bm_unique_verts node ++ bm_other_verts node)
    then fully_hidden node'
           = forallb (span_get (vert_hidden r.1.1))
               (bm_unique_verts node ++ bm_other_verts node) /\
         rebuild_draw node' = true
    else node' = node.
Proof.
  induction nodes as [|node rest IH]; intros i bm undo.
  - intros r j n n' Hj. by rewrite lookup_nil in Hj.
  - cbn [partialvis_update_bmesh_nodes_from].
    pose proof (partialvis_update_bmesh_verts_flags (bm_unique_verts node) action test
                  (vert_hidden bm) false false) as F1.
    pose proof (partialvis_update_bmesh_verts_hidden (bm_unique_verts node) action test
                  (vert_hidden bm) false false) as H1.
    destruct (partialvis_update_bmesh_verts (bm_unique_verts node) action test
                (vert_hidden bm, false, false)) as [[vh1 c1] vis1].
    pose proof (partialvis_update_bmesh_verts_flags (bm_other_verts node) action test
                  vh1 c1 vis1) as F2.
    pose proof (partialvis_update_bmesh_verts_hidden (bm_other_verts node) action test
                  vh1 c1 vis1) as H2.
    destruct (partialvis_update_bmesh_verts (bm_other_verts node) action test
                (vh1, c1, vis1)) as [[vh2 c2] vis2].
    simpl in F1, F2, H1, H2. destruct F1 as [Fc1 Fv1]. destruct F2 as [Fc2 Fv2].
    set (bm2 := mkBMesh vh2
                  (partialvis_update_bmesh_faces paint vh2 (bm_faces node) (face_hidden bm))
                  (vert_mask bm)).
    pose proof (partialvis_update_bmesh_nodes_from_spec paint action test rest (S i) bm2
                  (undo ++ [(i, HideVert)])) as Hspec.
    specialize (IH (S i) bm2 (undo ++ [(i, HideVert)])).
    destruct (partialvis_update_bmesh_nodes_from paint action test (S i) rest bm2 _)
      as [[bm' rest'] undo'].
    simpl in *. destruct Hspec as (Hvh & _).
    intros [|j] n n' Hn Hn'; simpl in *; [|by apply (IH j)].
    injection Hn as <-. injection Hn' as <-.
    rewrite existsb_app. rewrite Fc2, Fc1. simpl.
    destruct (existsb test (bm_unique_verts node) || existsb test (bm_other_verts node));
      [|done].
    simpl. split; [|done].
    rewrite Fv2, Fv1. simpl. rewrite forallb_app, <- !negb_existsb_negb, <- negb_orb.
    f_equal. f_equal.
    + apply existsb_ext_elem. intros v Hv. f_equal.
      rewrite Hvh, H2, H1, <- foldl_app. symmetry. by apply foldl_set_stable.
    + apply existsb_ext_elem. intros v Hv. f_equal.
      rewrite Hvh, H2, H1, <- foldl_app. symmetry.
      rewrite foldl_app. rewrite <- (foldl_app _ (bm_unique_verts node)).
      apply foldl_set_stable. apply elem_of_app. by right.
Qed.

(** X9: after a predicate-driven update of a dynamic-topology object, a node
    one of whose vertices passed the test is tagged for a redraw and its
    fully-hidden cache says exactly whether all its vertices are hidden in the
    resulting flags; a node none of whose vertices passed the test is left as
    it was. *)
Theorem partialvis_update_bmesh_nodes_cache (paint : list bool -> nat -> bool)
    (ob : BMObject) (action : VisAction) (test : nat -> bool) (j : nat)
    (node node' : PBVHNode) :
  bo_nodes ob !! j = Some node ->
  bo_nodes (partialvis_update_bmesh_nodes paint ob action test) !! j = Some node' ->
  if existsb test (bm_unique_verts node ++ bm_other_verts node)
  then fully_hidden node'
         = forallb (span_get (vert_hidden
                                (bo_bm (partialvis_update_bmesh_nodes paint ob action test))))
             (bm_unique_verts node ++ bm_other_verts node) /\
       rebuild_draw node' = true
  else node' = node.
Proof.
  unfold partialvis_update_bmesh_nodes.
  pose proof (partialvis_update_bmesh_nodes_from_cache paint action test (bo_nodes ob) 0
                (bo_bm ob) (bo_undo ob)) as H.
  destruct (partialvis_update_bmesh_nodes_from paint action test 0 (bo_nodes ob) (bo_bm ob)
              (bo_undo ob)) as [[bm1 nodes1] undo1].
  simpl in *. apply H.
Qed.

Lemma partialvis_update_bmesh_nodes_cache_witness :
  bo_nodes bm_object !! 0 = Some (bmesh_node [0; 1; 2] [] []) /\
  bo_nodes (partialvis_update_bmesh_nodes (fun _ _ => false) bm_object Hide (fun _ => true))
    !! 0 = Some (fully_hidden_set (mark_rebuild_draw (bmesh_node [0; 1; 2] [] [])) true) /\
  fully_hidden (fully_hidden_set (mark_rebuild_draw (bmesh_node [0; 1; 2] [] [])) true)
    = true.
Proof.
  split; [reflexivity|]. split; [reflexivity|].
  exact (proj1 (partialvis_update_bmesh_nodes_cache (fun _ _ => false) bm_object Hide
                  (fun _ => true) 0 (bmesh_node [0; 1; 2] [] [])
                  (fully_hidden_set (mark_rebuild_draw (bmesh_node [0; 1; 2] [] [])) true)
                  eq_refl eq_refl)).
Defined.

(** *** The predicate-driven update of the polygon mesh, vertex by vertex *)

Lemma vert_hide_update_hide_vert (test : nat -> bool) (value : bool) (ob : MeshObject) :
  hide_vert (mo_mesh (vert_hide_update ob (calc_hide_where test value)))
  = Some (foldl (fun (l : list bool) v => if test v then <[v := value]> l else l)
            (hide_vert_span (mo_mesh ob)) (concat (map node_unique_verts (mo_nodes ob)))).
Proof.
  unfold vert_hide_update.
  pose proof (vert_hide_update_loop_spec test value (mo_nodes ob) 0
                (hide_vert_span (mo_mesh ob)) (mo_undo ob) false) as Hloop.
  destruct (vert_hide_update_loop (calc_hide_where test value) 0 (mo_nodes ob)
              (hide_vert_span (mo_mesh ob)) (mo_undo ob) false) as [[hv' undo'] changed].
  simpl in Hloop. destruct Hloop as (-> & _).
  destruct changed; [|done].
  unfold flush_face_changes_node.
  by destruct (flush_face_changes_node_loop _ _ _ _ _).
Qed.

(** X10: after a gesture update of the polygon mesh, a vertex has the action's
    value when it is a unique vertex of a node of the span, is affected by the
    gesture and is a vertex of the mesh; every other vertex keeps its hidden
    state. *)
Theorem partialvis_gesture_update_mesh_exact (is_affected : nat -> bool) (ob : MeshObject)
    (action : VisAction) (v : nat) :
  span_get (hide_vert_span (mo_mesh (partialvis_gesture_update_mesh is_affected ob action))) v =
    if decide ((v ∈ concat (map node_unique_verts (mo_nodes ob)) /\ is_affected v = true)
               /\ v < length (hide_vert_span (mo_mesh ob)))
    then action_to_hide action else span_get (hide_vert_span (mo_mesh ob)) v.
Proof.
  assert (Hupd : span_get (hide_vert_span (mo_mesh
                   (vert_hide_update ob (calc_hide_where is_affected (action_to_hide action)))))
                   v
                 = if decide ((v ∈ concat (map node_unique_verts (mo_nodes ob))
                               /\ is_affected v = true)
                              /\ v < length (hide_vert_span (mo_mesh ob)))
                   then action_to_hide action else span_get (hide_vert_span (mo_mesh ob)) v).
  { unfold hide_vert_span at 1. rewrite vert_hide_update_hide_vert. simpl.
    apply foldl_set_get. }
  unfold partialvis_gesture_update_mesh.
  destruct action, (hide_vert (mo_mesh ob)) eqn:E; try exact Hupd.
  unfold hide_vert_span. rewrite E.
  change (lookup_or_add None (verts_num (mo_mesh ob)))
    with (replicate (verts_num (mo_mesh ob)) false).
  rewrite span_get_replicate_false.
  by destruct (decide ((v ∈ concat (map node_unique_verts (mo_nodes ob))
                        /\ is_affected v = true)
                       /\ v < length (replicate (verts_num (mo_mesh ob)) false))).
Qed.

Lemma vert_hide_update_loop_fixed (test : nat -> bool) (value : bool) nodes hv :
  (forall node v, node ∈ nodes -> v ∈ node_unique_verts node -> test v = true ->
                  span_get hv v = value) ->
  forall i undo c,
    vert_hide_update_loop (calc_hide_where test value) i nodes hv undo c = (hv, undo, c).
Proof.
  induction nodes as [|node rest IH]; intros H i undo c; [done|].
  simpl. rewrite calc_hide_where_gather.
  assert (indexed_data_equal hv (node_unique_verts node)
            (map (fun v => if test v then value else span_get hv v) (node_unique_verts node))
          = true) as ->.
  { apply indexed_data_equal_map, Forall_forall. intros v Hv.
    destruct (test v) eqn:Et; [|done].
    apply (H node v); [apply elem_of_cons; by left | done | done]. }
  apply IH. intros n v Hn. apply H. apply elem_of_cons. by right.
Qed.

Lemma flush_face_changes_node_loop_verts fs cv hv nodes : forall hp,
  map node_unique_verts (flush_face_changes_node_loop fs cv hv nodes hp).2
  = map node_unique_verts nodes.
Proof.
  induction nodes as [|node rest IH]; intros hp; [done|].
  cbn [flush_face_changes_node_loop].
  destruct (indexed_data_equal hp (node_face_indices node) _).
  - specialize (IH hp).
    destruct (flush_face_changes_node_loop fs cv hv rest hp) as [hp' rest'].
    simpl in *. by rewrite IH.
  - match goal with
    | |- context [flush_face_changes_node_loop fs cv hv rest ?h] => specialize (IH h)
    end.
    destruct (flush_face_changes_node_loop fs cv hv rest _) as [hp' rest'].
    simpl in *. by rewrite IH.
Qed.

Lemma vert_hide_update_nodes_verts calc_hide (ob : MeshObject) :
  map node_unique_verts (mo_nodes (vert_hide_update ob calc_hide))
  = map node_unique_verts (mo_nodes ob).
Proof.
  unfold vert_hide_update.
  destruct (vert_hide_update_loop calc_hide 0 (mo_nodes ob) (hide_vert_span (mo_mesh ob))
              (mo_undo ob) false) as [[hv' undo'] changed].
  destruct changed; [|done].
  unfold flush_face_changes_node.
  pose proof (flush_face_changes_node_loop_verts
                (faces (set_hide_vert (mo_mesh ob) (Some hv')))
                (corner_verts (set_hide_vert (mo_mesh ob) (Some hv'))) hv' (mo_nodes ob)
                (hide_poly_span (set_hide_vert (mo_mesh ob) (Some hv')))) as H.
  by destruct (flush_face_changes_node_loop _ _ _ _ _).
Qed.

Lemma set_hide_vert_same (m : Mesh) (hv : list bool) :
  hide_vert m = Some hv -> set_hide_vert m (Some hv) = m.
Proof. destruct m. simpl. by intros ->. Qed.

Lemma elem_of_map_unique_verts (nodes nodes' : list PBVHNode) (node' : PBVHNode) (v : nat) :
  map node_unique_verts nodes' = map node_unique_verts nodes ->
  node' ∈ nodes' -> v ∈ node_unique_verts node' ->
  v ∈ concat (map node_unique_verts nodes).
Proof.
  intros Hmap Hn Hv. rewrite <- Hmap.
  apply list_elem_of_lookup in Hn as [i Hi].
  by apply (elem_of_concat_lookup node_unique_verts nodes' i node').
Qed.

Lemma vert_hide_update_twice (test : nat -> bool) (value : bool) (ob : MeshObject) :
  nodes_in_range node_unique_verts (length (hide_vert_span (mo_mesh ob))) (mo_nodes ob) ->
  vert_hide_update (vert_hide_update ob (calc_hide_where test value))
    (calc_hide_where test value)
  = vert_hide_update ob (calc_hide_where test value).
Proof.
  intros Hrange.
  pose proof (vert_hide_update_hide_vert test value ob) as Hhv.
  pose proof (vert_hide_update_nodes_verts (calc_hide_where test value) ob) as Hnodes.
  set (ob1 := vert_hide_update ob (calc_hide_where test value)) in *.
  set (hv1 := foldl (fun (l : list bool) v => if test v then <[v := value]> l else l)
                (hide_vert_span (mo_mesh ob)) (concat (map node_unique_verts (mo_nodes ob))))
    in *.
  unfold vert_hide_update at 1.
  assert (Hspan : hide_vert_span (mo_mesh ob1) = hv1)
    by (unfold hide_vert_span; by rewrite Hhv).
  rewrite Hspan.
  rewrite vert_hide_update_loop_fixed.
  - rewrite set_hide_vert_same by done. by destruct ob1.
  - intros node' v Hn Hv Ht. unfold hv1. rewrite foldl_set_get.
    assert (Hin : v ∈ concat (map node_unique_verts (mo_nodes ob)))
      by (by apply (elem_of_map_unique_verts _ (mo_nodes ob1) node')).
    rewrite decide_True; [done|]. split; [by split|].
    apply list_elem_of_lookup in Hn as [i Hi].
    assert (Hi' : map node_unique_verts (mo_nodes ob1) !! i = Some (node_unique_verts node'))
      by (by rewrite list_lookup_fmap, Hi).
    rewrite Hnodes in Hi'. rewrite list_lookup_fmap in Hi'.
    destruct (mo_nodes ob !! i) as [node|] eqn:En; [|discriminate].
    simpl in Hi'. injection Hi' as Heq.
    apply (nodes_in_range_lookup node_unique_verts _ (mo_nodes ob) i node v Hrange En).
    by rewrite Heq.
Qed.

(** X11: when the unique vertices of the nodes are vertices of the mesh,
    repeating the same gesture update of the polygon mesh changes nothing: the
    object after the second update (attributes, nodes, undo log) is the object
    after the first, so the second update pushes no undo step. *)
Theorem partialvis_gesture_update_mesh_twice (is_affected : nat -> bool) (ob : MeshObject)
    (action : VisAction) :
  nodes_in_range node_unique_verts (length (hide_vert_span (mo_mesh ob))) (mo_nodes ob) ->
  partialvis_gesture_update_mesh is_affected
    (partialvis_gesture_update_mesh is_affected ob action) action
  = partialvis_gesture_update_mesh is_affected ob action.
Proof.
  intros Hrange.
  pose proof (vert_hide_update_hide_vert is_affected (action_to_hide action) ob) as Hhv.
  pose proof (vert_hide_update_twice is_affected (action_to_hide action) ob Hrange) as Htw.
  unfold partialvis_gesture_update_mesh. destruct action; [exact Htw|].
  destruct (hide_vert (mo_mesh ob)) eqn:E; [|by rewrite E].
  rewrite Hhv. exact Htw.
Qed.

Lemma partialvis_gesture_update_mesh_twice_witness :
  nodes_in_range node_unique_verts (length (hide_vert_span (mo_mesh quad_object)))
    (mo_nodes quad_object) /\
  partialvis_gesture_update_mesh (Nat.eqb 1)
    (partialvis_gesture_update_mesh (Nat.eqb 1) quad_object Hide) Hide
  = partialvis_gesture_update_mesh (Nat.eqb 1) quad_object Hide.
Proof.
  assert (H1 : nodes_in_range node_unique_verts
                 (length (hide_vert_span (mo_mesh quad_object))) (mo_nodes quad_object)).
  { unfold nodes_in_range. simpl. repeat constructor. }
  split; [exact H1|].
  exact (partialvis_gesture_update_mesh_twice (Nat.eqb 1) quad_object Hide H1).
Defined.

(** *** The undo pushes of the polygon-mesh filter *)

Lemma existsb_differs (old new : list bool) (verts : list nat) :
  existsb (fun vert => negb (Bool.eqb (span_get old vert) (span_get new vert))) verts = true
  <-> exists v, v ∈ verts /\ span_get new v <> span_get old v.
Proof.
  rewrite existsb_exists. split.
  - intros (v & Hv & Hne). exists v. split; [by apply list_elem_of_In|].
    apply negb_true_iff, eqb_false_iff in Hne. congruence.
  - intros (v & Hv & Hne). exists v. split; [by apply list_elem_of_In|].
    apply negb_true_iff, eqb_false_iff. congruence.
Qed.

Lemma update_undo_state_from_spec old new nodes : forall i undo,
  exists pushes,
    update_undo_state_from i nodes old new undo = undo ++ pushes /\
    forall j, (j, HideVert) ∈ pushes <->
      exists node, nodes !! (j - i) = Some node /\ i <= j /\
        exists v, v ∈ node_unique_verts node /\ span_get new v <> span_get old v.
Proof.
  induction nodes as [|node rest IH]; intros i undo.
  - exists []. split; [by rewrite app_nil_r|]. intros j. split.
    + intros H. by apply elem_of_nil in H.
    + intros (n & Hn & _). by rewrite lookup_nil in Hn.
  - cbn [update_undo_state_from].
    destruct (existsb _ (node_unique_verts node)) eqn:E.
    + destruct (IH (S i) (undo ++ [(i, HideVert)])) as (pushes & Heq & Hiff).
      exists ((i, HideVert) :: pushes). split; [by rewrite Heq, <- app_assoc|].
      intros j. rewrite elem_of_cons, Hiff. split.
      * intros [Hj|(n & Hn & Hle & Hv)].
        -- injection Hj as ->. exists node. rewrite Nat.sub_diag.
           split; [done|]. split; [lia|]. by apply existsb_differs.
        -- exists n. replace (j - i) with (S (j - S i)) by lia. split; [done|].
           split; [lia | done].
      * intros (n & Hn & Hle & Hv).
        destruct (decide (j = i)) as [->|Hne]; [by left|]. right.
        exists n. replace (j - i) with (S (j - S i)) in Hn by lia.
        split; [done|]. split; [lia | done].
    + destruct (IH (S i) undo) as (pushes & Heq & Hiff).
      exists pushes. split; [done|]. intros j. rewrite Hiff. split.
      * intros (n & Hn & Hle & Hv). exists n.
        replace (j - i) with (S (j - S i)) by lia. split; [done|]. split; [lia | done].
      * intros (n & Hn & Hle & Hv).
        destruct (decide (j = i)) as [->|Hne].
        -- rewrite Nat.sub_diag in Hn. injection Hn as <-.
           apply existsb_differs in Hv. congruence.
        -- exists n. replace (j - i) with (S (j - S i)) in Hn by lia.
           split; [done|]. split; [lia | done].
Qed.

(** X12: the polygon-mesh filter pushes an undo step for a node exactly when
    the hidden flag of one of the node's unique vertices differs between the
    flags before the filter and the flags after it. *)
Theorem grow_shrink_visibility_mesh_undo (ob : MeshObject) (action : VisAction)
    (iterations : nat) :
  exists pushes,
    mo_undo (grow_shrink_visibility_mesh ob action iterations) = mo_undo ob ++ pushes /\
    forall i node, mo_nodes ob !! i = Some node ->
      ((i, HideVert) ∈ pushes <->
       exists v, v ∈ node_unique_verts node /\
         span_get (hide_vert_span (mo_mesh (grow_shrink_visibility_mesh ob action iterations))) v
         <> span_get (hide_vert_span (mo_mesh ob)) v).
Proof.
  unfold grow_shrink_visibility_mesh.
  destruct (hide_vert (mo_mesh ob)) as [hv|] eqn:Ehv.
  - unfold propagate_vertex_visibility.
    destruct (propagate_from _ action iterations 0 (mo_mesh ob, mkDualBuffer hv hv))
      as [m1 buffers1].
    cbn [mo_undo mo_mesh]. unfold update_undo_state.
    destruct (update_undo_state_from_spec hv (write_buffer buffers1 (Z.of_nat iterations - 1))
                (mo_nodes ob) 0 (mo_undo ob)) as (pushes & Heq & Hiff).
    exists pushes. split; [exact Heq|]. intros i node Hi. rewrite Hiff.
    unfold hide_vert_span. rewrite Ehv. cbn. split.
    + intros (n & Hn & _ & Hv). rewrite Nat.sub_0_r, Hi in Hn. by injection Hn as <-.
    + intros Hv. exists node. rewrite Nat.sub_0_r. split; [done|]. split; [lia | done].
  - exists []. split; [by rewrite app_nil_r|]. intros i node Hi. split.
    + intros H. by apply elem_of_nil in H.
    + intros (v & _ & Hne). done.
Qed.

(** *** Show all: which nodes are pushed *)

Lemma mesh_show_all_loop_spec hv nodes : forall i undo,
  let r := mesh_show_all_loop hv i nodes undo in
  exists pushes,
    r.2 = undo ++ pushes /\
    (forall j, (j, HideVert) ∈ pushes <->
       exists node, nodes !! (j - i) = Some node /\ i <= j /\
         existsb (span_get hv) (node_verts node) = true).
Proof.
  induction nodes as [|node rest IH]; intros i undo.
  - exists []. split; [simpl; by rewrite app_nil_r|]. intros j. split.
    + intros H. by apply elem_of_nil in H.
    + intros (n & Hn & _). by rewrite lookup_nil in Hn.
  - cbn [mesh_show_all_loop].
    destruct (existsb (span_get hv) (node_verts node)) eqn:E.
    + specialize (IH (S i) (undo ++ [(i, HideVert)])).
      destruct (mesh_show_all_loop hv (S i) rest _) as [rest' undo'].
      simpl in *. destruct IH as (pushes & Heq & Hiff).
      exists ((i, HideVert) :: pushes). split; [by rewrite Heq, <- app_assoc|].
      intros j. rewrite elem_of_cons, Hiff. split.
      * intros [Hj|(n & Hn & Hle & Hv)].
        -- injection Hj as ->. exists node. rewrite Nat.sub_diag.
           split; [done|]. split; [lia | done].
        -- exists n. replace (j - i) with (S (j - S i)) by lia. split; [done|].
           split; [lia | done].
      * intros (n & Hn & Hle & Hv).
        destruct (decide (j = i)) as [->|Hne]; [by left|]. right.
        exists n. replace (j - i) with (S (j - S i)) in Hn by lia.
        split; [done|]. split; [lia | done].
    + specialize (IH (S i) undo).
      destruct (mesh_show_all_loop hv (S i) rest undo) as [rest' undo'].
      simpl in *. destruct IH as (pushes & Heq & Hiff).
      exists pushes. split; [done|]. intros j. rewrite Hiff. split.
      * intros (n & Hn & Hle & Hv). exists n.
        replace (j - i) with (S (j - S i)) by lia. split; [done|]. split; [lia | done].
      * intros (n & Hn & Hle & Hv).
        destruct (decide (j = i)) as [->|Hne].
        -- rewrite Nat.sub_diag in Hn. injection Hn as <-. congruence.
        -- exists n. replace (j - i) with (S (j - S i)) in Hn by lia.
           split; [done|]. split; [lia | done].
Qed.

(** X13: [mesh_show_all] pushes an undo step for a node exactly when one of
    the node's vertices (shared ones included) is hidden, leaves no node marked
    fully hidden and leaves every vertex visible. *)
Theorem mesh_show_all_pushes (ob : MeshObject) :
  (exists pushes,
     mo_undo (mesh_show_all ob) = mo_undo ob ++ pushes /\
     forall i node, mo_nodes ob !! i = Some node ->
       ((i, HideVert) ∈ pushes <->
        exists v, v ∈ node_verts node /\ span_get (hide_vert_span (mo_mesh ob)) v = true)) /\
  Forall (fun node => fully_hidden node = false) (mo_nodes (mesh_show_all ob)) /\
  (forall v, span_get (hide_vert_span (mo_mesh (mesh_show_all ob))) v = false).
Proof.
  unfold mesh_show_all.
  destruct (hide_vert (mo_mesh ob)) as [hv|] eqn:Ehv.
  - pose proof (mesh_show_all_loop_spec hv (mo_nodes ob) 0 (mo_undo ob)) as H.
    destruct (mesh_show_all_loop hv 0 (mo_nodes ob) (mo_undo ob)) as [nodes1 undo1].
    simpl in H. destruct H as (pushes & Heq & Hiff). cbn [mo_undo mo_nodes mo_mesh].
    split; [|split].
    + exists pushes. split; [done|]. intros i node Hi. rewrite Hiff.
      unfold hide_vert_span. rewrite Ehv. cbn. rewrite Nat.sub_0_r. split.
      * intros (n & Hn & _ & Hv). rewrite Hi in Hn. injection Hn as <-.
        apply existsb_exists in Hv as (v & Hv & Hb).
        exists v. split; [by apply list_elem_of_In | done].
      * intros (v & Hv & Hb). exists node. split; [done|]. split; [lia|].
        apply existsb_exists. exists v. split; [by apply list_elem_of_In | done].
    + apply Forall_forall. intros n Hn.
      apply list_elem_of_fmap in Hn as (n0 & -> & _). done.
    + intros v. apply span_get_replicate_false.
  - cbn [mo_undo mo_nodes mo_mesh]. split; [|split].
    + exists []. split; [by rewrite app_nil_r|]. intros i node Hi. split.
      * intros H. by apply elem_of_nil in H.
      * intros (v & _ & Hb). unfold hide_vert_span in Hb. rewrite Ehv in Hb.
        cbn in Hb. by rewrite span_get_replicate_false in Hb.
    + apply Forall_forall. intros n Hn.
      apply list_elem_of_fmap in Hn as (n0 & -> & _). done.
    + intros v. apply span_get_replicate_false.
Qed.

(** X14: [grids_show_all] on an object in which no grid of a node of the span
    has a hidden element returns the object as it is: nothing is pushed, no
    node is touched, the bit structure stays allocated and no external call is
    made. *)
Theorem grids_show_all_nothing_hidden (ob : GridObject) :
  (forall node g, node ∈ go_nodes ob -> g ∈ node_grid_indices node ->
                  true ∉ grid_bits (grid_hidden (go_ccg ob)) g) ->
  grids_show_all ob = ob.
Proof.
  intros Hnone. unfold grids_show_all.
  destruct (grid_hidden (go_ccg ob)) as [|bits gh] eqn:Egh; [done|].
  pose proof (grids_show_all_loop_changed (bits :: gh) (go_nodes ob) 0 (go_undo ob) false)
    as Hc.
  destruct (grids_show_all_loop (bits :: gh) 0 (go_nodes ob) (go_undo ob) false)
    as [[nodes1 undo] any_changed].
  simpl in Hc. subst any_changed.
  assert (existsb (fun node => existsb (fun g => existsb id (grid_bits (bits :: gh) g))
                                       (node_grid_indices node)) (go_nodes ob) = false) as ->;
    [|done].
  apply not_true_is_false. intros H.
  apply existsb_exists in H as (node & Hn & H).
  apply existsb_exists in H as (g & Hg & H).
  apply existsb_exists in H as (b & Hb & Hid).
  unfold id in Hid. subst b.
  apply (Hnone node g); by apply list_elem_of_In.
Qed.

Lemma grids_show_all_nothing_hidden_witness :
  (forall node g, node ∈ go_nodes visible_grid_object -> g ∈ node_grid_indices node ->
                  true ∉ grid_bits (grid_hidden (go_ccg visible_grid_object)) g) /\
  grids_show_all visible_grid_object = visible_grid_object.
Proof.
  assert (H : forall node g, node ∈ go_nodes visible_grid_object ->
                g ∈ node_grid_indices node ->
                true ∉ grid_bits (grid_hidden (go_ccg visible_grid_object)) g).
  { intros node g Hn Hg. simpl in Hn. apply elem_of_cons in Hn as [->|Hn].
    - simpl in Hg. apply elem_of_cons in Hg as [->|Hg].
      + unfold grid_bits. simpl. intros Hin.
        repeat (apply elem_of_cons in Hin as [Hin|Hin]; [discriminate|]).
        by apply elem_of_nil in Hin.
      + by apply elem_of_nil in Hg.
    - by apply elem_of_nil in Hn. }
  split; [exact H|]. exact (grids_show_all_nothing_hidden visible_grid_object H).
Defined.

(** *** The masked update without a mask *)

(** X15: on a polygon mesh without a mask attribute, masked hide returns the
    object as it is (the hidden attribute is not even created), and masked
    show does what show-all does. *)
Theorem partialvis_masked_update_mesh_no_mask (ob : MeshObject) :
  default [] (sculpt_mask (mo_mesh ob)) = [] ->
  partialvis_masked_update_mesh ob Hide = ob /\
  partialvis_masked_update_mesh ob Show = partialvis_all_update_mesh ob Show.
Proof.
  intros Hm. unfold partialvis_masked_update_mesh, partialvis_all_update_mesh.
  rewrite Hm. by destruct (hide_vert (mo_mesh ob)).
Qed.

Lemma partialvis_masked_update_mesh_no_mask_witness :
  default [] (sculpt_mask (mo_mesh quad_object)) = [] /\
  partialvis_masked_update_mesh quad_object Hide = quad_object.
Proof.
  split; [reflexivity|].
  exact (proj1 (partialvis_masked_update_mesh_no_mask quad_object eq_refl)).
Defined.

Lemma fill_twice (value : bool) (bits : list bool) :
  fill value (fill value bits) = fill value bits.
Proof. unfold fill. by rewrite length_replicate. Qed.

(** X16: on a grid object whose key has no mask, the masked update gives the
    action's value to every element of every grid of the span's nodes,
    whatever the elements are, and leaves the other grids as they were. *)
Theorem partialvis_masked_update_grids_no_mask (ob : GridObject) (action : VisAction)
    (g : nat) :
  has_mask (go_ccg ob) = false ->
  grid_bits (grid_hidden (go_ccg (partialvis_masked_update_grids ob action))) g =
    if decide (g ∈ concat (map node_grid_indices (go_nodes ob))
               /\ g < length (grid_hidden_ensure (go_ccg ob)))
    then replicate (length (grid_bits (grid_hidden_ensure (go_ccg ob)) g))
           (action_to_hide action)
    else grid_bits (grid_hidden_ensure (go_ccg ob)) g.
Proof.
  intros Hm. unfold partialvis_masked_update_grids. rewrite Hm. simpl.
  unfold grid_hide_update.
  pose proof (grid_hide_update_loop_spec (fun _ hide => fill (action_to_hide action) hide)
                (fun _ bits => fill_twice (action_to_hide action) bits)
                (go_nodes ob) 0 (grid_hidden_ensure (go_ccg ob)) (go_undo ob) false) as Hloop.
  destruct (grid_hide_update_loop _ 0 (go_nodes ob) (grid_hidden_ensure (go_ccg ob))
              (go_undo ob) false) as [[[gh' nodes'] undo'] changed].
  simpl in Hloop. destruct Hloop as (_ & Hget & _).
  cbn [go_ccg grid_hidden set_grid_hidden]. apply Hget.
Qed.

Lemma partialvis_masked_update_grids_no_mask_witness :
  has_mask (go_ccg one_grid_object) = false /\
  grid_bits (grid_hidden (go_ccg (partialvis_masked_update_grids one_grid_object Hide))) 0
  = [true; true; true; true].
Proof.
  split; [reflexivity|].
  exact (partialvis_masked_update_grids_no_mask one_grid_object Hide 0 eq_refl).
Defined.

(** *** The predicate-driven update of grids, element by element *)

Lemma elem_of_concat_map {A B : Type} (f : A -> list B) (l : list A) (x : B) :
  x ∈ concat (map f l) <-> exists y, y ∈ l /\ x ∈ f y.
Proof.
  induction l as [|a l IH]; simpl.
  - split; [intros H; by apply elem_of_nil in H | intros (y & Hy & _); by apply elem_of_nil in Hy].
  - rewrite elem_of_app, IH. split.
    + intros [H|(y & Hy & H)].
      * exists a. split; [apply elem_of_cons; by left | done].
      * exists y. split; [apply elem_of_cons; by right | done].
    + intros (y & Hy & H). apply elem_of_cons in Hy as [->|Hy]; [by left|].
      right. eauto.
Qed.

Lemma elem_of_grid_elems (gs e : nat) :
  e ∈ concat (map (fun y => map (fun x => y * gs + x) (seq 0 gs)) (seq 0 gs))
  <-> e < gs * gs.
Proof.
  rewrite elem_of_concat_map. split.
  - intros (y & Hy & He). apply elem_of_seq in Hy.
    apply list_elem_of_fmap in He as (x & -> & Hx). apply elem_of_seq in Hx. nia.
  - intros He. assert (Hgs : gs <> 0) by (intros ->; lia).
    exists (e / gs). split.
    + apply elem_of_seq. split; [lia|]. simpl. apply Nat.Div0.div_lt_upper_bound. lia.
    + apply list_elem_of_fmap. exists (e mod gs). split.
      * rewrite (Nat.div_mod_eq e gs) at 1. lia.
      * apply elem_of_seq. split; [lia|]. simpl. by apply Nat.mod_upper_bound.
Qed.

Lemma calc_hide_grid_where_get test gs value grid bits e :
  span_get (calc_hide_grid_where test gs value grid bits) e =
    if decide ((e < gs * gs /\ test grid e = true) /\ e < length bits)
    then value else span_get bits e.
Proof.
  rewrite calc_hide_grid_where_flat, foldl_set_get.
  destruct (decide ((e ∈ concat (map (fun y => map (fun x => y * gs + x) (seq 0 gs))
                                   (seq 0 gs)) /\ test grid e = true) /\ e < length bits))
    as [[[H1 H2] H3]|H];
    destruct (decide ((e < gs * gs /\ test grid e = true) /\ e < length bits))
      as [[[H4 H5] H6]|H4]; try done.
  - destruct H4. split; [split|]; [by apply elem_of_grid_elems | done | done].
  - destruct H. split; [split|]; [by apply elem_of_grid_elems | done | done].
Qed.

(** X17: after a gesture update of a grid object, an element has the action's
    value when its grid belongs to a node of the span, its index is below
    [grid_size * grid_size] and it is affected by the gesture; every other
    element keeps its bit. *)
Theorem partialvis_gesture_update_grids_exact (is_affected : nat -> nat -> bool)
    (ob : GridObject) (action : VisAction) (g e : nat) :
  span_get (grid_bits (grid_hidden (go_ccg
              (partialvis_gesture_update_grids is_affected ob action))) g) e =
    if decide (((g ∈ concat (map node_grid_indices (go_nodes ob))
                 /\ g < length (grid_hidden_ensure (go_ccg ob)))
                /\ (e < grid_size (go_ccg ob) * grid_size (go_ccg ob)
                    /\ is_affected g e = true))
               /\ e < length (grid_bits (grid_hidden_ensure (go_ccg ob)) g))
    then action_to_hide action
    else span_get (grid_bits (grid_hidden_ensure (go_ccg ob)) g) e.
Proof.
  unfold partialvis_gesture_update_grids, grid_hide_update.
  set (calc := calc_hide_grid_where is_affected (grid_size (go_ccg ob))
                 (action_to_hide action)).
  pose proof (grid_hide_update_loop_spec calc
                (calc_hide_grid_where_twice is_affected (grid_size (go_ccg ob))
                   (action_to_hide action))
                (go_nodes ob) 0 (grid_hidden_ensure (go_ccg ob)) (go_undo ob) false) as Hloop.
  destruct (grid_hide_update_loop calc 0 (go_nodes ob) (grid_hidden_ensure (go_ccg ob))
              (go_undo ob) false) as [[[gh' nodes'] undo'] changed].
  simpl in Hloop. destruct Hloop as (_ & Hget & _).
  cbn [go_ccg grid_hidden set_grid_hidden]. rewrite Hget.
  destruct (decide (g ∈ concat (map node_grid_indices (go_nodes ob))
                    /\ g < length (grid_hidden_ensure (go_ccg ob)))) as [Hg|Hg].
  - unfold calc. rewrite calc_hide_grid_where_get.
    destruct (decide ((e < grid_size (go_ccg ob) * grid_size (go_ccg ob)
                       /\ is_affected g e = true)
                      /\ e < length (grid_bits (grid_hidden_ensure (go_ccg ob)) g)))
      as [[H1 H2]|H1].
    + by rewrite decide_True.
    + rewrite decide_False; [done|]. intros [[_ H3] H4]. by apply H1.
  - rewrite decide_False; [done|]. by intros [[H _] _].
Qed.

Lemma grid_hide_update_loop_fixed calc_hide nodes gh :
  (forall node g, node ∈ nodes -> g ∈ node_grid_indices node ->
                  calc_hide g (grid_bits gh g) = grid_bits gh g) ->
  forall i undo c,
    grid_hide_update_loop calc_hide i nodes gh undo c = (gh, nodes, undo, c).
Proof.
  induction nodes as [|node rest IH]; intros H i undo c; [done|].
  simpl.
  assert (map (fun g => calc_hide g (grid_bits gh g)) (node_grid_indices node)
          = map (grid_bits gh) (node_grid_indices node)) as ->.
  { apply map_ext_in. intros g Hg. apply (H node g); [apply elem_of_cons; by left|].
    by apply list_elem_of_In. }
  rewrite grids_equal_same, IH; [done|].
  intros n g Hn. apply H. apply elem_of_cons. by right.
Qed.

Lemma grid_hide_update_loop_grids calc_hide nodes : forall i gh undo c,
  map node_grid_indices (grid_hide_update_loop calc_hide i nodes gh undo c).1.1.2
  = map node_grid_indices nodes.
Proof.
  induction nodes as [|node rest IH]; intros i gh undo c; [done|].
  cbn [grid_hide_update_loop].
  destruct (grids_equal gh (node_grid_indices node) _).
  - specialize (IH (S i) gh undo c).
    destruct (grid_hide_update_loop calc_hide (S i) rest gh undo c)
      as [[[gh' rest'] undo'] c'].
    simpl in *. by rewrite IH.
  - match goal with
    | |- context [grid_hide_update_loop calc_hide (S i) rest ?g ?u true] =>
        specialize (IH (S i) g u true)
    end.
    destruct (grid_hide_update_loop calc_hide (S i) rest _ _ true)
      as [[[gh' rest'] undo'] c'].
    simpl in *. by rewrite IH.
Qed.

(** X18: repeating the same gesture update of a grid object changes nothing:
    the object after the second update (bits, nodes, undo log, external calls)
    is the object after the first, so the second update pushes no undo
    step. *)
Theorem partialvis_gesture_update_grids_twice (is_affected : nat -> nat -> bool)
    (ob : GridObject) (action : VisAction) :
  partialvis_gesture_update_grids is_affected
    (partialvis_gesture_update_grids is_affected ob action) action
  = partialvis_gesture_update_grids is_affected ob action.
Proof.
  unfold partialvis_gesture_update_grids, grid_hide_update.
  set (calc := calc_hide_grid_where is_affected (grid_size (go_ccg ob))
                 (action_to_hide action)).
  pose proof (grid_hide_update_loop_spec calc
                (calc_hide_grid_where_twice is_affected (grid_size (go_ccg ob))
                   (action_to_hide action))
                (go_nodes ob) 0 (grid_hidden_ensure (go_ccg ob)) (go_undo ob) false) as Hloop.
  pose proof (grid_hide_update_loop_grids calc (go_nodes ob) 0
                (grid_hidden_ensure (go_ccg ob)) (go_undo ob) false) as Hgrids.
  destruct (grid_hide_update_loop calc 0 (go_nodes ob) (grid_hidden_ensure (go_ccg ob))
              (go_undo ob) false) as [[[gh1 nodes1] undo1] changed].
  simpl in Hloop, Hgrids. destruct Hloop as (Hlen & Hget & _).
  cbn [go_ccg go_nodes go_undo go_calls grid_size set_grid_hidden].
  fold calc.
  rewrite grid_hidden_ensure_set by done.
  rewrite grid_hide_update_loop_fixed; [done|].
  intros node' g Hn Hg. rewrite Hget.
  destruct (decide (g ∈ concat (map node_grid_indices (go_nodes ob))
                    /\ g < length (grid_hidden_ensure (go_ccg ob)))) as [_|Hdec].
  - unfold calc. apply calc_hide_grid_where_twice.
  - assert (Hin : g ∈ concat (map node_grid_indices (go_nodes ob))).
    { rewrite <- Hgrids. apply list_elem_of_lookup in Hn as [i Hi].
      by apply (elem_of_concat_lookup node_grid_indices nodes1 i node'). }
    assert (Hge : length (grid_hidden_ensure (go_ccg ob)) <= g).
    { destruct (decide (g < length (grid_hidden_ensure (go_ccg ob)))); [|lia].
      by destruct Hdec. }
    unfold grid_bits. rewrite lookup_ge_None_2 by lia. simpl.
    apply nil_length_inv. unfold calc. by rewrite calc_hide_grid_where_length.
Qed.

(** *** The dynamic-topology flush from faces *)

Lemma foldl_insert_get (b : bool) (indices : list nat) (l : list bool) (k : nat) :
  span_get (foldl (fun (l : list bool) v => <[v := b]> l) l indices) k =
    if decide (k ∈ indices /\ k < length l) then b else span_get l k.
Proof.
  pose proof (foldl_set_get (fun _ => true) b indices l k) as H. cbv beta in H.
  rewrite H.
  destruct (decide ((k ∈ indices /\ true = true) /\ k < length l)) as [[[H1 _] H2]|H1];
    destruct (decide (k ∈ indices /\ k < length l)) as [[H3 H4]|H3]; try done.
  - destruct H3. auto.
  - destruct H1. auto.
Qed.

Lemma foldl_insert_length (b : bool) (indices : list nat) (l : list bool) :
  length (foldl (fun (l : list bool) v => <[v := b]> l) l indices) = length l.
Proof. exact (foldl_set_length (fun _ => true) b indices l). Qed.

Lemma set_loops_spec (b : bool) loops : forall fl,
  bmf_vert (set_loops b loops fl)
    = foldl (fun (l : list bool) v => <[v := b]> l) (bmf_vert fl) (map fst loops) /\
  bmf_edge (set_loops b loops fl)
    = foldl (fun (l : list bool) v => <[v := b]> l) (bmf_edge fl) (map snd loops) /\
  bmf_face (set_loops b loops fl) = bmf_face fl.
Proof.
  unfold set_loops. induction loops as [|l loops IH]; intros fl; [done|].
  cbn [foldl map]. destruct (IH (mkBMFlags (<[l.1 := b]> (bmf_vert fl))
                                   (<[l.2 := b]> (bmf_edge fl)) (bmf_face fl)))
    as (-> & -> & ->). done.
Qed.

Lemma hide_all_loops_spec face_loops : forall fl,
  let r := foldl (fun fl loops => set_loops true loops fl) fl face_loops in
  bmf_vert r = foldl (fun (l : list bool) v => <[v := true]> l) (bmf_vert fl)
                 (concat (map (map fst) face_loops)) /\
  bmf_edge r = foldl (fun (l : list bool) v => <[v := true]> l) (bmf_edge fl)
                 (concat (map (map snd) face_loops)) /\
  bmf_face r = bmf_face fl.
Proof.
  induction face_loops as [|loops rest IH]; intros fl; [done|].
  cbn [foldl map concat]. destruct (IH (set_loops true loops fl)) as (-> & -> & ->).
  destruct (set_loops_spec true loops fl) as (-> & -> & ->).
  by rewrite !foldl_app.
Qed.

Lemma show_visible_loops_spec (pairs : list (nat * list (nat * nat))) : forall fl,
  let r := foldl (fun fl '(f, loops) =>
                    if span_get (bmf_face fl) f then fl else set_loops false loops fl)
                 fl pairs in
  bmf_vert r = foldl (fun (l : list bool) v => <[v := false]> l) (bmf_vert fl)
                 (concat (map (fun p : nat * list (nat * nat) =>
                                 if span_get (bmf_face fl) p.1 then [] else map fst p.2)
                              pairs)) /\
  bmf_edge r = foldl (fun (l : list bool) v => <[v := false]> l) (bmf_edge fl)
                 (concat (map (fun p : nat * list (nat * nat) =>
                                 if span_get (bmf_face fl) p.1 then [] else map snd p.2)
                              pairs)) /\
  bmf_face r = bmf_face fl.
Proof.
  induction pairs as [|[f loops] rest IH]; intros fl; [done|].
  cbn [foldl map concat fst snd].
  destruct (span_get (bmf_face fl) f) eqn:Ef.
  - apply IH.
  - destruct (IH (set_loops false loops fl)) as (H1 & H2 & H3).
    destruct (set_loops_spec false loops fl) as (Hv & He & Hf).
    rewrite Hf in H1, H2, H3. rewrite H1, H2, H3, Hv, He.
    by rewrite !foldl_app.
Qed.

Lemma elem_of_visible_loops (sel : nat * nat -> nat) (face_flags : list bool)
    (pairs : list (nat * list (nat * nat))) (k : nat) :
  k ∈ concat (map (fun p : nat * list (nat * nat) =>
                     if span_get face_flags p.1 then [] else map sel p.2) pairs)
  <-> existsb (fun p : nat * list (nat * nat) =>
                 negb (span_get face_flags p.1) && bool_decide (k ∈ map sel p.2)) pairs
      = true.
Proof.
  rewrite elem_of_concat_map, existsb_exists. split.
  - intros (p & Hp & Hk). exists p. split; [by apply list_elem_of_In|].
    destruct (span_get face_flags p.1); [by apply elem_of_nil in Hk|].
    by apply bool_decide_eq_true_2.
  - intros (p & Hp & Hk). exists p. split; [by apply list_elem_of_In|].
    destruct (span_get face_flags p.1); [done|].
    by apply bool_decide_eq_true_1 in Hk.
Qed.

Lemma elem_of_all_loops (sel : nat * nat -> nat) (face_loops : list (list (nat * nat)))
    (k : nat) :
  k ∈ concat (map (map sel) face_loops) <-> some_face_has sel face_loops k = true.
Proof.
  unfold some_face_has. rewrite elem_of_concat_map, existsb_exists. split.
  - intros (loops & Hl & Hk). exists loops. split; [by apply list_elem_of_In|].
    by apply bool_decide_eq_true_2.
  - intros (loops & Hl & Hk). exists loops. split; [by apply list_elem_of_In|].
    by apply bool_decide_eq_true_1 in Hk.
Qed.

(** The two passes on one flag array. *)
Lemma two_pass_get (sel : nat * nat -> nat) (face_flags : list bool)
    (face_loops : list (list (nat * nat))) (l : list bool) (k : nat) :
  span_get
    (foldl (fun (l : list bool) v => <[v := false]> l)
       (foldl (fun (l : list bool) v => <[v := true]> l) l
          (concat (map (map sel) face_loops)))
       (concat (map (fun p : nat * list (nat * nat) =>
                       if span_get face_flags p.1 then [] else map sel p.2)
                    (imap (fun f loops => (f, loops)) face_loops)))) k =
    if visible_face_has sel face_flags face_loops k then false
    else if some_face_has sel face_loops k then bool_decide (k < length l)
         else span_get l k.
Proof.
  rewrite foldl_insert_get, foldl_insert_length, foldl_insert_get.
  pose proof (elem_of_visible_loops sel face_flags
                (imap (fun f loops => (f, loops)) face_loops) k) as Hvis.
  pose proof (elem_of_all_loops sel face_loops k) as Hall.
  fold (visible_face_has sel face_flags face_loops k) in Hvis.
  destruct (visible_face_has sel face_flags face_loops k) eqn:Ev.
  - destruct (decide _) as [_|Hn]; [done|].
    destruct (decide (k < length l)) as [Hlt|Hge].
    + destruct Hn. split; [by apply Hvis | done].
    + destruct (decide _) as [[_ ?]|_]; [lia|]. apply span_get_ge. lia.
  - rewrite decide_False by (intros [H _]; apply Hvis in H; discriminate).
    destruct (some_face_has sel face_loops k) eqn:Es.
    + destruct (decide (k < length l)) as [Hlt|Hge].
      * rewrite decide_True by (split; [by apply Hall | done]).
        by rewrite bool_decide_eq_true_2.
      * rewrite decide_False by (intros [_ ?]; lia).
        rewrite bool_decide_eq_false_2 by done. apply span_get_ge. lia.
    + rewrite decide_False; [done|]. intros [H _]. apply Hall in H. discriminate.
Qed.

Lemma sync_all_from_faces_bmesh_spec face_loops fl :
  let r := sync_all_from_faces_bmesh face_loops fl in
  bmf_face r = bmf_face fl /\
  length (bmf_vert r) = length (bmf_vert fl) /\
  length (bmf_edge r) = length (bmf_edge fl) /\
  (forall v, span_get (bmf_vert r) v =
     if visible_face_has fst (bmf_face fl) face_loops v then false
     else if some_face_has fst face_loops v then bool_decide (v < length (bmf_vert fl))
          else span_get (bmf_vert fl) v) /\
  (forall e, span_get (bmf_edge r) e =
     if visible_face_has snd (bmf_face fl) face_loops e then false
     else if some_face_has snd face_loops e then bool_decide (e < length (bmf_edge fl))
          else span_get (bmf_edge fl) e).
Proof.
  unfold sync_all_from_faces_bmesh.
  destruct (hide_all_loops_spec face_loops fl) as (Hv1 & He1 & Hf1).
  destruct (show_visible_loops_spec (imap (fun f loops => (f, loops)) face_loops)
              (foldl (fun fl loops => set_loops true loops fl) fl face_loops))
    as (Hv2 & He2 & Hf2).
  cbv zeta in *. rewrite Hf1 in Hv2, He2, Hf2. rewrite Hv1 in Hv2. rewrite He1 in He2.
  split; [exact Hf2|]. split; [by rewrite Hv2, !foldl_insert_length|].
  split; [by rewrite He2, !foldl_insert_length|]. split.
  - intros v. rewrite Hv2. apply two_pass_get.
  - intros e. rewrite He2. apply two_pass_get.
Qed.

(** X19: the dynamic-topology branch of [sync_all_from_faces] keeps the face
    flags and derives the others from them: a vertex (an edge) of a face that
    is not hidden ends visible; otherwise one that belongs to some face ends
    hidden; one that belongs to no face keeps its flag. *)
Theorem sync_all_from_faces_bmesh_exact (face_loops : list (list (nat * nat)))
    (fl : BMFlags) :
  bmf_face (sync_all_from_faces_bmesh face_loops fl) = bmf_face fl /\
  (forall v, span_get (bmf_vert (sync_all_from_faces_bmesh face_loops fl)) v =
     if visible_face_has fst (bmf_face fl) face_loops v then false
     else if some_face_has fst face_loops v then bool_decide (v < length (bmf_vert fl))
          else span_get (bmf_vert fl) v) /\
  (forall e, span_get (bmf_edge (sync_all_from_faces_bmesh face_loops fl)) e =
     if visible_face_has snd (bmf_face fl) face_loops e then false
     else if some_face_has snd face_loops e then bool_decide (e < length (bmf_edge fl))
          else span_get (bmf_edge fl) e).
Proof.
  destruct (sync_all_from_faces_bmesh_spec face_loops fl) as (H1 & _ & _ & H2 & H3).
  auto.
Qed.

(** X20: flushing from the faces twice is flushing once. *)
Theorem sync_all_from_faces_bmesh_twice (face_loops : list (list (nat * nat)))
    (fl : BMFlags) :
  sync_all_from_faces_bmesh face_loops (sync_all_from_faces_bmesh face_loops fl)
  = sync_all_from_faces_bmesh face_loops fl.
Proof.
  destruct (sync_all_from_faces_bmesh_spec face_loops fl) as (Hf & Hlv & Hle & Hv & He).
  destruct (sync_all_from_faces_bmesh_spec face_loops
              (sync_all_from_faces_bmesh face_loops fl)) as (Hf2 & Hlv2 & Hle2 & Hv2 & He2).
  cbv zeta in *.
  destruct (sync_all_from_faces_bmesh face_loops (sync_all_from_faces_bmesh face_loops fl))
    as [v2 e2 f2] eqn:E2.
  destruct (sync_all_from_faces_bmesh face_loops fl) as [v1 e1 f1] eqn:E1.
  simpl in *. f_equal.
  - apply span_ext; [done|]. intros k. rewrite Hv2, Hf, Hlv, Hv.
    destruct (visible_face_has fst (bmf_face fl) face_loops k); [done|].
    by destruct (some_face_has fst face_loops k).
  - apply span_ext; [done|]. intros k. rewrite He2, Hf, Hle, He.
    destruct (visible_face_has snd (bmf_face fl) face_loops k); [done|].
    by destruct (some_face_has snd face_loops k).
  - congruence.
Qed.

(** *** The polygon-mesh filter when no face is visited *)

Lemma propagate_faces_none action fs cv hp rd wr :
  (forall f, f < length fs -> span_get hp f = false) ->
  propagate_faces action fs cv hp rd wr = wr.
Proof.
  intros Hhp. unfold propagate_faces.
  assert (forall f, f ∈ seq 0 (length fs) -> span_get hp f = false) as Hin.
  { intros f Hf. apply Hhp. apply elem_of_seq in Hf. lia. }
  revert Hin. generalize (seq 0 (length fs)) as face_indices.
  intros face_indices. revert wr.
  induction face_indices as [|f rest IH]; intros wr Hin; [done|].
  cbn [foldl]. rewrite (Hin f) by (apply elem_of_cons; by left).
  cbn [negb]. apply IH. intros g Hg. apply Hin. apply elem_of_cons. by right.
Qed.

Lemma propagate_from_not_stored action hv remaining : forall i m,
  exists m', propagate_from false action remaining i (m, mkDualBuffer hv hv)
             = (m', mkDualBuffer hv hv) /\ faces m' = faces m.
Proof.
  induction remaining as [|remaining IH]; intros i m.
  - by exists m.
  - cbn [propagate_from]. unfold propagate_step.
    assert (propagate_faces action (faces m) (corner_verts m) (hide_poly_view false m)
              (read_buffer (mkDualBuffer hv hv) (Z.of_nat i))
              (write_buffer (mkDualBuffer hv hv) (Z.of_nat i)) = hv) as ->.
    { rewrite propagate_faces_none.
      - unfold write_buffer. by destruct (is_even_count _).
      - intros f _. apply span_get_replicate_false. }
    assert (set_write_buffer (mkDualBuffer hv hv) (Z.of_nat i) hv = mkDualBuffer hv hv) as ->.
    { unfold set_write_buffer. by destruct (is_even_count _). }
    destruct (IH (S i) (flush_face_changes m hv)) as (m' & Heq & Hf).
    exists m'. split; [exact Heq|]. by rewrite Hf.
Qed.

Lemma existsb_differs_same (l : list bool) (indices : list nat) :
  existsb (fun i => negb (Bool.eqb (span_get l i) (span_get l i))) indices = false.
Proof.
  induction indices as [|i rest IH]; [done|].
  cbn [existsb]. by rewrite eqb_reflx, IH.
Qed.

Lemma update_undo_state_from_same hv nodes : forall i undo,
  update_undo_state_from i nodes hv hv undo = undo.
Proof.
  induction nodes as [|node rest IH]; intros i undo; [done|].
  cbn [update_undo_state_from]. by rewrite existsb_differs_same, IH.
Qed.

Lemma update_node_visibility_from_face_changes_same nodes hp hv :
  update_node_visibility_from_face_changes nodes hp hp hv = nodes.
Proof.
  unfold update_node_visibility_from_face_changes.
  induction nodes as [|node rest IH]; [done|].
  cbn [map]. by rewrite existsb_differs_same, IH.
Qed.

(** X21: when the [".hide_poly"] attribute is not stored, the view the
    polygon-mesh filter takes with [lookup_or_default] reads false for every
    face, so every face is skipped: whatever the action and the iteration
    count, the vertex flags, the nodes and the undo log stay as they were. *)
Theorem grow_shrink_visibility_mesh_no_hide_poly (ob : MeshObject) (action : VisAction)
    (iterations : nat) :
  hide_poly (mo_mesh ob) = None ->
  hide_vert (mo_mesh (grow_shrink_visibility_mesh ob action iterations))
    = hide_vert (mo_mesh ob) /\
  mo_nodes (grow_shrink_visibility_mesh ob action iterations) = mo_nodes ob /\
  mo_undo (grow_shrink_visibility_mesh ob action iterations) = mo_undo ob.
Proof.
  intros Hhp. unfold grow_shrink_visibility_mesh.
  destruct (hide_vert (mo_mesh ob)) as [hv|] eqn:Ehv; [|by rewrite Ehv].
  rewrite Hhp. unfold propagate_vertex_visibility.
  replace (bool_decide (is_Some (@None (list bool)))) with false
    by (symmetry; apply bool_decide_eq_false_2; by intros [? ?]).
  destruct (propagate_from_not_stored action hv iterations 0 (mo_mesh ob))
    as (m' & -> & Hf).
  assert (write_buffer (mkDualBuffer hv hv) (Z.of_nat iterations - 1) = hv) as ->.
  { unfold write_buffer. by destruct (is_even_count _). }
  cbn [mo_mesh mo_nodes mo_undo hide_vert set_hide_vert].
  split; [done|]. split.
  - unfold hide_poly_view. cbn [faces flush_edge_changes set_hide_edge]. rewrite Hf.
    apply update_node_visibility_from_face_changes_same.
  - apply update_undo_state_from_same.
Qed.

Lemma grow_shrink_visibility_mesh_no_hide_poly_witness :
  hide_poly (set_hide_poly strip_mesh None) = None /\
  hide_vert (mo_mesh (grow_shrink_visibility_mesh
                        (mkMeshObject (set_hide_poly strip_mesh None) (mo_nodes strip_object) [])
                        Hide 3))
  = hide_vert strip_mesh.
Proof.
  split; [reflexivity|].
  exact (proj1 (grow_shrink_visibility_mesh_no_hide_poly
                  (mkMeshObject (set_hide_poly strip_mesh None) (mo_nodes strip_object) [])
                  Hide 3 eq_refl)).
Defined.

(** X22: the second iteration of the polygon-mesh filter writes into the
    buffer that still holds the flags the filter started from.  With the Show
    action, when one iteration leaves no face hidden, two iterations visit no
    face in the second one and store the flags the filter started from: no
    vertex flag changes. *)
Theorem grow_shrink_visibility_mesh_show_twice_resets (ob : MeshObject) :
  (forall f, f < length (faces (mo_mesh ob)) ->
     span_get (hide_poly_span (mo_mesh (grow_shrink_visibility_mesh ob Show 1))) f = false) ->
  hide_vert (mo_mesh (grow_shrink_visibility_mesh ob Show 2)) = hide_vert (mo_mesh ob).
Proof.
  unfold grow_shrink_visibility_mesh.
  destruct (hide_vert (mo_mesh ob)) as [hv|] eqn:Ehv; [|by rewrite Ehv].
  unfold propagate_vertex_visibility. cbn [propagate_from].
  destruct (propagate_step _ Show 0 (mo_mesh ob, mkDualBuffer hv hv)) as [m1 b1] eqn:E1.
  assert (faces m1 = faces (mo_mesh ob) /\ front b1 = hv /\
          hide_poly_span (set_hide_vert (flush_edge_changes m1
             (write_buffer b1 (Z.of_nat 1 - 1))) (Some (write_buffer b1 (Z.of_nat 1 - 1))))
          = hide_poly_span m1) as (Hf & Hfront & Hsame).
  { unfold propagate_step in E1. injection E1 as <- <-. done. }
  cbn [mo_mesh]. rewrite Hsame. intros Hvis.
  unfold propagate_step.
  assert (propagate_faces Show (faces m1) (corner_verts m1)
            (hide_poly_view (bool_decide (is_Some (hide_poly (mo_mesh ob)))) m1)
            (read_buffer b1 (Z.of_nat 1)) (write_buffer b1 (Z.of_nat 1)) = hv) as ->.
  { rewrite propagate_faces_none; [exact Hfront|].
    intros f Hlt. unfold hide_poly_view. destruct (bool_decide _).
    - apply Hvis. by rewrite <- Hf.
    - apply span_get_replicate_false. }
  cbn [hide_vert set_hide_vert]. f_equal.
Qed.

Lemma grow_shrink_visibility_mesh_show_twice_resets_witness :
  (forall f, f < length (faces (mo_mesh strip_object)) ->
     span_get (hide_poly_span
                 (mo_mesh (grow_shrink_visibility_mesh strip_object Show 1))) f = false) /\
  hide_vert (mo_mesh (grow_shrink_visibility_mesh strip_object Show 2))
    = hide_vert (mo_mesh strip_object).
Proof.
  assert (forall f, f < length (faces (mo_mesh strip_object)) ->
     span_get (hide_poly_span
                 (mo_mesh (grow_shrink_visibility_mesh strip_object Show 1))) f = false) as H.
  { intros f Hf. cbn in Hf. destruct f as [|[|[|f]]]; [reflexivity..|lia]. }
  split; [exact H|].
  exact (grow_shrink_visibility_mesh_show_twice_resets strip_object H).
Defined.

(** *** More Hide iterations never hide less *)

Lemma is_even_count_succ (i : nat) :
  is_even_count (Z.of_nat (S i)) = negb (is_even_count (Z.of_nat i)).
Proof.
  unfold is_even_count.
  destruct (Z.eqb_spec (Z.rem (Z.of_nat (S i)) 2) 0) as [H1|H1];
    destruct (Z.eqb_spec (Z.rem (Z.of_nat i) 2) 0) as [H2|H2]; try done;
    exfalso; revert H1 H2; Z.to_euclidean_division_equations; lia.
Qed.

Lemma is_even_count_pred (n : nat) :
  is_even_count (Z.of_nat n - 1) = negb (is_even_count (Z.of_nat n)).
Proof.
  destruct n as [|n]; [done|].
  replace (Z.of_nat (S n) - 1)%Z with (Z.of_nat n) by lia.
  by rewrite is_even_count_succ, negb_involutive.
Qed.

Lemma last_buffer_is_read buffers (n : nat) :
  write_buffer buffers (Z.of_nat n - 1) = read_buffer buffers (Z.of_nat n).
Proof.
  unfold write_buffer, read_buffer. rewrite is_even_count_pred.
  by destruct (is_even_count (Z.of_nat n)).
Qed.

Lemma read_buffer_next buffers (i : nat) wr :
  read_buffer (set_write_buffer buffers (Z.of_nat i) wr) (Z.of_nat (S i)) = wr.
Proof.
  unfold read_buffer, set_write_buffer. rewrite is_even_count_succ.
  by destruct (is_even_count (Z.of_nat i)).
Qed.

Lemma write_buffer_next buffers (i : nat) wr :
  write_buffer (set_write_buffer buffers (Z.of_nat i) wr) (Z.of_nat (S i))
  = read_buffer buffers (Z.of_nat i).
Proof.
  unfold write_buffer, read_buffer, set_write_buffer. rewrite is_even_count_succ.
  by destruct (is_even_count (Z.of_nat i)).
Qed.

Lemma propagate_from_snoc stored action remaining : forall i st,
  propagate_from stored action (S remaining) i st
  = propagate_step stored action (i + remaining) (propagate_from stored action remaining i st).
Proof.
  induction remaining as [|remaining IH]; intros i st.
  - cbn [propagate_from]. by rewrite Nat.add_0_r.
  - change (propagate_from stored action (S (S remaining)) i st)
      with (propagate_from stored action (S remaining) (S i) (propagate_step stored action i st)).
    rewrite IH. cbn [propagate_from]. by replace (S i + remaining) with (i + S remaining) by lia.
Qed.

Lemma propagate_faces_length action fs cv hp rd wr :
  length (propagate_faces action fs cv hp rd wr) = length wr.
Proof.
  unfold propagate_faces. generalize (seq 0 (length fs)) as face_indices.
  intros face_indices. revert wr.
  induction face_indices as [|f rest IH]; intros wr; [done|].
  cbn [foldl]. rewrite IH. destruct (negb (span_get hp f)); [done|].
  destruct action; apply affect_visibility_mesh_length.
Qed.

(** Some hidden face has a corner that reads hidden and has [v] as the
    vertex before or after it. *)
Lemma propagate_faces_hide_true fs cv hp rd wr v :
  span_get (propagate_faces Hide fs cv hp rd wr) v = true <->
  span_get wr v = true \/
  (v < length wr /\
   exists f c, f < length fs /\ span_get hp f = true /\
     range_start (face_range fs f) <= c < range_start (face_range fs f)
                                          + range_size (face_range fs f) /\
     span_get rd (corner_vert cv c) = true /\
     (v = corner_vert cv (face_corner_prev (face_range fs f) c) \/
      v = corner_vert cv (face_corner_next (face_range fs f) c))).
Proof.
  destruct (decide (v < length wr)) as [Hlt|Hge].
  2: { rewrite !span_get_ge by (rewrite ?propagate_faces_length; lia). split; [done|].
       intros [H|[H _]]; [done | lia]. }
  assert (forall face_indices wr, v < length wr ->
    span_get (foldl (fun wr face_index =>
                       if negb (span_get hp face_index) then wr
                       else affect_visibility_mesh true (face_range fs face_index) cv rd wr)
                    wr face_indices) v = true <->
    span_get wr v = true \/
    exists f, f ∈ face_indices /\ span_get hp f = true /\
              next_to_value true (face_range fs f) cv rd v = true) as Hfold.
  { clear wr Hlt. intros face_indices.
    induction face_indices as [|f rest IH]; intros wr Hlt.
    - cbn [foldl]. split; [by left|]. intros [H|(f & Hf & _)]; [done|].
      by apply elem_of_nil in Hf.
    - cbn [foldl]. rewrite IH.
      2: { destruct (negb (span_get hp f)); [done|]. by rewrite affect_visibility_mesh_length. }
      destruct (span_get hp f) eqn:Ehp; cbn [negb].
      + rewrite affect_visibility_mesh_get by done.
        destruct (next_to_value true (face_range fs f) cv rd v) eqn:En.
        * split; [|by left]. intros _. right. exists f. split; [|done].
          apply elem_of_cons. by left.
        * split.
          -- intros [H|(g & Hg & H1 & H2)]; [by left|]. right. exists g.
             split; [|done]. apply elem_of_cons. by right.
          -- intros [H|(g & Hg & H1 & H2)]; [by left|]. right. exists g.
             split; [|done]. apply elem_of_cons in Hg as [->|Hg]; [congruence | done].
      + split.
        * intros [H|(g & Hg & H1 & H2)]; [by left|]. right. exists g.
          split; [|done]. apply elem_of_cons. by right.
        * intros [H|(g & Hg & H1 & H2)]; [by left|]. right. exists g.
          split; [|done]. apply elem_of_cons in Hg as [->|Hg]; [congruence | done]. }
  unfold propagate_faces. rewrite (Hfold _ _ Hlt). split.
  - intros [H|(f & Hf & Hhp & Hn)]; [by left|]. right. split; [done|].
    apply elem_of_seq in Hf. unfold next_to_value in Hn.
    apply existsb_exists in Hn as (c & Hc & Hb).
    apply list_elem_of_In, elem_of_seq in Hc.
    apply andb_true_iff in Hb as [Hrd Hv].
    exists f, c. split; [lia|]. split; [done|]. split; [lia|].
    split; [by apply eqb_prop in Hrd|].
    apply orb_true_iff in Hv as [Hv|Hv]; apply Nat.eqb_eq in Hv; auto.
  - intros [H|(_ & f & c & Hf & Hhp & Hc & Hrd & Hv)]; [by left|]. right.
    exists f. split; [apply elem_of_seq; lia|]. split; [done|].
    unfold next_to_value. apply existsb_exists. exists c.
    split; [apply list_elem_of_In, elem_of_seq; lia|].
    apply andb_true_iff. split; [by rewrite Hrd|].
    apply orb_true_iff. destruct Hv as [->| ->]; [left | right]; apply Nat.eqb_refl.
Qed.

Lemma face_any_hidden_corner fs cv hv f c :
  range_start (face_range fs f) + range_size (face_range fs f) <= length cv ->
  range_start (face_range fs f) <= c < range_start (face_range fs f)
                                       + range_size (face_range fs f) ->
  span_get hv (corner_vert cv c) = true ->
  face_any_hidden fs cv hv f = true.
Proof.
  intros Hwf Hc Hhv. unfold face_any_hidden. apply existsb_exists.
  exists (corner_vert cv c). split; [|done].
  apply list_elem_of_In, list_elem_of_lookup.
  exists (c - range_start (face_range fs f)). unfold slice.
  rewrite lookup_take_lt by lia. rewrite lookup_drop.
  replace (range_start (face_range fs f) + (c - range_start (face_range fs f))) with c by lia.
  unfold corner_vert. destruct (cv !! c) eqn:E; [done|].
  apply lookup_ge_None in E. lia.
Qed.

Section hide_iterations.
Variable stored : bool.
Variable fs : list IndexRange.
Variable cv : list nat.
Hypothesis ranges_ok : forall f,
  range_start (face_range fs f) + range_size (face_range fs f) <= length cv.

Lemma hide_iteration_ok_step i st :
  hide_iteration_ok stored fs cv i st ->
  hide_iteration_ok stored fs cv (S i) (propagate_step stored Hide i st).
Proof.
  destruct st as [m buffers]. unfold hide_iteration_ok, propagate_step. cbn [fst snd].
  intros (Hf & Hcv & Hlen & Hsub & Hnext). rewrite Hf, Hcv.
  set (rd := read_buffer buffers (Z.of_nat i)) in *.
  set (wr := write_buffer buffers (Z.of_nat i)) in *.
  set (wr' := propagate_faces Hide fs cv (hide_poly_view stored m) rd wr) in *.
  rewrite read_buffer_next, write_buffer_next. fold rd.
  split; [by rewrite <- Hf|]. split; [by rewrite <- Hcv|].
  split; [unfold wr'; by rewrite propagate_faces_length|].
  split; [exact Hnext|].
  intros v Hv. apply propagate_faces_hide_true.
  unfold wr' in Hv. apply propagate_faces_hide_true in Hv.
  destruct Hv as [Hv|(Hlt & f & c & Hlf & Hhp & Hc & Hrd & Hvc)]; [left; by apply Hsub|].
  right. split; [lia|]. exists f, c. split; [done|]. split.
  - unfold hide_poly_view in *. destruct stored.
      change (span_get (mesh_face_hide_from_vert (faces m) (corner_verts m) wr') f = true).
      rewrite Hf, Hcv. rewrite mesh_face_hide_from_vert_get by done.
      apply (face_any_hidden_corner fs cv _ f c); [apply ranges_ok | done |].
      apply Hnext, Hrd.
    + by rewrite span_get_replicate_false in Hhp.
  - split; [done|]. split; [|done]. apply Hnext, Hrd.
Qed.

Lemma hide_iteration_ok_from remaining : forall i st,
  hide_iteration_ok stored fs cv i st ->
  hide_iteration_ok stored fs cv (i + remaining) (propagate_from stored Hide remaining i st).
Proof.
  induction remaining as [|remaining IH]; intros i st Hok.
  - by rewrite Nat.add_0_r.
  - cbn [propagate_from]. replace (i + S remaining) with (S i + remaining) by lia.
    apply IH. by apply hide_iteration_ok_step.
Qed.

End hide_iterations.

(** X23: on a polygon mesh whose face corner ranges lie within the corner
    array, every vertex that the Hide filter leaves hidden after [n]
    iterations is hidden after [n + 1] iterations as well. *)
Theorem grow_shrink_visibility_mesh_hide_more (ob : MeshObject) (n : nat) :
  (forall f, range_start (face_range (faces (mo_mesh ob)) f)
             + range_size (face_range (faces (mo_mesh ob)) f)
             <= length (corner_verts (mo_mesh ob))) ->
  hidden_subset (hide_vert_span (mo_mesh (grow_shrink_visibility_mesh ob Hide n)))
                (hide_vert_span (mo_mesh (grow_shrink_visibility_mesh ob Hide (S n)))).
Proof.
  intros Hwf. unfold grow_shrink_visibility_mesh.
  destruct (hide_vert (mo_mesh ob)) as [hv|] eqn:Ehv; [|by intros v].
  unfold propagate_vertex_visibility. rewrite propagate_from_snoc. cbn [Nat.add].
  set (stored := bool_decide (is_Some (hide_poly (mo_mesh ob)))).
  pose proof (hide_iteration_ok_from stored (faces (mo_mesh ob)) (corner_verts (mo_mesh ob))
                Hwf n 0 (mo_mesh ob, mkDualBuffer hv hv)) as Hok.
  destruct (propagate_from stored Hide n 0 (mo_mesh ob, mkDualBuffer hv hv))
    as [m1 buffers1] eqn:E1.
  cbn [Nat.add] in Hok.
  destruct Hok as (Hf & Hcv & Hlen & Hsub & Hnext).
  { unfold hide_iteration_ok. cbn [fst snd read_buffer write_buffer front back].
    replace (if is_even_count (Z.of_nat 0) then hv else hv) with hv
      by (by destruct (is_even_count _)).
    split; [done|]. split; [done|]. split; [done|]. split; [by intros v|].
    intros v Hv. apply propagate_faces_hide_true. by left. }
  cbn [fst snd] in *. unfold propagate_step.
  replace (Z.of_nat (S n) - 1)%Z with (Z.of_nat n) by lia.
  rewrite write_buffer_set, last_buffer_is_read.
  unfold hide_vert_span. cbn [hide_vert set_hide_vert lookup_or_add default].
  rewrite Hf, Hcv. exact Hnext.
Qed.

Lemma grow_shrink_visibility_mesh_hide_more_witness :
  (forall f, range_start (face_range (faces (mo_mesh strip_object)) f)
             + range_size (face_range (faces (mo_mesh strip_object)) f)
             <= length (corner_verts (mo_mesh strip_object))) /\
  hidden_subset (hide_vert_span (mo_mesh (grow_shrink_visibility_mesh strip_object Hide 1)))
                (hide_vert_span (mo_mesh (grow_shrink_visibility_mesh strip_object Hide 2))).
Proof.
  assert (forall f, range_start (face_range (faces (mo_mesh strip_object)) f)
             + range_size (face_range (faces (mo_mesh strip_object)) f)
             <= length (corner_verts (mo_mesh strip_object))) as H.
  { intros f. destruct f as [|[|[|f]]]; vm_compute; lia. }
  split; [exact H|].
  exact (grow_shrink_visibility_mesh_hide_more strip_object 1 H).
Defined.

(** *** On grids more iterations never undo earlier ones *)

Lemma foldl_rel {A X : Type} (R : A -> A -> Prop) (f f' : A -> X -> A) (l : list X) :
  (forall a a' x, R a a' -> R (f a x) (f' a' x)) ->
  forall a a', R a a' -> R (foldl f a l) (foldl f' a' l).
Proof.
  intros Hstep. induction l as [|x l IH]; intros a a' H; [done|].
  cbn [foldl]. apply IH. by apply Hstep.
Qed.

Lemma foldl_rel_keeps {A X : Type} (R : A -> A -> Prop) (f : A -> X -> A) (l : list X) :
  (forall a, R a a) -> (forall a b c, R a b -> R b c -> R a c) ->
  (forall a x, R a (f a x)) ->
  forall a, R a (foldl f a l).
Proof.
  intros Hrefl Htrans Hstep. induction l as [|x l IH]; intros a; [apply Hrefl|].
  cbn [foldl]. eapply Htrans; [apply Hstep | apply IH].
Qed.

Lemma grid_bits_set_bit wr g e v g' :
  grid_bits (set_bit wr g e v) g' =
    if decide (g' = g /\ g < length wr) then <[e := v]> (grid_bits wr g) else grid_bits wr g'.
Proof.
  unfold set_bit, grid_bits.
  destruct (decide (g' = g /\ g < length wr)) as [[-> Hlt]|Hn].
  - by rewrite list_lookup_insert_eq.
  - destruct (decide (g' = g)) as [->|Hne].
    + rewrite !lookup_ge_None_2; [done | lia | rewrite length_insert; lia].
    + by rewrite list_lookup_insert_ne.
Qed.

Section grid_iterations.
Variable neighbor_coords : SubdivCCGCoord -> list SubdivCCGCoord.
Variable gs : nat.
Variable d : bool.
Variable nodes : list PBVHNode.

Lemma bits_le_refl a : bits_le d a a.
Proof. by repeat split. Qed.

Lemma bits_le_trans a b c : bits_le d a b -> bits_le d b c -> bits_le d a c.
Proof.
  intros (H1 & H2 & H3) (H4 & H5 & H6). split; [congruence|].
  split; [intros g; by rewrite H2|]. intros g e H. by apply H6, H3.
Qed.

Lemma set_bit_le a b g e : bits_le d a b -> bits_le d (set_bit a g e d) (set_bit b g e d).
Proof.
  intros (H1 & H2 & H3). split; [unfold set_bit; by rewrite !length_insert|].
  split.
  - intros g'. rewrite !grid_bits_set_bit, H1.
    destruct (decide (g' = g /\ g < length b)); [by rewrite !length_insert|done].
  - intros g' e'. rewrite !grid_bits_set_bit, H1.
    destruct (decide (g' = g /\ g < length b)); [|apply H3].
    rewrite !span_get_insert, H2.
    destruct (decide (e' = e /\ e < length (grid_bits b g))); [done|apply H3].
Qed.

Lemma set_bit_keeps a g e : bits_le d a (set_bit a g e d).
Proof.
  split; [unfold set_bit; by rewrite length_insert|]. split.
  - intros g'. rewrite grid_bits_set_bit.
    destruct (decide (g' = g /\ g < length a)) as [[-> _]|_]; [by rewrite length_insert|done].
  - intros g' e'. rewrite grid_bits_set_bit.
    destruct (decide (g' = g /\ g < length a)) as [[-> _]|_]; [|done].
    intros H. by apply span_get_insert_keeps.
Qed.

Lemma grow_shrink_grid_elem_le rd rd' grid y wr wr' x :
  bits_le d rd rd' -> bits_le d wr wr' ->
  bits_le d (grow_shrink_grid_elem neighbor_coords gs d rd grid y wr x)
            (grow_shrink_grid_elem neighbor_coords gs d rd' grid y wr' x).
Proof.
  intros Hrd Hwr. unfold grow_shrink_grid_elem.
  destruct (Bool.eqb (span_get (grid_bits rd grid) (CCG_grid_xy_to_index gs x y)) d) eqn:E.
  - apply eqb_prop in E. destruct Hrd as (_ & _ & Hrd). rewrite (Hrd _ _ E).
    rewrite eqb_reflx. cbn [negb].
    apply (foldl_rel (bits_le d)); [|done]. intros a a' n Ha. by apply set_bit_le.
  - cbn [negb]. destruct (negb _); [done|].
    eapply bits_le_trans; [exact Hwr|].
    apply (foldl_rel_keeps (bits_le d)); [apply bits_le_refl | apply bits_le_trans |].
    intros a n. apply set_bit_keeps.
Qed.

Lemma grow_shrink_grid_node_le rd rd' node wr wr' :
  bits_le d rd rd' -> bits_le d wr wr' ->
  bits_le d (grow_shrink_grid_node neighbor_coords gs d rd node wr)
            (grow_shrink_grid_node neighbor_coords gs d rd' node wr').
Proof.
  intros Hrd Hwr. unfold grow_shrink_grid_node.
  apply (foldl_rel (bits_le d)); [|done]. intros a a' grid Ha.
  apply (foldl_rel (bits_le d)); [|done]. intros b b' y Hb.
  apply (foldl_rel (bits_le d)); [|done]. intros c c' x Hc.
  by apply grow_shrink_grid_elem_le.
Qed.

Lemma grow_shrink_grid_nodes_fst rd ns : forall node_index wr node_changed,
  (grow_shrink_grid_nodes neighbor_coords gs d rd node_index ns wr node_changed).1
  = foldl (fun wr node => grow_shrink_grid_node neighbor_coords gs d rd node wr) wr ns.
Proof.
  induction ns as [|node rest IH]; intros node_index wr node_changed; [done|].
  cbn [grow_shrink_grid_nodes foldl]. apply IH.
Qed.

Lemma grow_shrink_grid_pass_le rd rd' wr wr' :
  bits_le d rd rd' -> bits_le d wr wr' ->
  bits_le d (foldl (fun wr node => grow_shrink_grid_node neighbor_coords gs d rd node wr)
                   wr nodes)
            (foldl (fun wr node => grow_shrink_grid_node neighbor_coords gs d rd' node wr)
                   wr' nodes).
Proof.
  intros Hrd Hwr. apply (foldl_rel (bits_le d)); [|done].
  intros a a' node Ha. by apply grow_shrink_grid_node_le.
Qed.

Lemma bit_last_buffer_is_read buffers (n : nat) :
  bit_write_buffer buffers (Z.of_nat n - 1) = bit_read_buffer buffers (Z.of_nat n).
Proof.
  unfold bit_write_buffer, bit_read_buffer. rewrite is_even_count_pred.
  by destruct (is_even_count (Z.of_nat n)).
Qed.

Lemma bit_read_buffer_next buffers (i : nat) wr :
  bit_read_buffer (set_bit_write_buffer buffers (Z.of_nat i) wr) (Z.of_nat (S i)) = wr.
Proof.
  unfold bit_read_buffer, set_bit_write_buffer. rewrite is_even_count_succ.
  by destruct (is_even_count (Z.of_nat i)).
Qed.

Lemma bit_write_buffer_next buffers (i : nat) wr :
  bit_write_buffer (set_bit_write_buffer buffers (Z.of_nat i) wr) (Z.of_nat (S i))
  = bit_read_buffer buffers (Z.of_nat i).
Proof.
  unfold bit_write_buffer, bit_read_buffer, set_bit_write_buffer. rewrite is_even_count_succ.
  by destruct (is_even_count (Z.of_nat i)).
Qed.

Lemma bit_write_buffer_set buffers count wr :
  bit_write_buffer (set_bit_write_buffer buffers count wr) count = wr.
Proof. unfold bit_write_buffer, set_bit_write_buffer. by destruct (is_even_count count). Qed.

(** Before iteration [i]: the buffer about to be overwritten is below the one
    about to be read, and that one is below what the iteration writes. *)
Lemma grow_shrink_grid_from_ok remaining : forall i buffers node_changed,
  bits_le d (bit_write_buffer buffers (Z.of_nat i)) (bit_read_buffer buffers (Z.of_nat i)) ->
  bits_le d (bit_read_buffer buffers (Z.of_nat i))
    (foldl (fun wr node =>
              grow_shrink_grid_node neighbor_coords gs d
                (bit_read_buffer buffers (Z.of_nat i)) node wr)
           (bit_write_buffer buffers (Z.of_nat i)) nodes) ->
  let buffers' :=
    (grow_shrink_grid_from neighbor_coords gs d nodes remaining i (buffers, node_changed)).1 in
  bits_le d (bit_read_buffer buffers' (Z.of_nat (i + remaining)))
    (foldl (fun wr node =>
              grow_shrink_grid_node neighbor_coords gs d
                (bit_read_buffer buffers' (Z.of_nat (i + remaining))) node wr)
           (bit_write_buffer buffers' (Z.of_nat (i + remaining))) nodes).
Proof.
  induction remaining as [|remaining IH]; intros i buffers node_changed Hsub Hnext.
  - cbn [grow_shrink_grid_from fst]. by rewrite Nat.add_0_r.
  - cbn [grow_shrink_grid_from].
    pose proof (grow_shrink_grid_nodes_fst (bit_read_buffer buffers (Z.of_nat i)) nodes 0
                  (bit_write_buffer buffers (Z.of_nat i)) node_changed) as Hfst.
    destruct (grow_shrink_grid_nodes neighbor_coords gs d _ 0 nodes _ node_changed)
      as [wr' node_changed'].
    cbn [fst] in Hfst. subst wr'.
    replace (i + S remaining) with (S i + remaining) by lia.
    apply IH; rewrite bit_read_buffer_next, bit_write_buffer_next.
    + exact Hnext.
    + by apply grow_shrink_grid_pass_le.
Qed.

Lemma grow_shrink_grid_from_snoc remaining : forall i buffers node_changed,
  (grow_shrink_grid_from neighbor_coords gs d nodes (S remaining) i (buffers, node_changed)).1
  = let buffers' :=
      (grow_shrink_grid_from neighbor_coords gs d nodes remaining i (buffers, node_changed)).1 in
    set_bit_write_buffer buffers' (Z.of_nat (i + remaining))
      (foldl (fun wr node =>
                grow_shrink_grid_node neighbor_coords gs d
                  (bit_read_buffer buffers' (Z.of_nat (i + remaining))) node wr)
             (bit_write_buffer buffers' (Z.of_nat (i + remaining))) nodes).
Proof.
  induction remaining as [|remaining IH]; intros i buffers node_changed.
  - cbn [grow_shrink_grid_from].
    pose proof (grow_shrink_grid_nodes_fst (bit_read_buffer buffers (Z.of_nat i)) nodes 0
                  (bit_write_buffer buffers (Z.of_nat i)) node_changed) as Hfst.
    destruct (grow_shrink_grid_nodes neighbor_coords gs d _ 0 nodes _ node_changed)
      as [wr' node_changed'].
    cbn [fst] in *. subst wr'. by rewrite Nat.add_0_r.
  - change (grow_shrink_grid_from neighbor_coords gs d nodes (S (S remaining)) i
              (buffers, node_changed))
      with (let '(wr', node_changed') :=
              grow_shrink_grid_nodes neighbor_coords gs d (bit_read_buffer buffers (Z.of_nat i))
                0 nodes (bit_write_buffer buffers (Z.of_nat i)) node_changed in
            grow_shrink_grid_from neighbor_coords gs d nodes (S remaining) (S i)
              (set_bit_write_buffer buffers (Z.of_nat i) wr', node_changed')).
    change (grow_shrink_grid_from neighbor_coords gs d nodes (S remaining) i
              (buffers, node_changed))
      with (let '(wr', node_changed') :=
              grow_shrink_grid_nodes neighbor_coords gs d (bit_read_buffer buffers (Z.of_nat i))
                0 nodes (bit_write_buffer buffers (Z.of_nat i)) node_changed in
            grow_shrink_grid_from neighbor_coords gs d nodes remaining (S i)
              (set_bit_write_buffer buffers (Z.of_nat i) wr', node_changed')).
    destruct (grow_shrink_grid_nodes neighbor_coords gs d _ 0 nodes _ node_changed)
      as [wr' node_changed'].
    rewrite IH. by replace (S i + remaining) with (i + S remaining) by lia.
Qed.

End grid_iterations.

Lemma grow_shrink_grid_last_le
    (neighbor_coords : SubdivCCGCoord -> list SubdivCCGCoord) (ob : GridObject)
    (action : VisAction) (n : nat) :
  bits_le (action_to_hide action)
    (grid_hidden (go_ccg (grow_shrink_visibility_grid neighbor_coords ob action n)))
    (grid_hidden (go_ccg (grow_shrink_visibility_grid neighbor_coords ob action (S n)))).
Proof.
  unfold grow_shrink_visibility_grid.
  set (gh := grid_hidden_ensure (go_ccg ob)).
  set (ch := replicate (length (go_nodes ob)) false).
  pose proof (grow_shrink_grid_from_snoc neighbor_coords (grid_size (go_ccg ob))
                (action_to_hide action) (go_nodes ob) n 0 (mkDualBitBuffer gh gh) ch) as Hsnoc.
  pose proof (grow_shrink_grid_from_ok neighbor_coords (grid_size (go_ccg ob))
                (action_to_hide action) (go_nodes ob) n 0 (mkDualBitBuffer gh gh) ch) as Hok.
  destruct (grow_shrink_grid_from _ _ _ _ (S n) 0 _) as [buffers2 ch2].
  destruct (grow_shrink_grid_from _ _ _ _ n 0 _) as [buffers1 ch1].
  cbn [fst Nat.add go_ccg grid_hidden set_grid_hidden] in *. subst buffers2.
  replace (Z.of_nat (S n) - 1)%Z with (Z.of_nat n) by lia.
  rewrite bit_write_buffer_set, bit_last_buffer_is_read.
  apply Hok.
  - unfold bit_write_buffer, bit_read_buffer. cbn. apply bits_le_refl.
  - apply (foldl_rel_keeps (bits_le (action_to_hide action)));
      [apply bits_le_refl | apply bits_le_trans |].
    intros a node. unfold grow_shrink_grid_node.
    apply (foldl_rel_keeps (bits_le (action_to_hide action)));
      [apply bits_le_refl | apply bits_le_trans |].
    intros b grid.
    apply (foldl_rel_keeps (bits_le (action_to_hide action)));
      [apply bits_le_refl | apply bits_le_trans |].
    intros c y.
    apply (foldl_rel_keeps (bits_le (action_to_hide action)));
      [apply bits_le_refl | apply bits_le_trans |].
    intros e x. unfold grow_shrink_grid_elem. destruct (negb _); [apply bits_le_refl|].
    apply (foldl_rel_keeps (bits_le (action_to_hide action)));
      [apply bits_le_refl | apply bits_le_trans |].
    intros a' nb. apply set_bit_keeps.
Qed.

(** X24: on multires grids the filter never moves an element away from the
    target value, and it is monotone in the iteration count, for the Hide and
    for the Show action alike: an element that has the target value before the
    filter has it after [n] iterations, and one that has it after [n]
    iterations has it after [n + 1]; the bit structure keeps its shape. *)
Theorem grow_shrink_visibility_grid_more
    (neighbor_coords : SubdivCCGCoord -> list SubdivCCGCoord) (ob : GridObject)
    (action : VisAction) (n : nat) :
  bits_le (action_to_hide action)
    (grid_hidden_ensure (go_ccg ob))
    (grid_hidden (go_ccg (grow_shrink_visibility_grid neighbor_coords ob action n))) /\
  bits_le (action_to_hide action)
    (grid_hidden (go_ccg (grow_shrink_visibility_grid neighbor_coords ob action n)))
    (grid_hidden (go_ccg (grow_shrink_visibility_grid neighbor_coords ob action (S n)))).
Proof.
  split; [|apply grow_shrink_grid_last_le].
  induction n as [|n IH].
  - apply bits_le_refl.
  - eapply bits_le_trans; [exact IH | apply grow_shrink_grid_last_le].
Qed.
